(** * sqlproxy: a database/sql driver that forwards SQL over TCP to a proxy

    Shallow embedding of the three Go packages of the repository:

    - [Proxy]        : cmd/proxy/main.go, the proxy that ignores engine errors;
    - [QueryService] : the second, near-duplicate entry point, which returns
                       typed errors and classifies requests by their first word;
    - [Driver]       : the client-side database/sql driver.

    The TCP socket is modelled by explicit state passing ([Socket]): what the
    peer sends, what was written, whether writes succeed, whether the socket
    is closed. The backing SQL engine, the msgpack codec and Go's [strings]
    package are external to the repository; the code is embedded in Sections
    that take them as parameters, so that what is proved of the servers and
    of the driver holds whatever those do. [Msgpack], [AsciiStrings] and
    [FakeEngine] are concrete instances of the parameters, used to run the
    code on concrete connections; [Spec] holds what the specification asks
    for where the code is to be compared with it. Log output ([log.Println],
    [fmt.Printf]) is not part of the model. *)

From Stdlib Require Import ZArith NArith List Lia Bool String Ascii.
From Stdlib Require Strings.Byte.
Import ListNotations.
Local Open Scope Z_scope.

(** ** Bytes and big-endian integers (encoding/binary) *)

Abbreviation byte := Init.Byte.byte.
Definition bytes := list byte.

Definition byte_to_Z (b : byte) : Z := Z.of_N (Byte.to_N b).

(** Go's conversion [byte(v)] of an unsigned integer keeps the low 8 bits. *)
Definition byte_of_Z (z : Z) : byte :=
  match Byte.of_N (Z.to_N (z mod 256)) with
  | Some b => b
  | None => Byte.x00
  end.

(** [len(x)] as a Go [int]. *)
Definition len {A : Type} (l : list A) : Z := Z.of_nat (List.length l).

(** [binary.BigEndian.PutUintN]: the [n] low bytes of [v], most significant
    first. *)
Fixpoint be_put (n : nat) (v : Z) : bytes :=
  match n with
  | O => []
  | S k => byte_of_Z (Z.shiftr v (8 * Z.of_nat k)) :: be_put k v
  end.

(** [binary.BigEndian.UintN]: shift the accumulator and or the next byte in. *)
Fixpoint be_get_from (acc : Z) (bs : bytes) : Z :=
  match bs with
  | [] => acc
  | b :: rest => be_get_from (Z.lor (Z.shiftl acc 8) (byte_to_Z b)) rest
  end.

Definition be_get (bs : bytes) : Z := be_get_from 0 bs.

Definition PutUint32 (v : Z) : bytes := be_put 4 v.
Definition Uint32 (bs : bytes) : Z := be_get bs.

(** Go's conversion [uint32(n)] of an [int]. *)
Definition uint32 (n : Z) : Z := n mod 2 ^ 32.

(** ** Go errors *)

Inductive error : Type :=
| EOF                         (* io.EOF *)
| ErrUnexpectedEOF            (* io.ErrUnexpectedEOF *)
| ErrNetClosed                (* use of closed network connection *)
| ErrBrokenPipe               (* a failed write *)
| ErrCodec (msg : string)     (* an error of the msgpack package *)
| ErrEngine (msg : string)    (* an error of the backing SQL engine *)
| Errorf (msg : string).      (* fmt.Errorf *)

(** ** The socket (net.Conn), seen from one end

    [inbuf] holds the bytes the peer sends before it closes its side, not yet
    consumed; [outbuf] the bytes written so far. A write either delivers the
    whole buffer or fails ([writable] = false models a broken pipe). *)

Record Socket : Type := mkSocket {
  inbuf : bytes;
  outbuf : bytes;
  writable : bool;
  closed : bool
}.

Definition set_inbuf (c : Socket) (i : bytes) : Socket :=
  mkSocket i (outbuf c) (writable c) (closed c).

Definition sock_Close (c : Socket) : Socket :=
  mkSocket (inbuf c) (outbuf c) (writable c) true.

(** [conn.Write(b)]. *)
Definition sock_Write (c : Socket) (b : bytes) : Socket * option error :=
  if closed c then (c, Some ErrNetClosed)
  else if writable c then
    (mkSocket (inbuf c) (outbuf c ++ b) (writable c) (closed c), None)
  else (c, Some ErrBrokenPipe).

(** [io.ReadFull(conn, buf)] with [len(buf) = n]: exactly [n] bytes, or an
    error; with [n = 0] nothing is read at all. A short stream is consumed
    and reported as [EOF] (nothing read) or [ErrUnexpectedEOF]. *)
Definition ReadFull (c : Socket) (n : Z) : Socket * (bytes + error) :=
  if n <=? 0 then (c, inl [])
  else if closed c then (c, inr ErrNetClosed)
  else if len (inbuf c) <? n then
    (set_inbuf c [], inr (match inbuf c with [] => EOF | _ => ErrUnexpectedEOF end))
  else
    (set_inbuf c (skipn (Z.to_nat n) (inbuf c)), inl (firstn (Z.to_nat n) (inbuf c))).

(** ** The values of database/sql/driver.Value

    An [interface{}] cell of an argument list or of a row. The first seven
    constructors and [VNilBytes] are the values of the [driver.Value] kinds;
    [VTimePtr] is a [*time.Time], which is no [driver.Value] but is what the
    codec hands out when it reads a time. A time is its instant; its zone
    is not modelled. *)

Inductive Value : Type :=
| VNull
| VBool (b : bool)
| VInt64 (n : Z)
| VFloat64 (bits : Z)         (* the IEEE-754 bit pattern, math.Float64bits *)
| VString (s : string)
| VBytes (b : bytes)          (* a []byte that is not nil *)
| VTime (sec nsec : Z)        (* time.Time as Unix seconds and nanoseconds *)
| VNilBytes                   (* []byte(nil) *)
| VTimePtr (sec nsec : Z).    (* *time.Time, pointing to that instant *)

(** ** The four messages; the three packages declare the same structs *)

Record QueryRequest : Type := mkQueryRequest {
  qreq_Query : string;
  qreq_Args : list Value
}.

Record ExecRequest : Type := mkExecRequest {
  ereq_Query : string;
  ereq_Args : list Value
}.

Record QueryResponse : Type := mkQueryResponse {
  Columns : list string;
  Data : list (list Value)
}.

Record ExecResponse : Type := mkExecResponse {
  RowsAffected : Z;
  LastInsertID : Z
}.

(** Go's [interface{}] argument of [sendRequest] and [sendResponse]. *)
Inductive Message : Type :=
| MQueryRequest (r : QueryRequest)
| MExecRequest (r : ExecRequest)
| MQueryResponse (r : QueryResponse)
| MExecResponse (r : ExecResponse).

(** ** Frames: a 4-byte big-endian length, then the payload

    The repository has no frame functions of its own; every reader and writer
    repeats the same statements. [readFrame] is the reading sequence of
    [handleConnection] (both entry points), [readQueryResponse] and
    [readExecResponse]: read four bytes, take them as a length, [make] a
    buffer of that length and fill it. The list returned with the result
    records the sizes passed to [make]. *)

Definition readFrame (conn : Socket) : Socket * list Z * (bytes + error) :=
  match ReadFull conn 4 with
  | (c1, inr err) => (c1, [], inr err)
  | (c1, inl lengthBytes) =>
      let length := Uint32 lengthBytes in
      (* data := make([]byte, length) *)
      match ReadFull c1 length with
      | (c2, inr err) => (c2, [length], inr err)
      | (c2, inl data) => (c2, [length], inl data)
      end
  end.

(** [writeFrame] is the writing sequence of [sendRequest] and of
    [sendResponse]: the length of the payload, converted to [uint32], in
    four big-endian bytes, then the payload in a second write. *)

Definition writeFrame (conn : Socket) (data : bytes) : Socket * option error :=
  let length := uint32 (len data) in
  match sock_Write conn (PutUint32 length) with
  | (c1, Some err) => (c1, Some err)
  | (c1, None) => sock_Write c1 data
  end.

(** The bytes of one frame on the wire. *)
Definition frame (data : bytes) : bytes := PutUint32 (uint32 (len data)) ++ data.

(** ** The backing engine (database/sql), an opaque capability *)

(** [*sql.Rows] after a successful [db.Query]: the result of [Columns()] and
    the rows that [Next]/[Scan] step through. *)
Record SqlRows : Type := mkSqlRows {
  sr_Columns : list string + error;
  sr_data : list (list Value)
}.

(** [sql.Result]: each accessor returns a number and an error. *)
Record SqlResult : Type := mkSqlResult {
  res_RowsAffected : Z * option error;
  res_LastInsertId : Z * option error
}.

(** [rows.Scan(pointers...)] into [len(cols)] fresh [interface{}] cells: on
    a wrong number of destinations Scan fails and the cells stay nil. *)
Definition Scan (ncols : nat) (row : list Value) : list Value :=
  if Nat.eqb (List.length row) ncols then row else repeat VNull ncols.

(** What the server does besides socket traffic. *)
Inductive Method : Type :=
| RowsClose | RowsColumns | ResultRowsAffected.

Inductive Event : Type :=
| EvMake (n : Z)                             (* make([]byte, n) *)
| EvQuery (q : string) (args : list Value)   (* db.Query(q, args...) *)
| EvExec (q : string) (args : list Value)    (* db.Exec(q, args...) *)
| EvNilDeref (m : Method).                   (* a method called on a nil handle *)

Inductive Exit : Type :=
| Returned         (* the function returned *)
| Panicked         (* a run-time panic unwound the goroutine *)
| OutOfFuel.       (* the model ran out of fuel; see [serve_fuel] *)

Record Server (DB : Type) : Type := mkServer {
  conn : Socket;
  db : DB;
  trace : list Event
}.
Arguments mkServer {DB}.
Arguments conn {DB}.
Arguments db {DB}.
Arguments trace {DB}.

Definition set_conn {DB} (s : Server DB) (c : Socket) : Server DB :=
  mkServer c (db s) (trace s).

Definition log_events {DB} (s : Server DB) (evs : list Event) : Server DB :=
  mkServer (conn s) (db s) (trace s ++ evs).

(** The server once the frame carrying [payload] has been read from its
    connection and [rest] is still to come. *)
Definition framed {DB} (s : Server DB) (payload rest : bytes) : Server DB :=
  mkServer (set_inbuf (conn s) rest) (db s) (trace s ++ [EvMake (len payload)]).

(** ** cmd/proxy/main.go *)

Module Proxy.
Section WithEnvironment.
Context {DB : Type}.
Variable db_Query : DB -> string -> list Value -> DB * (SqlRows + error).
Variable db_Exec : DB -> string -> list Value -> DB * (SqlResult + error).
(** [msgpack.Unmarshal(data, &req)]: the struct as the decoder left it, and
    the error. *)
Variable Unmarshal_QueryRequest : bytes -> QueryRequest * option error.
Variable Unmarshal_ExecRequest : bytes -> ExecRequest * option error.
Variable Marshal : Message -> bytes + error.

Definition isQuery (data : bytes) : bool :=
  match snd (Unmarshal_QueryRequest data) with
  | None => true
  | Some _ => false
  end.

Definition sendResponse (c : Socket) (response : Message) : Socket :=
  match Marshal response with
  | inr _ => c
  | inl data => fst (writeFrame c data)
  end.

Definition handleQuery (s : Server DB) (data : bytes) : Server DB * Exit :=
  let req := fst (Unmarshal_QueryRequest data) in
  let (db', res) := db_Query (db s) (qreq_Query req) (qreq_Args req) in
  let s1 := mkServer (conn s) db'
              (trace s ++ [EvQuery (qreq_Query req) (qreq_Args req)]) in
  match res with
  | inr _ =>
      (* rows is nil: rows.Columns() panics, then the deferred rows.Close()
         runs on the same nil pointer *)
      (log_events s1 [EvNilDeref RowsColumns; EvNilDeref RowsClose], Panicked)
  | inl rows =>
      (* the error of rows.Columns() is dropped; cols is nil on error *)
      let cols := match sr_Columns rows with inl cs => cs | inr _ => [] end in
      let results := map (Scan (List.length cols)) (sr_data rows) in
      (set_conn s1 (sendResponse (conn s1)
                      (MQueryResponse (mkQueryResponse cols results))),
       Returned)
  end.

Definition handleExec (s : Server DB) (data : bytes) : Server DB * Exit :=
  let req := fst (Unmarshal_ExecRequest data) in
  let (db', res) := db_Exec (db s) (ereq_Query req) (ereq_Args req) in
  let s1 := mkServer (conn s) db'
              (trace s ++ [EvExec (ereq_Query req) (ereq_Args req)]) in
  match res with
  | inr _ =>
      (* result is a nil interface: result.RowsAffected() panics *)
      (log_events s1 [EvNilDeref ResultRowsAffected], Panicked)
  | inl result =>
      let rows := fst (res_RowsAffected result) in
      let lastID := fst (res_LastInsertId result) in
      (set_conn s1 (sendResponse (conn s1)
                      (MExecResponse (mkExecResponse rows lastID))),
       Returned)
  end.

(** The [for] loop of [handleConnection]; each turn consumes at least the
    four length bytes, so [S (length inbuf)] turns are enough. *)
Fixpoint serve (fuel : nat) (s : Server DB) : Server DB * Exit :=
  match fuel with
  | O => (s, OutOfFuel)
  | S fuel' =>
      let '(c, made, res) := readFrame (conn s) in
      let s1 := log_events (set_conn s c) (map EvMake made) in
      match res with
      | inr _ => (s1, Returned)
      | inl requestData =>
          let (s2, x) := if isQuery requestData
                         then handleQuery s1 requestData
                         else handleExec s1 requestData in
          match x with
          | Returned => serve fuel' s2
          | _ => (s2, x)
          end
      end
  end.

Definition serve_fuel (s : Server DB) : nat := S (List.length (inbuf (conn s))).

(** How the loop goes on once a handler is done: the next turn, unless
    the handler panicked. *)
Definition after_handler (fuel : nat) (r : Server DB * Exit) : Server DB * Exit :=
  let (s2, x) := r in
  match x with
  | Returned => serve fuel s2
  | _ => (s2, x)
  end.

(** [handleConnection]: the loop, then the deferred [conn.Close()]. *)
Definition handleConnection (s : Server DB) : Server DB * Exit :=
  let (s', x) := serve (serve_fuel s) s in
  (set_conn s' (sock_Close (conn s')), x).

End WithEnvironment.
End Proxy.

(** ** The second entry point (typed errors, first-word classifier) *)

Module QueryService.
Section WithEnvironment.
Context {DB : Type}.
Variable db_Query : DB -> string -> list Value -> DB * (SqlRows + error).
Variable db_Exec : DB -> string -> list Value -> DB * (SqlResult + error).
Variable Unmarshal_QueryRequest : bytes -> QueryRequest * option error.
Variable Unmarshal_ExecRequest : bytes -> ExecRequest * option error.
Variable Marshal : Message -> bytes + error.
(** Go's [strings] package. *)
Variable strings_TrimSpace : string -> string.
Variable strings_Fields : string -> list string.
Variable strings_ToUpper : string -> string.

(** [None] is the index-out-of-range panic of [strings.Fields(query)[0]]. *)
Definition isQuery (data : bytes) : option bool :=
  match Unmarshal_QueryRequest data with
  | (_, Some _) => Some false
  | (temp, None) =>
      let query := strings_TrimSpace (qreq_Query temp) in
      match strings_Fields query with
      | [] => None
      | w :: _ =>
          let firstWord := strings_ToUpper w in
          Some (String.eqb firstWord "SELECT")
      end
  end.

Definition sendResponse (c : Socket) (response : Message) : Socket :=
  match Marshal response with
  | inr _ => c
  | inl data => fst (writeFrame c data)
  end.

Definition handleQuery (s : Server DB) (data : bytes) : Server DB * option error :=
  match Unmarshal_QueryRequest data with
  | (_, Some err) => (s, Some err)
  | (req, None) =>
      let (db', res) := db_Query (db s) (qreq_Query req) (qreq_Args req) in
      let s1 := mkServer (conn s) db'
                  (trace s ++ [EvQuery (qreq_Query req) (qreq_Args req)]) in
      match res with
      | inr err => (s1, Some err)
      | inl rows =>
          match sr_Columns rows with
          | inr err => (s1, Some err)
          | inl cols =>
              let results := map (Scan (List.length cols)) (sr_data rows) in
              (set_conn s1 (sendResponse (conn s1)
                              (MQueryResponse (mkQueryResponse cols results))),
               None)
          end
      end
  end.

Definition handleExec (s : Server DB) (data : bytes) : Server DB * option error :=
  match Unmarshal_ExecRequest data with
  | (_, Some err) => (s, Some err)
  | (req, None) =>
      let (db', res) := db_Exec (db s) (ereq_Query req) (ereq_Args req) in
      let s1 := mkServer (conn s) db'
                  (trace s ++ [EvExec (ereq_Query req) (ereq_Args req)]) in
      match res with
      | inr err => (s1, Some err)
      | inl result =>
          let rows := fst (res_RowsAffected result) in
          let lastID := fst (res_LastInsertId result) in
          (set_conn s1 (sendResponse (conn s1)
                          (MExecResponse (mkExecResponse rows lastID))),
           None)
      end
  end.

Fixpoint serve (fuel : nat) (s : Server DB) : Server DB * Exit :=
  match fuel with
  | O => (s, OutOfFuel)
  | S fuel' =>
      let '(c, made, res) := readFrame (conn s) in
      let s1 := log_events (set_conn s c) (map EvMake made) in
      match res with
      | inr _ => (s1, Returned)
      | inl requestData =>
          match isQuery requestData with
          | None => (s1, Panicked)
          | Some true =>
              match handleQuery s1 requestData with
              | (s2, Some _) => (s2, Returned)
              | (s2, None) => serve fuel' s2
              end
          | Some false =>
              match handleExec s1 requestData with
              | (s2, Some _) => (s2, Returned)
              | (s2, None) => serve fuel' s2
              end
          end
      end
  end.

Definition serve_fuel (s : Server DB) : nat := S (List.length (inbuf (conn s))).

(** How the loop goes on once a handler is done: the next turn, unless
    the handler returned an error. *)
Definition after_handler (fuel : nat) (r : Server DB * option error)
  : Server DB * Exit :=
  match r with
  | (s2, Some _) => (s2, Returned)
  | (s2, None) => serve fuel s2
  end.

Definition handleConnection (s : Server DB) : Server DB * Exit :=
  let (s', x) := serve (serve_fuel s) s in
  (set_conn s' (sock_Close (conn s')), x).

End WithEnvironment.
End QueryService.

(** ** The client driver (package driver) *)

Module Driver.

(** [copy(dst, src)]: the first [min(len(dst), len(src))] cells of [dst] are
    overwritten. *)
Definition copy {A : Type} (dst src : list A) : list A :=
  firstn (List.length dst) src ++ skipn (List.length src) dst.

(** [Conn] holds the socket and nothing else. *)
Record Conn : Type := mkConn { conn : Socket }.

(** A statement keeps a reference to the socket of the connection that
    prepared it. The reference is not copied into the model: the methods of
    a statement take the owning [Conn] and return it updated. *)
Record Stmt : Type := mkStmt { query : string }.

(** The package implements no [driver.Tx]. *)
Inductive Tx : Type := .

Record Rows : Type := mkRows {
  columns : list string;
  data : list (list Value);
  index : Z
}.

Record Result : Type := mkResult {
  lastInsertID : Z;
  rowsAffected : Z
}.

Definition Prepare (c : Conn) (q : string) : Conn * (Stmt + error) :=
  (c, inl (mkStmt q)).

Definition Close (c : Conn) : Conn * option error :=
  (mkConn (sock_Close (conn c)),
   if closed (conn c) then Some ErrNetClosed else None).

Definition Begin (c : Conn) : Conn * (option Tx * option error) :=
  (c, (None, Some (Errorf "transactions are not supported"))).

Definition Stmt_Close (s : Stmt) : option error := None.

Definition NumInput (s : Stmt) : Z := -1.

Definition Rows_Columns (r : Rows) : list string := columns r.

Inductive NextResult : Type :=
| NextNil                  (* return nil *)
| NextEOF                  (* return io.EOF *)
| NextPanic.               (* index out of range *)

(** [Rows.Next(dest)]: the cursor and [dest] after the call, and the result. *)
Definition Next (r : Rows) (dest : list Value) : Rows * list Value * NextResult :=
  if index r >=? len (data r) then (r, dest, NextEOF)
  else if index r <? 0 then (r, dest, NextPanic)
  else
    match nth_error (data r) (Z.to_nat (index r)) with
    | None => (r, dest, NextPanic)
    | Some row =>
        (mkRows (columns r) (data r) (index r + 1), copy dest row, NextNil)
    end.

(** [Next] called once for each destination slice of [dests], in turn: the
    cursor after the calls, and for each call the destination as it was left
    and the result. *)
Fixpoint NextAll (r : Rows) (dests : list (list Value))
  : Rows * list (list Value * NextResult) :=
  match dests with
  | [] => (r, [])
  | dest :: more =>
      let '(r1, dest', res) := Next r dest in
      let (r2, outs) := NextAll r1 more in
      (r2, (dest', res) :: outs)
  end.

Definition Rows_Close (r : Rows) : option error := None.

Definition Result_LastInsertId (r : Result) : Z * option error := (lastInsertID r, None).
Definition Result_RowsAffected (r : Result) : Z * option error := (rowsAffected r, None).

Section WithEnvironment.
Variable Dial : string -> Socket + error.
Variable Marshal : Message -> bytes + error.
Variable Unmarshal_QueryResponse : bytes -> QueryResponse * option error.
Variable Unmarshal_ExecResponse : bytes -> ExecResponse * option error.

Definition Open (dsn : string) : Conn + error :=
  match Dial dsn with
  | inr err => inr err
  | inl c => inl (mkConn c)
  end.

Definition sendRequest (c : Socket) (request : Message) : Socket * option error :=
  match Marshal request with
  | inr err => (c, Some err)
  | inl data => writeFrame c data
  end.

Definition readQueryResponse (c : Socket) : Socket * (QueryResponse + error) :=
  match readFrame c with
  | (c', _, inr err) => (c', inr err)
  | (c', _, inl data) =>
      match Unmarshal_QueryResponse data with
      | (_, Some err) => (c', inr err)
      | (response, None) => (c', inl response)
      end
  end.

Definition readExecResponse (c : Socket) : Socket * (ExecResponse + error) :=
  match readFrame c with
  | (c', _, inr err) => (c', inr err)
  | (c', _, inl data) =>
      match Unmarshal_ExecResponse data with
      | (_, Some err) => (c', inr err)
      | (response, None) => (c', inl response)
      end
  end.

Definition Stmt_Query (c : Conn) (s : Stmt) (args : list Value)
  : Conn * (Rows + error) :=
  let request := mkQueryRequest (query s) args in
  match sendRequest (conn c) (MQueryRequest request) with
  | (c1, Some err) => (mkConn c1, inr err)
  | (c1, None) =>
      match readQueryResponse c1 with
      | (c2, inr err) => (mkConn c2, inr err)
      | (c2, inl response) =>
          (mkConn c2, inl (mkRows (Columns response) (Data response) 0))
      end
  end.

Definition Stmt_Exec (c : Conn) (s : Stmt) (args : list Value)
  : Conn * (Result + error) :=
  let request := mkExecRequest (query s) args in
  match sendRequest (conn c) (MExecRequest request) with
  | (c1, Some err) => (mkConn c1, inr err)
  | (c1, None) =>
      match readExecResponse c1 with
      | (c2, inr err) => (mkConn c2, inr err)
      | (c2, inl response) =>
          (mkConn c2, inl (mkResult (LastInsertID response) (RowsAffected response)))
      end
  end.

(** *** One call as a sequence of socket operations

    [Stmt.Query] touches the socket four times: two writes in
    [sendRequest], two [io.ReadFull] in [readQueryResponse]. [Call] is the
    point a call has reached, [step] performs its next socket operation.
    The adapter takes no lock, so when two goroutines call into one
    connection any merge of their steps is a possible run. *)

Inductive Call : Type :=
| AtStart (s : Stmt) (args : list Value)
| AtWriteData (payload : bytes)
| AtReadLength
| AtReadData (length : Z)
| Finished (res : Rows + error).

Definition step (c : Socket) (k : Call) : Socket * Call :=
  match k with
  | AtStart s args =>
      match Marshal (MQueryRequest (mkQueryRequest (query s) args)) with
      | inr err => (c, Finished (inr err))
      | inl payload =>
          match sock_Write c (PutUint32 (uint32 (len payload))) with
          | (c1, Some err) => (c1, Finished (inr err))
          | (c1, None) => (c1, AtWriteData payload)
          end
      end
  | AtWriteData payload =>
      match sock_Write c payload with
      | (c1, Some err) => (c1, Finished (inr err))
      | (c1, None) => (c1, AtReadLength)
      end
  | AtReadLength =>
      match ReadFull c 4 with
      | (c1, inr err) => (c1, Finished (inr err))
      | (c1, inl lengthBytes) => (c1, AtReadData (Uint32 lengthBytes))
      end
  | AtReadData length =>
      match ReadFull c length with
      | (c1, inr err) => (c1, Finished (inr err))
      | (c1, inl payload) =>
          match Unmarshal_QueryResponse payload with
          | (_, Some err) => (c1, Finished (inr err))
          | (response, None) =>
              (c1, Finished (inl (mkRows (Columns response) (Data response) 0)))
          end
      end
  | Finished res => (c, Finished res)
  end.

(** A schedule names, turn by turn, the goroutine that runs ([true] the
    first, [false] the second). *)
Fixpoint run (schedule : list bool) (c : Socket) (k1 k2 : Call)
  : Socket * Call * Call :=
  match schedule with
  | [] => (c, k1, k2)
  | true :: rest => let (c', k1') := step c k1 in run rest c' k1' k2
  | false :: rest => let (c', k2') := step c k2 in run rest c' k1 k2'
  end.

End WithEnvironment.
End Driver.

(** ** The msgpack codec (github.com/vmihailenco/msgpack v4.0.4)

    The codec is a dependency of the repository, not part of it. This module
    is an executable model of what it does for the Go types of the four
    messages: the MessagePack families it writes for them and how it reads
    those families back, into a struct or into an [interface{}]. Where the
    model does not follow the decoder (array-shaped structs, skipping unknown
    struct fields, values that decode to Go types outside [Value]), it
    reports an error whose message starts with [not modelled]. Go slices,
    nil or empty, are the empty list; each encoder notes which of the two
    the calling code builds; a [[]byte] cell keeps nil and
    empty apart ([VNilBytes], [VBytes []]). A time is its instant, Unix
    seconds and nanoseconds; the encoder takes a [time.Time] and the decoder
    hands out a [*time.Time] ([VTimePtr]). *)

Module Msgpack.

Definition decoded (A : Type) : Type := (A * bytes + error)%type.

Definition bind {A B : Type} (m : decoded A) (k : A -> bytes -> decoded B)
  : decoded B :=
  match m with
  | inr err => inr err
  | inl (a, rest) => k a rest
  end.

Notation "'let*' ( x , r ) := e 'in' k" :=
  (bind e (fun x r => k))
  (at level 10, x name, r name, e at level 100, k at level 200, only parsing).

(** *** Codes *)

Definition Nil : Z := 0xc0.
Definition False_ : Z := 0xc2.
Definition True_ : Z := 0xc3.
Definition Bin8 : Z := 0xc4.
Definition Bin16 : Z := 0xc5.
Definition Bin32 : Z := 0xc6.
Definition Ext8 : Z := 0xc7.
Definition Ext16 : Z := 0xc8.
Definition Ext32 : Z := 0xc9.
Definition Float : Z := 0xca.
Definition Double : Z := 0xcb.
Definition Uint8 : Z := 0xcc.
Definition Uint16 : Z := 0xcd.
Definition Uint32_ : Z := 0xce.
Definition Uint64 : Z := 0xcf.
Definition Int8 : Z := 0xd0.
Definition Int16 : Z := 0xd1.
Definition Int32 : Z := 0xd2.
Definition Int64 : Z := 0xd3.
Definition FixExt1 : Z := 0xd4.
Definition FixExt2 : Z := 0xd5.
Definition FixExt4 : Z := 0xd6.
Definition FixExt8 : Z := 0xd7.
Definition FixExt16 : Z := 0xd8.
Definition Str8 : Z := 0xd9.
Definition Str16 : Z := 0xda.
Definition Str32 : Z := 0xdb.
Definition Array16 : Z := 0xdc.
Definition Array32 : Z := 0xdd.
Definition Map16 : Z := 0xde.
Definition Map32 : Z := 0xdf.
Definition PosFixedNumHigh : Z := 0x7f.
Definition NegFixedNumLow : Z := 0xe0.
Definition FixedMapLow : Z := 0x80.
Definition FixedMapHigh : Z := 0x8f.
Definition FixedMapMask : Z := 0x0f.
Definition FixedArrayLow : Z := 0x90.
Definition FixedArrayHigh : Z := 0x9f.
Definition FixedArrayMask : Z := 0x0f.
Definition FixedStrLow : Z := 0xa0.
Definition FixedStrHigh : Z := 0xbf.
Definition FixedStrMask : Z := 0x1f.
(** The extension id of [time.Time], [-1] as a byte. *)
Definition timeExtId : Z := 0xff.

Definition IsFixedMap (c : Z) : bool := (FixedMapLow <=? c) && (c <=? FixedMapHigh).
Definition IsFixedArray (c : Z) : bool := (FixedArrayLow <=? c) && (c <=? FixedArrayHigh).
Definition IsFixedString (c : Z) : bool := (FixedStrLow <=? c) && (c <=? FixedStrHigh).

(** Conversions [uint64(n)] and [int64(u)]. *)
Definition uint64 (n : Z) : Z := n mod 2 ^ 64.
Definition int64 (u : Z) : Z :=
  let w := u mod 2 ^ 64 in if w <? 2 ^ 63 then w else w - 2 ^ 64.

(** *** Encoder *)

Definition writeCode (c : Z) : bytes := [byte_of_Z c].
Definition write1 (c n : Z) : bytes := byte_of_Z c :: be_put 1 n.
Definition write2 (c n : Z) : bytes := byte_of_Z c :: be_put 2 n.
Definition write4 (c n : Z) : bytes := byte_of_Z c :: be_put 4 n.
Definition write8 (c n : Z) : bytes := byte_of_Z c :: be_put 8 n.

Definition EncodeNil : bytes := writeCode Nil.

Definition EncodeBool (b : bool) : bytes :=
  if b then writeCode True_ else writeCode False_.

(** Nine bytes, whatever the number: the type of the number is kept. *)
Definition EncodeInt64 (n : Z) : bytes := write8 Int64 (uint64 n).

Definition EncodeFloat64 (bits : Z) : bytes := write8 Double bits.

Definition encodeStrLen (l : Z) : bytes :=
  if l <? 32 then writeCode (Z.lor FixedStrLow l)
  else if l <? 256 then write1 Str8 l
  else if l <? 65536 then write2 Str16 l
  else write4 Str32 l.

Definition EncodeString (s : string) : bytes :=
  let b := list_byte_of_string s in encodeStrLen (len b) ++ b.

Definition EncodeBytesLen (l : Z) : bytes :=
  if l <? 256 then write1 Bin8 l
  else if l <? 65536 then write2 Bin16 l
  else write4 Bin32 l.

(** A non-nil byte slice. *)
Definition EncodeBytes (b : bytes) : bytes := EncodeBytesLen (len b) ++ b.

Definition EncodeArrayLen (l : Z) : bytes :=
  if l <? 16 then writeCode (Z.lor FixedArrayLow l)
  else if l <? 65536 then write2 Array16 l
  else write4 Array32 l.

Definition EncodeMapLen (l : Z) : bytes :=
  if l <? 16 then writeCode (Z.lor FixedMapLow l)
  else if l <? 65536 then write2 Map16 l
  else write4 Map32 l.

Definition encodeExtLen (l : Z) : bytes :=
  if l =? 1 then writeCode FixExt1
  else if l =? 2 then writeCode FixExt2
  else if l =? 4 then writeCode FixExt4
  else if l =? 8 then writeCode FixExt8
  else if l =? 16 then writeCode FixExt16
  else if l <? 256 then write1 Ext8 l
  else if l <? 65536 then write2 Ext16 l
  else write4 Ext32 l.

(** The timestamp body: 4, 8 or 12 bytes. *)
Definition encodeTime (sec nsec : Z) : bytes :=
  let secs := uint64 sec in
  if Z.shiftr secs 34 =? 0 then
    let data := Z.lor (Z.shiftl nsec 34) secs in
    if Z.land data 0xffffffff00000000 =? 0 then be_put 4 data
    else be_put 8 data
  else be_put 4 nsec ++ be_put 8 secs.

Definition EncodeTime (sec nsec : Z) : bytes :=
  let b := encodeTime sec nsec in
  encodeExtLen (len b) ++ [byte_of_Z timeExtId] ++ b.

(** [Encoder.Encode] on a [driver.Value]. *)
Definition EncodeValue (v : Value) : bytes :=
  match v with
  | VNull => EncodeNil
  | VBool b => EncodeBool b
  | VInt64 n => EncodeInt64 n
  | VFloat64 bits => EncodeFloat64 bits
  | VString s => EncodeString s
  | VBytes b => EncodeBytes b
  | VTime sec nsec => EncodeTime sec nsec
  | VNilBytes => EncodeNil                      (* EncodeBytes on a nil slice *)
  | VTimePtr sec nsec => EncodeTime sec nsec    (* a pointer is written as what it points to *)
  end.

(** A non-nil [[]interface{}]: the argument slice database/sql hands to the
    driver, and each row the proxy builds with [make]. *)
Definition EncodeValues (vs : list Value) : bytes :=
  EncodeArrayLen (len vs) ++ flat_map EncodeValue vs.

Definition EncodeStrings (ss : list string) : bytes :=
  EncodeArrayLen (len ss) ++ flat_map EncodeString ss.

(** [results], declared without a value and grown with [append], is nil when
    the query returned no row; a nil slice is written as nil. *)
Definition EncodeRows (rows : list (list Value)) : bytes :=
  match rows with
  | [] => EncodeNil
  | _ => EncodeArrayLen (len rows) ++ flat_map EncodeValues rows
  end.

(** A struct is written as a map from the msgpack tags of its fields, in the
    order of declaration. *)
Definition EncodeRequest (q : string) (args : list Value) : bytes :=
  EncodeMapLen 2
  ++ EncodeString "query" ++ EncodeString q
  ++ EncodeString "args" ++ EncodeValues args.

Definition Marshal (m : Message) : bytes + error :=
  match m with
  | MQueryRequest r => inl (EncodeRequest (qreq_Query r) (qreq_Args r))
  | MExecRequest r => inl (EncodeRequest (ereq_Query r) (ereq_Args r))
  | MQueryResponse r =>
      inl (EncodeMapLen 2
           ++ EncodeString "columns" ++ EncodeStrings (Columns r)
           ++ EncodeString "data" ++ EncodeRows (Data r))
  | MExecResponse r =>
      inl (EncodeMapLen 2
           ++ EncodeString "rows_affected" ++ EncodeInt64 (RowsAffected r)
           ++ EncodeString "last_insert_id" ++ EncodeInt64 (LastInsertID r))
  end.

(** The [driver.Value]s the encoder can be given: the ranges of the Go
    types, and lengths that fit the 32-bit length fields of the format. A
    [*time.Time] is no [driver.Value]: database/sql hands none to a driver
    and [Scan] into an [interface{}] yields none. *)
Definition wf_value (v : Value) : Prop :=
  match v with
  | VNull => True
  | VBool _ => True
  | VInt64 n => - 2 ^ 63 <= n < 2 ^ 63
  | VFloat64 bits => 0 <= bits < 2 ^ 64
  | VString s => len (list_byte_of_string s) < 2 ^ 32
  | VBytes b => len b < 2 ^ 32
  | VTime sec nsec => - 2 ^ 63 <= sec < 2 ^ 63 /\ 0 <= nsec < 10 ^ 9
  | VNilBytes => True
  | VTimePtr _ _ => False
  end.

(** What the peer holds once [DecodeInterface] has read the encoding of
    [v]: the value itself, except that a time is decoded into a new
    [*time.Time] and that a nil byte slice, written as nil, is read as
    nil. *)
Definition received (v : Value) : Value :=
  match v with
  | VTime sec nsec => VTimePtr sec nsec
  | VNilBytes => VNull
  | _ => v
  end.

(** A request the driver can send: a query text and an argument list
    whose lengths fit the length fields, and arguments in range. *)
Definition wf_request (q : string) (args : list Value) : Prop :=
  len (list_byte_of_string q) < 2 ^ 32 /\
  len args < 2 ^ 32 /\
  Forall wf_value args.

(** *** Decoder *)

Definition notModelled (what : string) : error :=
  ErrCodec ("not modelled: " ++ what).

Definition readCode (bs : bytes) : decoded Z :=
  match bs with
  | [] => inr EOF
  | c :: rest => inl (byte_to_Z c, rest)
  end.

Definition readN (n : Z) (bs : bytes) : decoded bytes :=
  if len bs <? n then
    inr (match bs with [] => EOF | _ => ErrUnexpectedEOF end)
  else inl (firstn (Z.to_nat n) bs, skipn (Z.to_nat n) bs).

(** [d.uint8()], [d.uint16()], [d.uint32()], [d.uint64()]. *)
Definition readUint (width : nat) (bs : bytes) : decoded Z :=
  let* (b, rest) := readN (Z.of_nat width) bs in
  inl (be_get b, rest).

(** Sign extension of a [width]-byte integer. *)
Definition signed (width : nat) (u : Z) : Z :=
  if u <? 2 ^ (8 * Z.of_nat width - 1) then u else u - 2 ^ (8 * Z.of_nat width).

Definition bytesLen (c : Z) (bs : bytes) : decoded Z :=
  if c =? Nil then inl (-1, bs)
  else if IsFixedString c then inl (Z.land c FixedStrMask, bs)
  else if (c =? Str8) || (c =? Bin8) then readUint 1 bs
  else if (c =? Str16) || (c =? Bin16) then readUint 2 bs
  else if (c =? Str32) || (c =? Bin32) then readUint 4 bs
  else inr (ErrCodec "invalid code decoding bytes length").

Definition arrayLen (c : Z) (bs : bytes) : decoded Z :=
  if c =? Nil then inl (-1, bs)
  else if IsFixedArray c then inl (Z.land c FixedArrayMask, bs)
  else if c =? Array16 then readUint 2 bs
  else if c =? Array32 then readUint 4 bs
  else inr (ErrCodec "invalid code decoding array length").

Definition mapLen (c : Z) (bs : bytes) : decoded Z :=
  if c =? Nil then inl (-1, bs)
  else if IsFixedMap c then inl (Z.land c FixedMapMask, bs)
  else if c =? Map16 then readUint 2 bs
  else if c =? Map32 then readUint 4 bs
  else inr (ErrCodec "invalid code decoding map length").

Definition parseExtLen (c : Z) (bs : bytes) : decoded Z :=
  if c =? FixExt1 then inl (1, bs)
  else if c =? FixExt2 then inl (2, bs)
  else if c =? FixExt4 then inl (4, bs)
  else if c =? FixExt8 then inl (8, bs)
  else if c =? FixExt16 then inl (16, bs)
  else if c =? Ext8 then readUint 1 bs
  else if c =? Ext16 then readUint 2 bs
  else if c =? Ext32 then readUint 4 bs
  else inr (ErrCodec "invalid code decoding ext length").

(** The body of a string or byte slice whose code has been read. *)
Definition readBody (c : Z) (bs : bytes) : decoded bytes :=
  let* (n, rest) := bytesLen c bs in
  if n <=? 0 then inl ([], rest) else readN n rest.

Definition DecodeString (bs : bytes) : decoded string :=
  let* (c, rest) := readCode bs in
  let* (b, rest') := readBody c rest in
  inl (string_of_list_byte b, rest').

(** [time.Unix(sec, nsec)] with [nsec >= 0]: whole seconds in [nsec] are
    carried into [sec]. [extInterface] decodes into [reflect.New] of the
    registered type [time.Time] and returns that pointer. *)
Definition timeUnix (sec nsec : Z) : Value :=
  VTimePtr (int64 (sec + nsec / 10 ^ 9)) (nsec mod 10 ^ 9).

Definition decodeTime (extLen : Z) (bs : bytes) : decoded Value :=
  let* (b, rest) := readN extLen bs in
  if len b =? 4 then inl (timeUnix (be_get b) 0, rest)
  else if len b =? 8 then
    let sec := be_get b in
    let nsec := Z.shiftr sec 34 in
    inl (timeUnix (Z.land sec 0x00000003ffffffff) nsec, rest)
  else if len b =? 12 then
    let nsec := be_get (firstn 4 b) in
    let sec := be_get (skipn 4 b) in
    inl (timeUnix (int64 sec) nsec, rest)
  else inr (ErrCodec "invalid ext len decoding time").

Definition extInterface (c : Z) (bs : bytes) : decoded Value :=
  let* (extLen, rest) := parseExtLen c bs in
  let* (extId, rest') := readCode rest in
  if extId =? timeExtId then decodeTime extLen rest'
  else inr (ErrCodec "unknown ext id").

(** [Decoder.DecodeInterface]. Numbers of the other widths, [float32],
    arrays and maps decode to Go values that are no [driver.Value]; the model
    stops on them. *)
Definition DecodeInterface (bs : bytes) : decoded Value :=
  let* (c, rest) := readCode bs in
  if c =? Nil then inl (VNull, rest)
  else if c =? False_ then inl (VBool false, rest)
  else if c =? True_ then inl (VBool true, rest)
  else if c =? Double then
    let* (u, rest') := readUint 8 rest in inl (VFloat64 u, rest')
  else if c =? Int64 then
    let* (u, rest') := readUint 8 rest in inl (VInt64 (int64 u), rest')
  else if IsFixedString c || (c =? Str8) || (c =? Str16) || (c =? Str32) then
    let* (b, rest') := readBody c rest in inl (VString (string_of_list_byte b), rest')
  else if (c =? Bin8) || (c =? Bin16) || (c =? Bin32) then
    let* (b, rest') := readBody c rest in inl (VBytes b, rest')
  else if (FixExt1 <=? c) && (c <=? FixExt16) || (Ext8 <=? c) && (c <=? Ext32) then
    extInterface c rest
  else if (c <=? PosFixedNumHigh) || (NegFixedNumLow <=? c)
          || (Float <=? c) && (c <=? Int32)
          || IsFixedArray c || IsFixedMap c
          || (Array16 <=? c) && (c <=? Map32) then
    inr (notModelled "a value that is no driver.Value")
  else inr (ErrCodec "unknown code decoding interface{}").

(** [Decoder.DecodeInt64]: any integer code. *)
Definition DecodeInt64 (bs : bytes) : decoded Z :=
  let* (c, rest) := readCode bs in
  if c =? Nil then inl (0, rest)
  else if c <=? PosFixedNumHigh then inl (c, rest)
  else if NegFixedNumLow <=? c then inl (signed 1 c, rest)
  else if c =? Uint8 then readUint 1 rest
  else if c =? Uint16 then readUint 2 rest
  else if c =? Uint32_ then readUint 4 rest
  else if c =? Uint64 then let* (u, r) := readUint 8 rest in inl (int64 u, r)
  else if c =? Int8 then let* (u, r) := readUint 1 rest in inl (signed 1 u, r)
  else if c =? Int16 then let* (u, r) := readUint 2 rest in inl (signed 2 u, r)
  else if c =? Int32 then let* (u, r) := readUint 4 rest in inl (signed 4 u, r)
  else if c =? Int64 then let* (u, r) := readUint 8 rest in inl (int64 u, r)
  else inr (ErrCodec "invalid code decoding int64").

(** [k] elements in a row. The elements read before an error are kept: the
    caller's struct holds them when [Unmarshal] fails. *)
Fixpoint decodeElems {A : Type} (elem : bytes -> decoded A) (k : nat) (bs : bytes)
  : list A * (bytes + error) :=
  match k with
  | O => ([], inl bs)
  | S k' =>
      match elem bs with
      | inr err => ([], inr err)
      | inl (a, rest) =>
          let (l, res) := decodeElems elem k' rest in (a :: l, res)
      end
  end.

(** A slice of [n] elements. Every element takes at least one byte, so a
    count above the number of bytes left ends in [EOF] once they are used. *)
Definition decodeSlice {A : Type} (elem : bytes -> decoded A) (bs : bytes)
  : list A * (bytes + error) :=
  match (let* (c, rest) := readCode bs in arrayLen c rest) with
  | inr err => ([], inr err)
  | inl (n, rest) =>
      if n <=? 0 then ([], inl rest)
      else if len rest <? n then
        match decodeElems elem (List.length rest) rest with
        | (l, inl _) => (l, inr EOF)
        | (l, inr err) => (l, inr err)
        end
      else decodeElems elem (Z.to_nat n) rest
  end.

(** A slice as one decoding step, for slices of slices. *)
Definition decodeSliceElem {A : Type} (elem : bytes -> decoded A) (bs : bytes)
  : decoded (list A) :=
  match decodeSlice elem bs with
  | (l, inl rest) => inl (l, rest)
  | (_, inr err) => inr err
  end.

Section Struct.
Context {T : Type}.
(** [field name v bs]: decode the value of the field tagged [name] into
    the struct [v]. *)
Variable field : string -> T -> bytes -> T * (bytes + error).

Fixpoint decodeFields (k : nat) (v : T) (bs : bytes) : T * (bytes + error) :=
  match k with
  | O => (v, inl bs)
  | S k' =>
      match DecodeString bs with
      | inr err => (v, inr err)
      | inl (name, rest) =>
          match field name v rest with
          | (v', inr err) => (v', inr err)
          | (v', inl rest') => decodeFields k' v' rest'
          end
      end
  end.

(** [msgpack.Unmarshal(data, &v)] for a struct [v] that starts as [zero]:
    the struct as left by the decoder, and the error. Bytes after the
    value are not looked at. *)
Definition Unmarshal (zero : T) (data : bytes) : T * option error :=
  match readCode data with
  | inr err => (zero, Some err)
  | inl (c, rest) =>
      if IsFixedArray c || (c =? Array16) || (c =? Array32) then
        (zero, Some (notModelled "a struct written as an array"))
      else
        match mapLen c rest with
        | inr err => (zero, Some err)
        | inl (n, rest') =>
            let k := if len rest' <? n then S (List.length rest') else Z.to_nat n in
            match decodeFields k zero rest' with
            | (v, inr err) => (v, Some err)
            | (v, inl _) => (v, None)
            end
        end
  end.
End Struct.

Definition skipField {T : Type} (v : T) : T * (bytes + error) :=
  (v, inr (notModelled "skipping an unknown struct field")).

Definition intoField {T A : Type} (set : A -> T) (v : T) (r : decoded A)
  : T * (bytes + error) :=
  match r with
  | inr err => (v, inr err)
  | inl (a, rest) => (set a, inl rest)
  end.

Definition QueryRequest_field (name : string) (v : QueryRequest) (bs : bytes)
  : QueryRequest * (bytes + error) :=
  if String.eqb name "query" then
    intoField (fun q => mkQueryRequest q (qreq_Args v)) v (DecodeString bs)
  else if String.eqb name "args" then
    let (l, res) := decodeSlice DecodeInterface bs in
    (mkQueryRequest (qreq_Query v) l, res)
  else skipField v.

Definition ExecRequest_field (name : string) (v : ExecRequest) (bs : bytes)
  : ExecRequest * (bytes + error) :=
  if String.eqb name "query" then
    intoField (fun q => mkExecRequest q (ereq_Args v)) v (DecodeString bs)
  else if String.eqb name "args" then
    let (l, res) := decodeSlice DecodeInterface bs in
    (mkExecRequest (ereq_Query v) l, res)
  else skipField v.

Definition QueryResponse_field (name : string) (v : QueryResponse) (bs : bytes)
  : QueryResponse * (bytes + error) :=
  if String.eqb name "columns" then
    let (l, res) := decodeSlice DecodeString bs in
    (mkQueryResponse l (Data v), res)
  else if String.eqb name "data" then
    let (l, res) := decodeSlice (decodeSliceElem DecodeInterface) bs in
    (mkQueryResponse (Columns v) l, res)
  else skipField v.

Definition ExecResponse_field (name : string) (v : ExecResponse) (bs : bytes)
  : ExecResponse * (bytes + error) :=
  if String.eqb name "rows_affected" then
    intoField (fun n => mkExecResponse n (LastInsertID v)) v (DecodeInt64 bs)
  else if String.eqb name "last_insert_id" then
    intoField (fun n => mkExecResponse (RowsAffected v) n) v (DecodeInt64 bs)
  else skipField v.

Definition Unmarshal_QueryRequest : bytes -> QueryRequest * option error :=
  Unmarshal QueryRequest_field (mkQueryRequest "" []).
Definition Unmarshal_ExecRequest : bytes -> ExecRequest * option error :=
  Unmarshal ExecRequest_field (mkExecRequest "" []).
Definition Unmarshal_QueryResponse : bytes -> QueryResponse * option error :=
  Unmarshal QueryResponse_field (mkQueryResponse [] []).
Definition Unmarshal_ExecResponse : bytes -> ExecResponse * option error :=
  Unmarshal ExecResponse_field (mkExecResponse 0 0).

End Msgpack.

(** ** Go's strings package on ASCII text

    [TrimSpace], [Fields] and [ToUpper] as they act on a string of ASCII
    characters: white space is tab, line feed, vertical tab, form feed,
    carriage return and space; only the letters a-z change case. *)

Module AsciiStrings.

Definition isSpace (a : ascii) : bool :=
  let n := nat_of_ascii a in
  ((9 <=? n) && (n <=? 13) || (n =? 32))%nat.

Fixpoint trimLeft (s : list ascii) : list ascii :=
  match s with
  | a :: rest => if isSpace a then trimLeft rest else s
  | [] => []
  end.

Definition TrimSpace (s : string) : string :=
  string_of_list_ascii
    (rev (trimLeft (rev (trimLeft (list_ascii_of_string s))))).

(** [word] is the field being read, in reverse. *)
Fixpoint fields (word : list ascii) (s : list ascii) : list string :=
  match s with
  | [] =>
      match word with
      | [] => []
      | _ => [string_of_list_ascii (rev word)]
      end
  | a :: rest =>
      if isSpace a then
        match word with
        | [] => fields [] rest
        | _ => string_of_list_ascii (rev word) :: fields [] rest
        end
      else fields (a :: word) rest
  end.

Definition Fields (s : string) : list string := fields [] (list_ascii_of_string s).

Definition upper (a : ascii) : ascii :=
  let n := nat_of_ascii a in
  if ((97 <=? n) && (n <=? 122))%nat then ascii_of_nat (n - 32) else a.

Definition ToUpper (s : string) : string :=
  string_of_list_ascii (map upper (list_ascii_of_string s)).

End AsciiStrings.

(** ** What the specification asks of the protocol

    Stated from the specification, to be compared with the code. *)

Module Spec.

(** An explicit opcode in the first byte of the payload. *)
Inductive Routing : Type :=
| ToQuery
| ToExec
| UnknownOpcode.       (* ProtocolError(UnknownOpcode) *)

Definition classify (payload : bytes) : Routing :=
  match payload with
  | Byte.x01 :: _ => ToQuery
  | Byte.x02 :: _ => ToExec
  | _ => UnknownOpcode
  end.

(** A maximum frame size: a declared length above it fails before any
    buffer is made or any payload byte is read. *)
Inductive FrameError : Type :=
| FrameTooLarge
| IncompleteFrame.

Definition readFrame (maxFrame : Z) (c : Socket)
  : Socket * list Z * (bytes + FrameError) :=
  match ReadFull c 4 with
  | (c1, inr _) => (c1, [], inr IncompleteFrame)
  | (c1, inl lengthBytes) =>
      let length := Uint32 lengthBytes in
      if maxFrame <? length then (c1, [], inr FrameTooLarge)
      else
        match ReadFull c1 length with
        | (c2, inr _) => (c2, [length], inr IncompleteFrame)
        | (c2, inl payload) => (c2, [length], inl payload)
        end
  end.

(** 64 MiB, the default the specification suggests. *)
Definition defaultMaxFrame : Z := 64 * 1024 * 1024.


End Spec.

(** ** A fake backing engine

    One table [users(id, name)] and the three statements of the scenarios of
    the specification; [INSERT] of an id already present is a constraint
    violation, any other text a syntax error. *)

Module FakeEngine.

Definition DB : Type := list (Z * string).

Definition users : DB := [(1, "Alice"%string); (2, "Bob"%string)].

Definition db_Query (d : DB) (q : string) (args : list Value)
  : DB * (SqlRows + error) :=
  if String.eqb q "SELECT id, name FROM users" then
    (d, inl (mkSqlRows (inl ["id"%string; "name"%string])
               (map (fun u => [VInt64 (fst u); VString (snd u)]) d)))
  else (d, inr (ErrEngine "syntax error")).

Definition db_Exec (d : DB) (q : string) (args : list Value)
  : DB * (SqlResult + error) :=
  if String.eqb q "UPDATE users SET name=? WHERE id=?" then
    match args with
    | [VString name; VInt64 id] =>
        (map (fun u => if fst u =? id then (id, name) else u) d,
         inl (mkSqlResult
                (len (filter (fun u => fst u =? id) d), None)
                (0, Some (ErrEngine "LastInsertId is not supported"))))
    | _ => (d, inr (ErrEngine "wrong number of arguments"))
    end
  else if String.eqb q "INSERT INTO users (id, name) VALUES (?, ?)" then
    match args with
    | [VInt64 id; VString name] =>
        if existsb (fun u => fst u =? id) d
        then (d, inr (ErrEngine "UNIQUE constraint failed: users.id"))
        else (d ++ [(id, name)], inl (mkSqlResult (1, None) (id, None)))
    | _ => (d, inr (ErrEngine "wrong number of arguments"))
    end
  else (d, inr (ErrEngine "syntax error")).

(** The payloads of four requests, as the driver encodes them. *)
Definition select_users : bytes :=
  Msgpack.EncodeRequest "SELECT id, name FROM users" [].
Definition update_bob : bytes :=
  Msgpack.EncodeRequest "UPDATE users SET name=? WHERE id=?"
    [VString "Bob"; VInt64 1].
Definition insert_again : bytes :=
  Msgpack.EncodeRequest "INSERT INTO users (id, name) VALUES (?, ?)"
    [VInt64 1; VString "Eve"].

Definition select_nowhere : bytes :=
  Msgpack.EncodeRequest "select * from nowhere" [].

(** A server on a fresh connection whose peer sends [input] and closes. *)
Definition server (input : bytes) : Server DB :=
  mkServer (mkSocket input [] true false) users [].

Definition proxy : Server DB -> Server DB * Exit :=
  Proxy.handleConnection db_Query db_Exec
    Msgpack.Unmarshal_QueryRequest Msgpack.Unmarshal_ExecRequest Msgpack.Marshal.

Definition queryservice : Server DB -> Server DB * Exit :=
  QueryService.handleConnection db_Query db_Exec
    Msgpack.Unmarshal_QueryRequest Msgpack.Unmarshal_ExecRequest Msgpack.Marshal
    AsciiStrings.TrimSpace AsciiStrings.Fields AsciiStrings.ToUpper.

End FakeEngine.

(** ** Well-formed responses and blank query texts *)

(** A string whose length fits the 32-bit length field of the codec. *)
Definition wf_string (s : string) : Prop := len (list_byte_of_string s) < 2 ^ 32.

(** A row of [ncols] values the codec can carry. *)
Definition wf_row (ncols : nat) (row : list Value) : Prop :=
  List.length row = ncols /\ len row < 2 ^ 32 /\ Forall Msgpack.wf_value row.

(** The result of a query as the proxy marshals it: column names and rows as
    wide as the columns. *)
Definition wf_result_set (cols : list string) (rows : list (list Value)) : Prop :=
  len cols < 2 ^ 32 /\ Forall wf_string cols /\
  len rows < 2 ^ 32 /\ Forall (wf_row (List.length cols)) rows.

(** A Go [int64]. *)
Definition is_int64 (n : Z) : Prop := - 2 ^ 63 <= n < 2 ^ 63.

(** A text made of ASCII white space only, the empty text included. *)
Definition blank (s : string) : Prop :=
  forallb AsciiStrings.isSpace (list_ascii_of_string s) = true.

(** Text of ASCII characters only; on it Go's [strings.TrimSpace],
    [strings.Fields] and [strings.ToUpper] are the functions of
    [AsciiStrings]. *)
Definition ascii_text (s : string) : Prop :=
  forallb (fun a => (nat_of_ascii a <? 128)%nat) (list_ascii_of_string s) = true.

(** A first byte with which the codec starts to read a struct: nil, a map or
    an array. *)
Definition opens_struct (c : Z) : bool :=
  (c =? Msgpack.Nil) || Msgpack.IsFixedMap c || (c =? Msgpack.Map16)
  || (c =? Msgpack.Map32) || Msgpack.IsFixedArray c
  || (c =? Msgpack.Array16) || (c =? Msgpack.Array32).

(** The calls of [db.Query] and [db.Exec] in a trace. *)
Fixpoint engine_calls (t : list Event) : nat :=
  match t with
  | [] => 0
  | EvQuery _ _ :: t' => S (engine_calls t')
  | EvExec _ _ :: t' => S (engine_calls t')
  | _ :: t' => engine_calls t'
  end.

(** From [s] to [s'] the server wrote whole frames only, at most one for
    each call of the engine it made. *)
Definition wrote_frames {DB} (s s' : Server DB) : Prop :=
  exists (replies : list bytes) (more : list Event),
    outbuf (conn s') = outbuf (conn s) ++ List.concat (map frame replies) /\
    trace s' = trace s ++ more /\
    (List.length replies <= engine_calls more)%nat.
(** ** Arithmetic of bytes and big-endian integers *)

Lemma byte_to_Z_range (b : byte) : 0 <= byte_to_Z b < 256.
Proof.
  unfold byte_to_Z. pose proof (Byte.to_N_bounded b). lia.
Qed.

Lemma byte_to_of_Z (z : Z) : byte_to_Z (byte_of_Z z) = z mod 256.
Proof.
  unfold byte_of_Z, byte_to_Z.
  pose proof (Z.mod_pos_bound z 256 eq_refl) as Hm.
  destruct (Byte.of_N (Z.to_N (z mod 256))) as [b|] eqn:E.
  - apply Byte.to_of_N in E. rewrite E. lia.
  - apply Byte.of_N_None_iff in E. lia.
Qed.

Lemma byte_of_to_Z (b : byte) : byte_of_Z (byte_to_Z b) = b.
Proof.
  unfold byte_of_Z.
  rewrite Z.mod_small by apply byte_to_Z_range.
  unfold byte_to_Z. rewrite N2Z.id, Byte.of_to_N. reflexivity.
Qed.

Lemma shift_or (a b k : Z) :
  0 <= k -> 0 <= b < 2 ^ k -> Z.lor (Z.shiftl a k) b = a * 2 ^ k + b.
Proof.
  intros Hk Hb.
  assert (Hdisj : Z.land (Z.shiftl a k) b = 0).
  { apply Z.bits_inj'. intros i Hi.
    rewrite Z.land_spec, Z.bits_0.
    destruct (Z.ltb_spec i k) as [Hlo|Hhi].
    - rewrite Z.shiftl_spec_low by lia. reflexivity.
    - destruct (Z.eq_dec b 0) as [->|Hnz].
      + rewrite Z.bits_0. apply andb_false_r.
      + rewrite (Z.bits_above_log2 b i), andb_false_r; try lia.
        apply Z.lt_le_trans with k; [|exact Hhi].
        apply Z.log2_lt_pow2; lia. }
  rewrite <- Z.lxor_lor, <- Z.add_nocarry_lxor by exact Hdisj.
  rewrite Z.shiftl_mul_pow2 by lia. reflexivity.
Qed.

Lemma shift_or_byte (a b : Z) :
  0 <= b < 256 -> Z.lor (Z.shiftl a 8) b = a * 256 + b.
Proof. intros Hb. apply (shift_or a b 8); lia. Qed.

Lemma be_put_length (n : nat) (v : Z) : List.length (be_put n v) = n.
Proof. induction n; simpl; congruence. Qed.

Lemma be_get_from_put (n : nat) (v acc : Z) :
  be_get_from acc (be_put n v) = acc * 2 ^ (8 * Z.of_nat n) + v mod 2 ^ (8 * Z.of_nat n).
Proof.
  revert acc. induction n as [|k IH]; intros acc.
  - simpl. rewrite Z.mod_1_r. lia.
  - cbn [be_put be_get_from].
    rewrite shift_or_byte by apply byte_to_Z_range.
    rewrite IH, byte_to_of_Z, Z.shiftr_div_pow2 by lia.
    replace (8 * Z.of_nat (S k)) with (8 * Z.of_nat k + 8) by lia.
    rewrite Z.pow_add_r by lia.
    change (2 ^ 8) with 256.
    rewrite (Z.rem_mul_r v (2 ^ (8 * Z.of_nat k)) 256) by lia.
    lia.
Qed.

Lemma be_get_put (n : nat) (v : Z) :
  be_get (be_put n v) = v mod 2 ^ (8 * Z.of_nat n).
Proof. unfold be_get. rewrite be_get_from_put. lia. Qed.

Lemma Uint32_PutUint32 (v : Z) : 0 <= v < 2 ^ 32 -> Uint32 (PutUint32 v) = v.
Proof.
  intros Hv. unfold Uint32, PutUint32. rewrite be_get_put.
  change (8 * Z.of_nat 4) with 32. apply Z.mod_small; exact Hv.
Qed.


(** ** Sockets and frames *)

Lemma len_nonneg {A : Type} (l : list A) : 0 <= len l.
Proof. unfold len. lia. Qed.

Lemma len_app {A : Type} (l1 l2 : list A) : len (l1 ++ l2) = len l1 + len l2.
Proof. unfold len. rewrite length_app. lia. Qed.

Lemma set_inbuf_same (c : Socket) : set_inbuf c (inbuf c) = c.
Proof. destruct c; reflexivity. Qed.

Lemma firstn_exact {A : Type} (p rest : list A) :
  firstn (List.length p) (p ++ rest) = p.
Proof. induction p; simpl; congruence. Qed.

Lemma skipn_exact {A : Type} (p rest : list A) :
  skipn (List.length p) (p ++ rest) = rest.
Proof. induction p; simpl; congruence. Qed.

(** Reading [n] bytes that are there. *)
Lemma ReadFull_enough (c : Socket) (p rest : bytes) :
  closed c = false -> inbuf c = p ++ rest ->
  ReadFull c (len p) = (set_inbuf c rest, inl p).
Proof.
  intros Hopen Hin. unfold ReadFull.
  destruct (Z.leb_spec (len p) 0) as [Hz|Hpos].
  - assert (p = []) as -> by (destruct p; [reflexivity | unfold len in Hz; simpl in Hz; lia]).
    simpl in Hin. rewrite <- Hin, set_inbuf_same. reflexivity.
  - rewrite Hopen, Hin, len_app.
    pose proof (len_nonneg rest).
    destruct (Z.ltb_spec (len p + len rest) (len p)); [lia|].
    unfold len. rewrite Nat2Z.id, firstn_exact, skipn_exact; reflexivity.
Qed.

(** Reading [n] bytes from a shorter stream. *)
Lemma ReadFull_short (c : Socket) (n : Z) :
  closed c = false -> len (inbuf c) < n ->
  ReadFull c n =
  (set_inbuf c [], inr (match inbuf c with [] => EOF | _ => ErrUnexpectedEOF end)).
Proof.
  intros Hopen Hlt. unfold ReadFull.
  pose proof (len_nonneg (inbuf c)).
  destruct (Z.leb_spec n 0); [lia|].
  rewrite Hopen.
  destruct (Z.ltb_spec (len (inbuf c)) n); [reflexivity | lia].
Qed.

(** What [readFrame] does with a header that declares [L] bytes. *)
Lemma readFrame_header (c : Socket) (L : Z) (rest : bytes) :
  closed c = false -> 0 <= L < 2 ^ 32 -> inbuf c = PutUint32 L ++ rest ->
  readFrame c =
  let '(c', res) := ReadFull (set_inbuf c rest) L in (c', [L], res).
Proof.
  intros Hopen HL Hin. unfold readFrame.
  change 4 with (len (PutUint32 L)).
  rewrite (ReadFull_enough c (PutUint32 L) rest Hopen Hin).
  rewrite Uint32_PutUint32 by exact HL.
  destruct (ReadFull (set_inbuf c rest) L) as [c2 [payload|err]]; reflexivity.
Qed.

Lemma uint32_len_small {A : Type} (l : list A) : len l < 2 ^ 32 -> uint32 (len l) = len l.
Proof.
  intros H. unfold uint32. apply Z.mod_small. pose proof (len_nonneg l). lia.
Qed.

Lemma readFrame_frame (c : Socket) (p rest : bytes) :
  closed c = false -> len p < 2 ^ 32 -> inbuf c = frame p ++ rest ->
  readFrame c = (set_inbuf c rest, [len p], inl p).
Proof.
  intros Hopen Hp Hin.
  unfold frame in Hin. rewrite uint32_len_small, <- app_assoc in Hin by exact Hp.
  pose proof (len_nonneg p).
  rewrite (readFrame_header c (len p) (p ++ rest)) by (auto; lia).
  rewrite (ReadFull_enough (set_inbuf c (p ++ rest)) p rest) by auto.
  reflexivity.
Qed.

Lemma writeFrame_ok (c : Socket) (p : bytes) :
  closed c = false -> writable c = true ->
  writeFrame c p =
  (mkSocket (inbuf c) (outbuf c ++ frame p) (writable c) (closed c), None).
Proof.
  intros Hopen Hw. unfold writeFrame, sock_Write, frame.
  rewrite Hopen, Hw. cbn [closed writable outbuf inbuf].
  rewrite <- app_assoc. reflexivity.
Qed.

(** Writing never touches what is still to be read. *)
Lemma writeFrame_inbuf (c : Socket) (p : bytes) :
  inbuf (fst (writeFrame c p)) = inbuf c /\ closed (fst (writeFrame c p)) = closed c.
Proof.
  unfold writeFrame, sock_Write.
  destruct (closed c) eqn:Hc; cbn [fst]; [auto|].
  destruct (writable c) eqn:Hw; cbn [fst closed writable inbuf]; [|auto].
  destruct (writable c); cbn [fst closed inbuf]; auto.
Qed.

(** C5. Frame round trip: a payload of length 0 up to the maximum frame size
    (any maximum the 32-bit length field can hold) is written as its length
    in four big-endian bytes followed by the payload, and reading one frame
    from those bytes gives back exactly the payload, leaving what follows
    unread. The empty payload is included. *)
Theorem frame_round_trip (maxFrame : Z) (p rest : bytes) (w r : Socket) :
  maxFrame <= 2 ^ 32 - 1 ->
  len p <= maxFrame ->
  closed w = false -> writable w = true ->
  closed r = false -> inbuf r = frame p ++ rest ->
  frame p = be_put 4 (len p) ++ p /\
  writeFrame w p =
    (mkSocket (inbuf w) (outbuf w ++ frame p) (writable w) (closed w), None) /\
  readFrame r = (set_inbuf r rest, [len p], inl p).
Proof.
  intros Hmax Hp Hw1 Hw2 Hr Hin. split; [|split].
  - unfold frame, PutUint32. rewrite uint32_len_small by lia. reflexivity.
  - apply writeFrame_ok; assumption.
  - apply readFrame_frame; auto. lia.
Qed.

Lemma frame_round_trip_witness :
  let w := mkSocket [] [] true false in
  let r := mkSocket (frame [] ++ frame [Byte.x2a]) [] true false in
  writeFrame w [] = (mkSocket [] [Byte.x00; Byte.x00; Byte.x00; Byte.x00] true false, None) /\
  readFrame r = (set_inbuf r (frame [Byte.x2a]), [0], inl []).
Proof.
  intros w r.
  destruct (frame_round_trip Spec.defaultMaxFrame [] (frame [Byte.x2a]) w r)
    as (_ & Hw & Hr).
  - vm_compute. discriminate.
  - vm_compute. discriminate.
  - reflexivity.
  - reflexivity.
  - reflexivity.
  - reflexivity.
  - split; [exact Hw | exact Hr].
Defined.

(** ** The per-connection loop on a frame that cannot be completed *)

Section ShortFrame.
Context {DB : Type}.
Variable db_Query : DB -> string -> list Value -> DB * (SqlRows + error).
Variable db_Exec : DB -> string -> list Value -> DB * (SqlResult + error).
Variable Unmarshal_QueryRequest : bytes -> QueryRequest * option error.
Variable Unmarshal_ExecRequest : bytes -> ExecRequest * option error.
Variable Marshal : Message -> bytes + error.
Variable TrimSpace : string -> string.
Variable Fields : string -> list string.
Variable ToUpper : string -> string.

Let proxy := Proxy.handleConnection db_Query db_Exec
               Unmarshal_QueryRequest Unmarshal_ExecRequest Marshal.
Let queryservice := QueryService.handleConnection db_Query db_Exec
               Unmarshal_QueryRequest Unmarshal_ExecRequest Marshal
               TrimSpace Fields ToUpper.

(** C3, as the code has it. There is no maximum frame size: whatever
    length [L] the four header bytes declare, the server makes a buffer of
    exactly [L] bytes and then reads [L] bytes into it. If they are there
    the frame is accepted, whatever its size; if the stream ends before,
    the read fails after the buffer was made, the loop of either entry
    point returns and the connection is closed, with nothing written. *)
Theorem readFrame_any_length (s : Server DB) (L : Z) (rest : bytes) :
  closed (conn s) = false ->
  0 <= L < 2 ^ 32 ->
  inbuf (conn s) = PutUint32 L ++ rest ->
  readFrame (conn s) =
    (if len rest <? L
     then (set_inbuf (conn s) [], [L],
           inr (match rest with [] => EOF | _ => ErrUnexpectedEOF end))
     else (set_inbuf (conn s) (skipn (Z.to_nat L) rest), [L],
           inl (firstn (Z.to_nat L) rest))) /\
  (len rest < L ->
   let s' := mkServer (sock_Close (set_inbuf (conn s) [])) (db s)
               (trace s ++ [EvMake L]) in
   proxy s = (s', Returned) /\ queryservice s = (s', Returned)).
Proof.
  intros Hopen HL Hin.
  assert (Hrf : readFrame (conn s) =
    (if len rest <? L
     then (set_inbuf (conn s) [], [L],
           inr (match rest with [] => EOF | _ => ErrUnexpectedEOF end))
     else (set_inbuf (conn s) (skipn (Z.to_nat L) rest), [L],
           inl (firstn (Z.to_nat L) rest)))).
  { rewrite (readFrame_header (conn s) L rest Hopen HL Hin).
    destruct (Z.ltb_spec (len rest) L) as [Hshort|Hlong].
    - rewrite ReadFull_short by (simpl; auto). reflexivity.
    - pose proof (firstn_skipn (Z.to_nat L) rest) as Hsplit.
      assert (Hlen : len (firstn (Z.to_nat L) rest) = L).
      { unfold len in *. rewrite length_firstn. lia. }
      rewrite <- Hlen at 1.
      rewrite (ReadFull_enough (set_inbuf (conn s) rest)
                 (firstn (Z.to_nat L) rest) (skipn (Z.to_nat L) rest))
        by (simpl; auto).
      reflexivity. }
  split; [exact Hrf|].
  intros Hshort.
  apply Z.ltb_lt in Hshort. rewrite Hshort in Hrf.
  subst proxy queryservice.
  unfold Proxy.handleConnection, QueryService.handleConnection,
    Proxy.serve_fuel, QueryService.serve_fuel.
  cbn [Proxy.serve QueryService.serve]. rewrite Hrf.
  split; reflexivity.
Qed.

End ShortFrame.

Lemma readFrame_any_length_witness :
  let s := FakeEngine.server [Byte.x00; Byte.x00; Byte.x00; Byte.x05; Byte.x2a] in
  readFrame (conn s) = (set_inbuf (conn s) [], [5], inr ErrUnexpectedEOF) /\
  FakeEngine.proxy s =
    (mkServer (mkSocket [] [] true true) FakeEngine.users [EvMake 5], Returned).
Proof.
  intros s.
  destruct (readFrame_any_length FakeEngine.db_Query FakeEngine.db_Exec
              Msgpack.Unmarshal_QueryRequest Msgpack.Unmarshal_ExecRequest
              Msgpack.Marshal AsciiStrings.TrimSpace AsciiStrings.Fields
              AsciiStrings.ToUpper s 5 [Byte.x2a]) as [Hread Hloop].
  - reflexivity.
  - lia.
  - reflexivity.
  - split; [exact Hread|].
    destruct Hloop as [Hp _]; [vm_compute; reflexivity | exact Hp].
Defined.

(** C3, as the specification states it, fails on the code. With the default
    maximum of 64 MiB, a header that declares 2 GiB - 1 bytes and nothing
    after it: the specified reader stops with [FrameTooLarge] before any
    buffer is made; the code makes the 2147483647-byte buffer and then
    reports the end of the stream. With a maximum of 4, a complete 5-byte
    frame is refused by the specified reader and accepted by the code. *)
Lemma no_frame_limit_counterexample :
  let c := mkSocket [Byte.x7f; Byte.xff; Byte.xff; Byte.xff] [] true false in
  let c5 := mkSocket (frame [Byte.x01; Byte.x02; Byte.x03; Byte.x04; Byte.x05])
              [] true false in
  Spec.defaultMaxFrame < 2147483647 /\
  Spec.readFrame Spec.defaultMaxFrame c = (set_inbuf c [], [], inr Spec.FrameTooLarge) /\
  readFrame c = (set_inbuf c [], [2147483647], inr EOF) /\
  Spec.readFrame 4 c5 = (set_inbuf c5 [Byte.x01; Byte.x02; Byte.x03; Byte.x04; Byte.x05],
                         [], inr Spec.FrameTooLarge) /\
  readFrame c5 = (set_inbuf c5 [], [5],
                  inl [Byte.x01; Byte.x02; Byte.x03; Byte.x04; Byte.x05]).
Proof.
  intros c c5. repeat split; vm_compute; reflexivity.
Qed.

(** ** The driver *)

(** C6. [Begin] fails on every connection, with the error "transactions are
    not supported" and no transaction, and the socket is left as it was:
    nothing is written, nothing is read. *)
Theorem Begin_unsupported (c : Driver.Conn) :
  Driver.Begin c = (c, (None, Some (Errorf "transactions are not supported"))) /\
  outbuf (Driver.conn (fst (Driver.Begin c))) = outbuf (Driver.conn c) /\
  inbuf (Driver.conn (fst (Driver.Begin c))) = inbuf (Driver.conn c) /\
  snd (snd (Driver.Begin c)) <> None /\
  fst (snd (Driver.Begin c)) = None.
Proof.
  unfold Driver.Begin. cbn [fst snd]. repeat split. discriminate.
Qed.

Lemma copy_same_length {A : Type} (dst src : list A) :
  List.length dst = List.length src -> Driver.copy dst src = src.
Proof.
  intros H. unfold Driver.copy.
  rewrite H, firstn_all, skipn_all2, app_nil_r by lia. reflexivity.
Qed.

(** One call of [Next] on a cursor at position [k]. *)
Lemma Next_at (cols : list string) (rs : list (list Value)) (k : nat)
      (dest : list Value) :
  Driver.Next (Driver.mkRows cols rs (Z.of_nat k)) dest =
  match nth_error rs k with
  | Some row => (Driver.mkRows cols rs (Z.of_nat (S k)), Driver.copy dest row, Driver.NextNil)
  | None => (Driver.mkRows cols rs (Z.of_nat k), dest, Driver.NextEOF)
  end.
Proof.
  unfold Driver.Next. cbn [Driver.index Driver.data Driver.columns].
  destruct (nth_error rs k) as [row|] eqn:Hnth.
  - assert (Hk : (k < List.length rs)%nat)
      by (apply nth_error_Some; congruence).
    destruct (Z.geb_spec (Z.of_nat k) (len rs)); [unfold len in *; lia|].
    destruct (Z.ltb_spec (Z.of_nat k) 0); [lia|].
    rewrite Nat2Z.id, Hnth.
    replace (Z.of_nat k + 1) with (Z.of_nat (S k)) by lia. reflexivity.
  - apply nth_error_None in Hnth.
    destruct (Z.geb_spec (Z.of_nat k) (len rs)); [reflexivity | unfold len in *; lia].
Qed.

Lemma NextAll_from (cols : list string) (rs : list (list Value))
      (dests : list (list Value)) :
  forall k : nat, (k <= List.length rs)%nat ->
  let run := Driver.NextAll (Driver.mkRows cols rs (Z.of_nat k)) dests in
  fst run = Driver.mkRows cols rs
              (Z.of_nat (Nat.min (k + List.length dests) (List.length rs))) /\
  forall i dest, nth_error dests i = Some dest ->
    nth_error (snd run) i =
    Some (match nth_error rs (k + i) with
          | Some row => (Driver.copy dest row, Driver.NextNil)
          | None => (dest, Driver.NextEOF)
          end).
Proof.
  induction dests as [|d ds IH]; intros k Hk; cbn zeta.
  - cbn [Driver.NextAll fst snd List.length]. split.
    + f_equal. lia.
    + intros i dest Hi. destruct i; discriminate.
  - cbn [Driver.NextAll]. rewrite Next_at.
    destruct (nth_error rs k) as [row|] eqn:Hnth.
    + assert (Hk' : (S k <= List.length rs)%nat).
      { assert (k < List.length rs)%nat by (apply nth_error_Some; congruence). lia. }
      specialize (IH (S k) Hk'). cbn zeta in IH.
      destruct (Driver.NextAll (Driver.mkRows cols rs (Z.of_nat (S k))) ds)
        as [r2 outs].
      cbn [fst snd] in *. destruct IH as [IHr IHo]. split.
      * rewrite IHr. f_equal. cbn [List.length]. lia.
      * intros [|i] dest Hi; cbn [nth_error] in *.
        -- injection Hi as <-. rewrite Nat.add_0_r, Hnth. reflexivity.
        -- rewrite (IHo i dest Hi). replace (k + S i)%nat with (S k + i)%nat by lia.
           reflexivity.
    + pose proof Hnth as Hend. apply nth_error_None in Hend.
      specialize (IH k Hk). cbn zeta in IH.
      destruct (Driver.NextAll (Driver.mkRows cols rs (Z.of_nat k)) ds)
        as [r2 outs].
      cbn [fst snd] in *. destruct IH as [IHr IHo]. split.
      * rewrite IHr. f_equal. cbn [List.length]. lia.
      * intros [|i] dest Hi; cbn [nth_error] in *.
        -- injection Hi as <-. rewrite Nat.add_0_r, Hnth. reflexivity.
        -- rewrite (IHo i dest Hi).
           assert (Hn1 : nth_error rs (k + i) = None) by (apply nth_error_None; lia).
           assert (Hn2 : nth_error rs (k + S i) = None) by (apply nth_error_None; lia).
           rewrite Hn1, Hn2. reflexivity.
Qed.

(** C7. A cursor built from a response with rows [rs] (each as wide as the
    columns, as are the destination slices database/sql passes): the i-th
    call of [Next] succeeds and hands back [rs[i]], in the original order;
    every call after the last row returns [io.EOF], leaves its destination
    untouched, and leaves the cursor as it was, however often it is made. *)
Theorem cursor_order_and_exhaustion (response : QueryResponse)
        (dests : list (list Value)) :
  Forall (fun row => List.length row = List.length (Columns response)) (Data response) ->
  Forall (fun dest => List.length dest = List.length (Columns response)) dests ->
  let rs := Data response in
  let cursor := Driver.mkRows (Columns response) rs 0 in
  let run := Driver.NextAll cursor dests in
  (forall i dest, nth_error dests i = Some dest ->
     nth_error (snd run) i =
     Some (match nth_error rs i with
           | Some row => (row, Driver.NextNil)
           | None => (dest, Driver.NextEOF)
           end)) /\
  fst run = Driver.mkRows (Columns response) rs (Z.min (len dests) (len rs)) /\
  (forall exhausted dest,
     Driver.index exhausted = len (Driver.data exhausted) ->
     Driver.Next exhausted dest = (exhausted, dest, Driver.NextEOF)).
Proof.
  intros Hrows Hdests rs cursor run.
  destruct (NextAll_from (Columns response) rs dests 0 (Nat.le_0_l _)) as [Hfin Houts].
  cbn zeta in Hfin, Houts. change (Z.of_nat 0) with 0 in Hfin, Houts.
  fold cursor in Hfin, Houts. fold run in Hfin, Houts.
  split; [|split].
  - intros i dest Hi. rewrite (Houts i dest Hi). cbn [Nat.add].
    destruct (nth_error rs i) as [row|] eqn:Hrow; [|reflexivity].
    rewrite copy_same_length; [reflexivity|].
    rewrite Forall_forall in Hrows, Hdests.
    rewrite (Hdests dest (nth_error_In _ _ Hi)), (Hrows row (nth_error_In _ _ Hrow)).
    reflexivity.
  - rewrite Hfin. f_equal. unfold len. cbn [Nat.add]. lia.
  - intros exhausted dest Hidx. unfold Driver.Next. rewrite Hidx.
    destruct (Z.geb_spec (len (Driver.data exhausted)) (len (Driver.data exhausted)));
      [reflexivity | lia].
Qed.

Lemma cursor_order_and_exhaustion_witness :
  let response := mkQueryResponse ["id"%string; "name"%string]
                    [[VInt64 1; VString "Alice"]; [VInt64 2; VString "Bob"]] in
  let blank := [VNull; VNull] in
  let run := Driver.NextAll (Driver.mkRows (Columns response) (Data response) 0)
               [blank; blank; blank; blank] in
  nth_error (snd run) 0 = Some ([VInt64 1; VString "Alice"], Driver.NextNil) /\
  nth_error (snd run) 1 = Some ([VInt64 2; VString "Bob"], Driver.NextNil) /\
  nth_error (snd run) 2 = Some (blank, Driver.NextEOF) /\
  nth_error (snd run) 3 = Some (blank, Driver.NextEOF) /\
  fst run = Driver.mkRows (Columns response) (Data response) 2.
Proof.
  intros response blank run.
  destruct (cursor_order_and_exhaustion response [blank; blank; blank; blank])
    as (Houts & Hfin & _).
  - repeat constructor.
  - repeat constructor.
  - cbn zeta in Houts, Hfin. fold run in Houts, Hfin.
    pose proof (Houts 0%nat blank eq_refl) as H0.
    pose proof (Houts 1%nat blank eq_refl) as H1.
    pose proof (Houts 2%nat blank eq_refl) as H2.
    pose proof (Houts 3%nat blank eq_refl) as H3.
    repeat split; assumption.
Defined.

(** ** The msgpack model: what the encoder writes, the decoder reads back *)

Module MsgpackFacts.
Import Msgpack.

Ltac codes :=
  unfold IsFixedMap, IsFixedArray, IsFixedString,
    Nil, False_, True_, Bin8, Bin16, Bin32, Ext8, Ext16, Ext32, Float, Double,
    Uint8, Uint16, Uint32_, Uint64, Int8, Int16, Int32, Int64,
    FixExt1, FixExt2, FixExt4, FixExt8, FixExt16, Str8, Str16, Str32,
    Array16, Array32, Map16, Map32, PosFixedNumHigh, NegFixedNumLow,
    FixedMapLow, FixedMapHigh, FixedMapMask, FixedArrayLow, FixedArrayHigh,
    FixedArrayMask, FixedStrLow, FixedStrHigh, FixedStrMask, timeExtId in *.

Ltac bool_to_prop :=
  repeat (rewrite ?andb_true_iff, ?orb_true_iff, ?andb_false_iff, ?orb_false_iff,
            ?Z.eqb_eq, ?Z.eqb_neq, ?Z.leb_le, ?Z.leb_gt, ?Z.ltb_lt, ?Z.ltb_ge).

(** Settle the test of a conditional by linear arithmetic. *)
Ltac decide_if :=
  match goal with
  | |- context [if ?t then _ else _] =>
      first [ replace t with true by (symmetry; bool_to_prop; lia)
            | replace t with false by (symmetry; bool_to_prop; lia) ]
  end; cbv iota.

Lemma int64_id (n : Z) : - 2 ^ 63 <= n < 2 ^ 63 -> int64 n = n.
Proof.
  intros Hn. unfold int64.
  destruct (Z.neg_nonneg_cases n) as [Hneg|Hpos].
  - replace (n mod 2 ^ 64) with (n + 2 ^ 64)
      by (apply Z.mod_unique with (-1); lia).
    cbv zeta. decide_if. lia.
  - rewrite Z.mod_small by lia. cbv zeta. decide_if. reflexivity.
Qed.

Lemma int64_uint64 (n : Z) : - 2 ^ 63 <= n < 2 ^ 63 -> int64 (uint64 n) = n.
Proof.
  intros Hn. rewrite <- (int64_id n Hn) at 2.
  unfold int64, uint64. rewrite Z.mod_mod by lia. reflexivity.
Qed.

Lemma uint64_range (n : Z) : 0 <= uint64 n < 2 ^ 64.
Proof. unfold uint64. apply Z.mod_pos_bound. lia. Qed.

Lemma readCode_byte (c : Z) (rest : bytes) :
  0 <= c < 256 -> readCode (byte_of_Z c :: rest) = inl (c, rest).
Proof.
  intros Hc. unfold readCode. rewrite byte_to_of_Z, Z.mod_small by lia. reflexivity.
Qed.

Lemma readN_exact (p rest : bytes) : readN (len p) (p ++ rest) = inl (p, rest).
Proof.
  unfold readN. rewrite len_app. pose proof (len_nonneg rest).
  destruct (Z.ltb_spec (len p + len rest) (len p)); [lia|].
  unfold len. rewrite Nat2Z.id, firstn_exact, skipn_exact. reflexivity.
Qed.

Lemma be_put_len (n : nat) (v : Z) : len (be_put n v) = Z.of_nat n.
Proof. unfold len. rewrite be_put_length. reflexivity. Qed.

Lemma firstn_be_put (n : nat) (v : Z) (l : bytes) :
  firstn n (be_put n v ++ l) = be_put n v /\ skipn n (be_put n v ++ l) = l.
Proof.
  pose proof (firstn_exact (be_put n v) l) as Hf.
  pose proof (skipn_exact (be_put n v) l) as Hs.
  rewrite be_put_length in Hf, Hs. auto.
Qed.

Lemma readN_put (w : nat) (v : Z) (rest : bytes) :
  readN (Z.of_nat w) (be_put w v ++ rest) = inl (be_put w v, rest).
Proof. rewrite <- (be_put_len w v) at 1. apply readN_exact. Qed.

Lemma readUint_put (w : nat) (v : Z) (rest : bytes) :
  0 <= v < 2 ^ (8 * Z.of_nat w) ->
  readUint w (be_put w v ++ rest) = inl (v, rest).
Proof.
  intros Hv. unfold readUint. rewrite readN_put. cbn [bind].
  rewrite be_get_put, Z.mod_small by exact Hv. reflexivity.
Qed.

Lemma readBody_exact (c : Z) (p rest tail : bytes) :
  bytesLen c tail = inl (len p, p ++ rest) ->
  readBody c tail = inl (p, rest).
Proof.
  intros Hlen. unfold readBody. rewrite Hlen. cbn [bind].
  destruct (Z.leb_spec (len p) 0) as [Hz|Hpos].
  - destruct p; [reflexivity | unfold len in Hz; simpl in Hz; lia].
  - apply readN_exact.
Qed.

Lemma lor_FixedStrLow (l : Z) : 0 <= l < 32 -> Z.lor FixedStrLow l = 160 + l.
Proof.
  intros Hl. change FixedStrLow with (Z.shiftl 5 5).
  rewrite shift_or by lia. reflexivity.
Qed.

Lemma lor_FixedArrayLow (l : Z) : 0 <= l < 16 -> Z.lor FixedArrayLow l = 144 + l.
Proof.
  intros Hl. change FixedArrayLow with (Z.shiftl 9 4).
  rewrite shift_or by lia. reflexivity.
Qed.

Lemma lor_FixedMapLow (l : Z) : 0 <= l < 16 -> Z.lor FixedMapLow l = 128 + l.
Proof.
  intros Hl. change FixedMapLow with (Z.shiftl 8 4).
  rewrite shift_or by lia. reflexivity.
Qed.

Lemma land_mask (c k : Z) : 0 <= k -> Z.land c (2 ^ k - 1) = c mod 2 ^ k.
Proof.
  intros Hk. replace (2 ^ k - 1) with (Z.ones k) by (rewrite Z.ones_equiv; lia).
  apply Z.land_ones. exact Hk.
Qed.

Lemma land_low (c l k : Z) :
  0 <= l < 2 ^ k -> 0 <= k -> Z.land (c * 2 ^ k + l) (2 ^ k - 1) = l.
Proof.
  intros Hl Hk. rewrite land_mask by exact Hk.
  symmetry. apply Z.mod_unique with c; lia.
Qed.

(** The header of a string: its code and what follows, and the length read
    back from them. *)
Lemma bytesLen_str (l : Z) (tail : bytes) :
  0 <= l < 2 ^ 32 ->
  exists c hd,
    encodeStrLen l = byte_of_Z c :: hd /\
    (160 <= c <= 191 \/ 217 <= c <= 219) /\
    bytesLen c (hd ++ tail) = inl (l, tail).
Proof.
  intros Hl. unfold encodeStrLen.
  destruct (Z.ltb_spec l 32); [|destruct (Z.ltb_spec l 256); [|destruct (Z.ltb_spec l 65536)]].
  - exists (160 + l), []. rewrite lor_FixedStrLow by lia.
    split; [reflexivity|]. split; [lia|].
    unfold bytesLen. codes. repeat decide_if. cbn [app].
    change 31 with (2 ^ 5 - 1). replace (160 + l) with (5 * 2 ^ 5 + l) by lia.
    rewrite land_low by lia. reflexivity.
  - exists 217, (be_put 1 l). split; [reflexivity|]. split; [lia|].
    unfold bytesLen. codes. repeat decide_if. apply readUint_put. simpl. lia.
  - exists 218, (be_put 2 l). split; [reflexivity|]. split; [lia|].
    unfold bytesLen. codes. repeat decide_if. apply readUint_put. simpl. lia.
  - exists 219, (be_put 4 l). split; [reflexivity|]. split; [lia|].
    unfold bytesLen. codes. repeat decide_if. apply readUint_put. simpl. lia.
Qed.

Lemma bytesLen_bin (l : Z) (tail : bytes) :
  0 <= l < 2 ^ 32 ->
  exists c hd,
    EncodeBytesLen l = byte_of_Z c :: hd /\
    196 <= c <= 198 /\
    bytesLen c (hd ++ tail) = inl (l, tail).
Proof.
  intros Hl. unfold EncodeBytesLen.
  destruct (Z.ltb_spec l 256); [|destruct (Z.ltb_spec l 65536)].
  - exists 196, (be_put 1 l). split; [reflexivity|]. split; [lia|].
    unfold bytesLen. codes. repeat decide_if. apply readUint_put. simpl. lia.
  - exists 197, (be_put 2 l). split; [reflexivity|]. split; [lia|].
    unfold bytesLen. codes. repeat decide_if. apply readUint_put. simpl. lia.
  - exists 198, (be_put 4 l). split; [reflexivity|]. split; [lia|].
    unfold bytesLen. codes. repeat decide_if. apply readUint_put. simpl. lia.
Qed.

Lemma DecodeString_EncodeString (s : string) (rest : bytes) :
  len (list_byte_of_string s) < 2 ^ 32 ->
  DecodeString (EncodeString s ++ rest) = inl (s, rest).
Proof.
  intros Hs. unfold EncodeString. cbv zeta.
  set (b := list_byte_of_string s) in *.
  pose proof (len_nonneg b) as Hb.
  destruct (bytesLen_str (len b) (b ++ rest)) as (c & hd & Henc & Hc & Hlen); [lia|].
  rewrite Henc, <- app_assoc. cbn [app].
  unfold DecodeString. rewrite readCode_byte by lia. cbn [bind].
  rewrite (readBody_exact c b rest) by exact Hlen. cbn [bind].
  subst b. rewrite string_of_list_byte_of_string. reflexivity.
Qed.

Lemma DecodeInterface_code (c : Z) (rest : bytes) :
  0 <= c < 256 ->
  DecodeInterface (byte_of_Z c :: rest) =
  bind (inl (c, rest)) (fun c rest =>
  if c =? Nil then inl (VNull, rest)
  else if c =? False_ then inl (VBool false, rest)
  else if c =? True_ then inl (VBool true, rest)
  else if c =? Double then
    bind (readUint 8 rest) (fun u rest' => inl (VFloat64 u, rest'))
  else if c =? Int64 then
    bind (readUint 8 rest) (fun u rest' => inl (VInt64 (int64 u), rest'))
  else if IsFixedString c || (c =? Str8) || (c =? Str16) || (c =? Str32) then
    bind (readBody c rest) (fun b rest' => inl (VString (string_of_list_byte b), rest'))
  else if (c =? Bin8) || (c =? Bin16) || (c =? Bin32) then
    bind (readBody c rest) (fun b rest' => inl (VBytes b, rest'))
  else if (FixExt1 <=? c) && (c <=? FixExt16) || (Ext8 <=? c) && (c <=? Ext32) then
    extInterface c rest
  else if (c <=? PosFixedNumHigh) || (NegFixedNumLow <=? c)
          || (Float <=? c) && (c <=? Int32)
          || IsFixedArray c || IsFixedMap c
          || (Array16 <=? c) && (c <=? Map32) then
    inr (notModelled "a value that is no driver.Value")
  else inr (ErrCodec "unknown code decoding interface{}")).
Proof.
  intros Hc. unfold DecodeInterface. rewrite readCode_byte by exact Hc. reflexivity.
Qed.

Lemma readN_len (n : Z) (p rest : bytes) :
  len p = n -> readN n (p ++ rest) = inl (p, rest).
Proof. intros <-. apply readN_exact. Qed.

Lemma land_high32 (a : Z) :
  0 <= a < 2 ^ 64 -> Z.land a 0xffffffff00000000 = 0 -> a < 2 ^ 32.
Proof.
  intros Ha Hland.
  destruct (Z.lt_ge_cases a (2 ^ 32)) as [|Hbig]; [assumption|exfalso].
  assert (Hpos : 0 < a) by lia.
  pose proof (Z.bit_log2 a Hpos) as Hbit.
  assert (Hlo : 32 <= Z.log2 a) by (apply Z.log2_le_pow2; lia).
  assert (Hhi : Z.log2 a < 64) by (apply Z.log2_lt_pow2; lia).
  assert (Hmask : Z.testbit 0xffffffff00000000 (Z.log2 a) = true).
  { change 0xffffffff00000000 with (Z.shiftl (Z.ones 32) 32).
    rewrite Z.shiftl_spec by lia. apply Z.ones_spec_low. lia. }
  assert (Hboth : Z.testbit (Z.land a 0xffffffff00000000) (Z.log2 a) = true)
    by (rewrite Z.land_spec, Hbit, Hmask; reflexivity).
  rewrite Hland, Z.bits_0 in Hboth. discriminate.
Qed.

Lemma time_round_trip (sec nsec : Z) (rest : bytes) :
  - 2 ^ 63 <= sec < 2 ^ 63 -> 0 <= nsec < 10 ^ 9 ->
  DecodeInterface (EncodeTime sec nsec ++ rest) = inl (VTimePtr sec nsec, rest).
Proof.
  intros Hsec Hnsec. unfold EncodeTime, encodeTime. cbv zeta.
  pose proof (uint64_range sec) as Hsecs.
  pose proof (int64_uint64 sec Hsec) as Hback.
  set (secs := uint64 sec) in *.
  rewrite Z.shiftr_div_pow2 by lia.
  destruct (Z.eqb_spec (secs / 2 ^ 34) 0) as [Hsmall|Hlarge].
  - assert (Hs34 : secs < 2 ^ 34).
    { destruct (Z.lt_ge_cases secs (2 ^ 34)) as [|Hge]; [assumption|].
      pose proof (Z.div_le_mono (2 ^ 34) secs (2 ^ 34) ltac:(lia) Hge) as Hd.
      rewrite Z.div_same in Hd by lia. lia. }
    assert (Hsame : secs = sec).
    { rewrite <- Hback. symmetry. apply int64_id. lia. }
    rewrite shift_or by lia.
    set (data := nsec * 2 ^ 34 + secs).
    assert (Hdata : 0 <= data < 2 ^ 64) by (unfold data; lia).
    destruct (Z.eqb_spec (Z.land data 18446744069414584320) 0) as [Hz|Hnz].
    + pose proof (land_high32 data Hdata Hz) as H32.
      assert (nsec = 0) by (unfold data in H32; lia). subst nsec.
      rewrite be_put_len. change (encodeExtLen (Z.of_nat 4)) with (writeCode FixExt4).
      unfold writeCode. cbn [app].
      rewrite DecodeInterface_code by (codes; lia). cbn [bind]. codes.
      repeat decide_if.
      unfold extInterface, parseExtLen. codes. repeat decide_if. cbn [bind].
      rewrite readCode_byte by lia. cbn [bind]. decide_if.
      unfold decodeTime. change 4 with (Z.of_nat 4). rewrite readN_put. cbn [bind].
      rewrite be_put_len. decide_if.
      rewrite be_get_put, Z.mod_small by (simpl; lia).
      unfold timeUnix. rewrite Z.div_small, Z.mod_small, Z.add_0_r by lia.
      unfold data. rewrite Z.mul_0_l, Z.add_0_l, Hsame, int64_id by lia. reflexivity.
    + rewrite be_put_len. change (encodeExtLen (Z.of_nat 8)) with (writeCode FixExt8).
      unfold writeCode. cbn [app].
      rewrite DecodeInterface_code by (codes; lia). cbn [bind]. codes.
      repeat decide_if.
      unfold extInterface, parseExtLen. codes. repeat decide_if. cbn [bind].
      rewrite readCode_byte by lia. cbn [bind]. decide_if.
      unfold decodeTime. change 8 with (Z.of_nat 8). rewrite readN_put. cbn [bind].
      rewrite be_put_len. repeat decide_if. cbv zeta.
      rewrite be_get_put, Z.mod_small by (simpl; lia).
      rewrite Z.shiftr_div_pow2 by lia.
      replace (Z.land data 17179869183) with secs
        by (symmetry; apply (land_low nsec secs 34); lia).
      replace (data / 2 ^ 34) with nsec
        by (apply Z.div_unique with secs; unfold data; lia).
      unfold timeUnix. rewrite Z.div_small, Z.mod_small, Z.add_0_r by lia.
      rewrite Hsame, int64_id by lia. reflexivity.
  - rewrite len_app, !be_put_len.
    change (encodeExtLen (Z.of_nat 4 + Z.of_nat 8)) with (write1 Ext8 12).
    unfold write1. cbn [app]. rewrite <- !app_assoc.
    rewrite DecodeInterface_code by (codes; lia). cbn [bind]. codes.
    repeat decide_if.
    unfold extInterface, parseExtLen. codes. repeat decide_if.
    rewrite readUint_put by (simpl; lia). cbn [bind app].
    rewrite readCode_byte by lia. cbn [bind]. decide_if.
    unfold decodeTime.
    rewrite (readN_len 12 (be_put 4 nsec ++ be_put 8 secs))
      by (rewrite len_app, !be_put_len; reflexivity).
    cbn [bind].
    rewrite len_app, !be_put_len. repeat decide_if. cbv zeta.
    destruct (firstn_be_put 4 nsec (be_put 8 secs)) as [-> ->].
    rewrite !be_get_put, !Z.mod_small by (simpl; lia).
    unfold timeUnix. rewrite Z.div_small, Z.mod_small, Z.add_0_r by lia.
    rewrite Hback, int64_id by lia. reflexivity.
Qed.

Lemma value_round_trip_at (v : Value) (rest : bytes) :
  wf_value v -> DecodeInterface (EncodeValue v ++ rest) = inl (received v, rest).
Proof.
  destruct v as [|b|n|bits|s|b|sec nsec| |sec nsec];
    cbn [wf_value EncodeValue received]; intros Hwf.
  - unfold EncodeNil, writeCode. cbn [app].
    rewrite DecodeInterface_code by (codes; lia). cbn [bind]. codes.
    repeat decide_if. reflexivity.
  - destruct b; unfold EncodeBool, writeCode; cbn [app];
      rewrite DecodeInterface_code by (codes; lia); cbn [bind]; codes;
      repeat decide_if; reflexivity.
  - unfold EncodeInt64, write8. cbn [app].
    rewrite DecodeInterface_code by (codes; lia). cbn [bind]. codes.
    repeat decide_if.
    rewrite readUint_put by (pose proof (uint64_range n); simpl; lia).
    cbn [bind]. rewrite int64_uint64 by exact Hwf. reflexivity.
  - unfold EncodeFloat64, write8. cbn [app].
    rewrite DecodeInterface_code by (codes; lia). cbn [bind]. codes.
    repeat decide_if.
    rewrite readUint_put by (simpl; lia). reflexivity.
  - unfold EncodeString. cbv zeta.
    set (body := list_byte_of_string s) in *.
    pose proof (len_nonneg body) as Hb.
    destruct (bytesLen_str (len body) (body ++ rest)) as (c & hd & Henc & Hc & Hlen);
      [lia|].
    rewrite Henc, <- app_assoc. cbn [app].
    rewrite DecodeInterface_code by lia. cbn [bind].
    rewrite (readBody_exact c body rest) by exact Hlen. codes.
    repeat decide_if. cbn [bind].
    subst body. rewrite string_of_list_byte_of_string. reflexivity.
  - unfold EncodeBytes.
    pose proof (len_nonneg b) as Hb.
    destruct (bytesLen_bin (len b) (b ++ rest)) as (c & hd & Henc & Hc & Hlen);
      [lia|].
    rewrite Henc, <- app_assoc. cbn [app].
    rewrite DecodeInterface_code by lia. cbn [bind].
    rewrite (readBody_exact c b rest) by exact Hlen. codes.
    repeat decide_if. reflexivity.
  - apply time_round_trip; tauto.
  - unfold EncodeNil, writeCode. cbn [app].
    rewrite DecodeInterface_code by (codes; lia). cbn [bind]. codes.
    repeat decide_if. reflexivity.
  - contradiction.
Qed.

Lemma EncodeValue_nonempty (v : Value) : 1 <= len (EncodeValue v).
Proof.
  assert (Hcons : forall (x : byte) (l : bytes), 1 <= len (x :: l))
    by (intros x l; unfold len; cbn [List.length]; lia).
  assert (Hstr : forall l tail, 1 <= len (encodeStrLen l ++ tail)).
  { intros l tail. unfold encodeStrLen.
    destruct (l <? 32); [|destruct (l <? 256); [|destruct (l <? 65536)]];
      apply Hcons. }
  assert (Hbin : forall l tail, 1 <= len (EncodeBytesLen l ++ tail)).
  { intros l tail. unfold EncodeBytesLen.
    destruct (l <? 256); [|destruct (l <? 65536)]; apply Hcons. }
  destruct v as [|b|n|bits|s|b|sec nsec| |sec nsec]; cbn [EncodeValue];
    try apply Hcons; try apply Hstr; try apply Hbin.
  - destruct b; apply Hcons.
  - unfold EncodeTime, encodeExtLen. cbv zeta.
    repeat match goal with
           | |- context [if ?t then _ else _] => destruct t
           end; apply Hcons.
  - unfold EncodeTime, encodeExtLen. cbv zeta.
    repeat match goal with
           | |- context [if ?t then _ else _] => destruct t
           end; apply Hcons.
Qed.

Lemma flat_map_EncodeValue_len (vs : list Value) :
  len vs <= len (flat_map EncodeValue vs).
Proof.
  induction vs as [|v vs IH].
  - reflexivity.
  - cbn [flat_map]. rewrite len_app. pose proof (EncodeValue_nonempty v).
    unfold len in *. cbn [List.length]. lia.
Qed.

Lemma decodeElems_values (vs : list Value) (rest : bytes) :
  Forall wf_value vs ->
  decodeElems DecodeInterface (List.length vs) (flat_map EncodeValue vs ++ rest)
  = (map received vs, inl rest).
Proof.
  induction 1 as [|v vs Hv Hvs IH].
  - reflexivity.
  - cbn [flat_map List.length decodeElems map].
    rewrite <- app_assoc, value_round_trip_at by exact Hv.
    rewrite IH. reflexivity.
Qed.

(** The header of an array and the count read back from it. *)
Lemma arrayLen_header (l : Z) (tail : bytes) :
  0 <= l < 2 ^ 32 ->
  exists c hd,
    EncodeArrayLen l = byte_of_Z c :: hd /\
    0 <= c < 256 /\
    arrayLen c (hd ++ tail) = inl (l, tail).
Proof.
  intros Hl. unfold EncodeArrayLen.
  destruct (Z.ltb_spec l 16); [|destruct (Z.ltb_spec l 65536)].
  - exists (144 + l), []. rewrite lor_FixedArrayLow by lia.
    split; [reflexivity|]. split; [lia|].
    unfold arrayLen. codes. repeat decide_if. cbn [app].
    change 15 with (2 ^ 4 - 1). replace (144 + l) with (9 * 2 ^ 4 + l) by lia.
    rewrite land_low by lia. reflexivity.
  - exists 220, (be_put 2 l). split; [reflexivity|]. split; [lia|].
    unfold arrayLen. codes. repeat decide_if. apply readUint_put. simpl. lia.
  - exists 221, (be_put 4 l). split; [reflexivity|]. split; [lia|].
    unfold arrayLen. codes. repeat decide_if. apply readUint_put. simpl. lia.
Qed.

Lemma decodeSlice_values (vs : list Value) (rest : bytes) :
  len vs < 2 ^ 32 -> Forall wf_value vs ->
  decodeSlice DecodeInterface (EncodeValues vs ++ rest) = (map received vs, inl rest).
Proof.
  intros Hlen Hwf. unfold EncodeValues.
  pose proof (len_nonneg vs) as Hnn.
  destruct (arrayLen_header (len vs) (flat_map EncodeValue vs ++ rest))
    as (c & hd & Henc & Hc & Hal); [lia|].
  rewrite Henc, <- !app_assoc. cbn [app].
  unfold decodeSlice. rewrite readCode_byte by exact Hc. cbn [bind].
  rewrite Hal.
  destruct (Z.leb_spec (len vs) 0) as [Hz|Hpos].
  - destruct vs; [reflexivity | unfold len in Hz; simpl in Hz; lia].
  - pose proof (flat_map_EncodeValue_len vs) as Hfm.
    pose proof (len_nonneg rest) as Hrest.
    rewrite len_app. decide_if.
    unfold len at 1. rewrite Nat2Z.id.
    apply decodeElems_values. exact Hwf.
Qed.

(** A request as the driver writes it, read back as a [QueryRequest]. *)
Lemma Unmarshal_QueryRequest_EncodeRequest (q : string) (args : list Value)
      (rest : bytes) :
  wf_request q args ->
  Unmarshal_QueryRequest (EncodeRequest q args ++ rest) =
  (mkQueryRequest q (map received args), None).
Proof.
  intros (Hq & Hargs & Hwf).
  unfold Unmarshal_QueryRequest, Unmarshal, EncodeRequest.
  change (EncodeMapLen 2) with [byte_of_Z 130].
  rewrite <- !app_assoc. cbn [app].
  rewrite readCode_byte by lia. codes. repeat decide_if.
  unfold mapLen. codes. repeat decide_if.
  change (Z.land 130 15) with 2.
  match goal with
  | |- context [if len ?l <? 2 then _ else _] =>
      assert (Hl : 2 <= len l)
        by (rewrite len_app; change (len (EncodeString "query")) with 6;
            match goal with |- context [len ?t] => pose proof (len_nonneg t) end;
            lia)
  end.
  decide_if. change (Z.to_nat 2) with 2%nat.
  cbn [decodeFields].
  rewrite DecodeString_EncodeString by (vm_compute; reflexivity).
  unfold QueryRequest_field at 1. cbn [String.eqb Ascii.eqb Bool.eqb].
  rewrite DecodeString_EncodeString by exact Hq. cbn [intoField].
  rewrite DecodeString_EncodeString by (vm_compute; reflexivity).
  unfold QueryRequest_field at 1. cbn [String.eqb Ascii.eqb Bool.eqb qreq_Query qreq_Args].
  rewrite decodeSlice_values by assumption.
  reflexivity.
Qed.

End MsgpackFacts.

(** ** One turn of the per-connection loop *)

Section Turn.
Context {DB : Type}.
Variable db_Query : DB -> string -> list Value -> DB * (SqlRows + error).
Variable db_Exec : DB -> string -> list Value -> DB * (SqlResult + error).
Variable Unmarshal_QueryRequest : bytes -> QueryRequest * option error.
Variable Unmarshal_ExecRequest : bytes -> ExecRequest * option error.
Variable Marshal : Message -> bytes + error.
Variable TrimSpace : string -> string.
Variable Fields : string -> list string.
Variable ToUpper : string -> string.

Let P_serve := Proxy.serve db_Query db_Exec
                 Unmarshal_QueryRequest Unmarshal_ExecRequest Marshal.
Let P_after := Proxy.after_handler db_Query db_Exec
                 Unmarshal_QueryRequest Unmarshal_ExecRequest Marshal.
Let P_handleQuery := Proxy.handleQuery db_Query Unmarshal_QueryRequest Marshal.
Let P_handleExec := Proxy.handleExec db_Exec Unmarshal_ExecRequest Marshal.
Let Q_serve := QueryService.serve db_Query db_Exec
                 Unmarshal_QueryRequest Unmarshal_ExecRequest Marshal
                 TrimSpace Fields ToUpper.
Let Q_after := QueryService.after_handler db_Query db_Exec
                 Unmarshal_QueryRequest Unmarshal_ExecRequest Marshal
                 TrimSpace Fields ToUpper.
Let Q_isQuery := QueryService.isQuery Unmarshal_QueryRequest
                 TrimSpace Fields ToUpper.
Let Q_handleQuery := QueryService.handleQuery db_Query Unmarshal_QueryRequest Marshal.
Let Q_handleExec := QueryService.handleExec db_Exec Unmarshal_ExecRequest Marshal.

Lemma Proxy_turn (s : Server DB) (payload rest : bytes) (fuel : nat) :
  closed (conn s) = false -> len payload < 2 ^ 32 ->
  inbuf (conn s) = frame payload ++ rest ->
  P_serve (S fuel) s =
  P_after fuel
    (if Proxy.isQuery Unmarshal_QueryRequest payload
     then P_handleQuery (framed s payload rest) payload
     else P_handleExec (framed s payload rest) payload).
Proof.
  intros Hopen Hlen Hin. subst P_serve P_after P_handleQuery P_handleExec.
  cbn [Proxy.serve]. rewrite (readFrame_frame _ payload rest Hopen Hlen Hin).
  unfold Proxy.after_handler, framed. reflexivity.
Qed.

Lemma QueryService_turn (s : Server DB) (payload rest : bytes) (fuel : nat) :
  closed (conn s) = false -> len payload < 2 ^ 32 ->
  inbuf (conn s) = frame payload ++ rest ->
  Q_serve (S fuel) s =
  match Q_isQuery payload with
  | None => (framed s payload rest, Panicked)
  | Some true => Q_after fuel (Q_handleQuery (framed s payload rest) payload)
  | Some false => Q_after fuel (Q_handleExec (framed s payload rest) payload)
  end.
Proof.
  intros Hopen Hlen Hin.
  subst Q_serve Q_after Q_isQuery Q_handleQuery Q_handleExec.
  cbn [QueryService.serve]. rewrite (readFrame_frame _ payload rest Hopen Hlen Hin).
  unfold QueryService.after_handler, framed. reflexivity.
Qed.

(** C10. In cmd/proxy the handlers use the handle of a failed engine call:
    when [db.Query] fails, [handleQuery] calls [Columns] on the nil rows
    and the deferred [rows.Close()] then runs on the same nil pointer;
    when [db.Exec] fails, [handleExec] calls [RowsAffected] on the nil
    result. Either way the handler panics instead of returning, nothing is
    written, and [handleConnection] ends in that panic. Both branches are
    reached from the wire. *)
Theorem engine_failure_dereferences_nil (s : Server DB) (payload rest : bytes) :
  let qreq := fst (Unmarshal_QueryRequest payload) in
  let ereq := fst (Unmarshal_ExecRequest payload) in
  let s1 := framed s payload rest in
  (forall db' err,
      db_Query (db s) (qreq_Query qreq) (qreq_Args qreq) = (db', inr err) ->
      P_handleQuery s payload =
        (mkServer (conn s) db'
           (trace s ++ [EvQuery (qreq_Query qreq) (qreq_Args qreq)]
                    ++ [EvNilDeref RowsColumns; EvNilDeref RowsClose]),
         Panicked)) /\
  (forall db' err,
      db_Exec (db s) (ereq_Query ereq) (ereq_Args ereq) = (db', inr err) ->
      P_handleExec s payload =
        (mkServer (conn s) db'
           (trace s ++ [EvExec (ereq_Query ereq) (ereq_Args ereq)]
                    ++ [EvNilDeref ResultRowsAffected]),
         Panicked)) /\
  (closed (conn s) = false -> len payload < 2 ^ 32 ->
   inbuf (conn s) = frame payload ++ rest ->
   (forall db' err,
      Proxy.isQuery Unmarshal_QueryRequest payload = true ->
      db_Query (db s) (qreq_Query qreq) (qreq_Args qreq) = (db', inr err) ->
      Proxy.handleConnection db_Query db_Exec
        Unmarshal_QueryRequest Unmarshal_ExecRequest Marshal s =
        (mkServer (sock_Close (conn s1)) db'
           (trace s1 ++ [EvQuery (qreq_Query qreq) (qreq_Args qreq)]
                     ++ [EvNilDeref RowsColumns; EvNilDeref RowsClose]),
         Panicked)) /\
   (forall db' err,
      Proxy.isQuery Unmarshal_QueryRequest payload = false ->
      db_Exec (db s) (ereq_Query ereq) (ereq_Args ereq) = (db', inr err) ->
      Proxy.handleConnection db_Query db_Exec
        Unmarshal_QueryRequest Unmarshal_ExecRequest Marshal s =
        (mkServer (sock_Close (conn s1)) db'
           (trace s1 ++ [EvExec (ereq_Query ereq) (ereq_Args ereq)]
                     ++ [EvNilDeref ResultRowsAffected]),
         Panicked))).
Proof.
  intros qreq ereq s1.
  assert (HQ : forall (t : Server DB) db' err,
             db_Query (db t) (qreq_Query qreq) (qreq_Args qreq) = (db', inr err) ->
             P_handleQuery t payload =
             (mkServer (conn t) db'
                (trace t ++ [EvQuery (qreq_Query qreq) (qreq_Args qreq)]
                         ++ [EvNilDeref RowsColumns; EvNilDeref RowsClose]),
              Panicked)).
  { intros t db' err Hfail. subst P_handleQuery. unfold Proxy.handleQuery.
    fold qreq. rewrite Hfail. unfold log_events. cbn [conn db trace].
    rewrite <- app_assoc. reflexivity. }
  assert (HE : forall (t : Server DB) db' err,
             db_Exec (db t) (ereq_Query ereq) (ereq_Args ereq) = (db', inr err) ->
             P_handleExec t payload =
             (mkServer (conn t) db'
                (trace t ++ [EvExec (ereq_Query ereq) (ereq_Args ereq)]
                         ++ [EvNilDeref ResultRowsAffected]),
              Panicked)).
  { intros t db' err Hfail. subst P_handleExec. unfold Proxy.handleExec.
    fold ereq. rewrite Hfail. unfold log_events. cbn [conn db trace].
    rewrite <- app_assoc. reflexivity. }
  split; [apply HQ|]. split; [apply HE|].
  intros Hopen Hlen Hin. split.
  - intros db' err Hroute Hfail.
    unfold Proxy.handleConnection, Proxy.serve_fuel.
    pose proof (Proxy_turn s payload rest (List.length (inbuf (conn s)))
                  Hopen Hlen Hin) as Hturn.
    subst P_serve P_after s1. cbv zeta in Hturn. rewrite Hturn, Hroute.
    rewrite (HQ (framed s payload rest) db' err) by exact Hfail.
    reflexivity.
  - intros db' err Hroute Hfail.
    unfold Proxy.handleConnection, Proxy.serve_fuel.
    pose proof (Proxy_turn s payload rest (List.length (inbuf (conn s)))
                  Hopen Hlen Hin) as Hturn.
    subst P_serve P_after s1. cbv zeta in Hturn. rewrite Hturn, Hroute.
    rewrite (HE (framed s payload rest) db' err) by exact Hfail.
    reflexivity.
Qed.


(** C1, as the code has it. No opcode is read. A request is classified
    by decoding its whole payload as a [QueryRequest]: cmd/proxy hands it
    to [handleQuery] when that succeeds and to [handleExec] when it fails;
    the other entry point hands it to [handleQuery] when decoding succeeds
    and the first word of the query text, upper-cased, is SELECT, and to
    [handleExec] when decoding fails or the first word is another one. The
    driver, for its part, sends the marshalled request as the whole payload,
    with nothing before it. *)
Theorem routing_by_decoding (s : Server DB) (payload rest : bytes) (fuel : nat) :
  closed (conn s) = false -> len payload < 2 ^ 32 ->
  inbuf (conn s) = frame payload ++ rest ->
  let s1 := framed s payload rest in
  let decoded := Unmarshal_QueryRequest payload in
  P_serve (S fuel) s =
    P_after fuel (match snd decoded with
                  | None => P_handleQuery s1 payload
                  | Some _ => P_handleExec s1 payload
                  end) /\
  (snd decoded <> None ->
   Q_serve (S fuel) s = Q_after fuel (Q_handleExec s1 payload)) /\
  (forall word more,
      snd decoded = None ->
      Fields (TrimSpace (qreq_Query (fst decoded))) = word :: more ->
      Q_serve (S fuel) s =
        Q_after fuel (if String.eqb (ToUpper word) "SELECT"
                      then Q_handleQuery s1 payload
                      else Q_handleExec s1 payload)) /\
  (forall (client : Socket) (request : Message) (data : bytes),
      Marshal request = inl data ->
      closed client = false -> writable client = true ->
      Driver.sendRequest Marshal client request =
        (mkSocket (inbuf client) (outbuf client ++ PutUint32 (uint32 (len data)) ++ data)
           (writable client) (closed client), None)).
Proof.
  intros Hopen Hlen Hin s1 decoded.
  pose proof (Proxy_turn s payload rest fuel Hopen Hlen Hin) as HP.
  pose proof (QueryService_turn s payload rest fuel Hopen Hlen Hin) as HQ.
  subst P_serve P_after P_handleQuery P_handleExec
        Q_serve Q_after Q_isQuery Q_handleQuery Q_handleExec s1.
  cbv zeta in HP, HQ.
  split; [|split; [|split]].
  - rewrite HP. unfold Proxy.isQuery. fold decoded.
    destruct (snd decoded); reflexivity.
  - intros Hfail. rewrite HQ. unfold QueryService.isQuery. fold decoded.
    destruct decoded as [temp [err|]]; [reflexivity | contradiction Hfail; reflexivity].
  - intros word more Hok Hfields. rewrite HQ.
    unfold QueryService.isQuery. fold decoded.
    destruct decoded as [temp [err|]]; [discriminate Hok|].
    cbn [fst] in Hfields. rewrite Hfields.
    destruct (String.eqb (ToUpper word) "SELECT"); reflexivity.
  - intros client request data Hm Hc Hw. unfold Driver.sendRequest.
    rewrite Hm. apply writeFrame_ok; assumption.
Qed.

End Turn.

(** ** The two entry points on concrete connections *)

Lemma engine_failure_dereferences_nil_witness :
  FakeEngine.proxy (FakeEngine.server (frame [Byte.x01])) =
    (mkServer (mkSocket [] [] true true) FakeEngine.users
       [EvMake 1; EvExec "" []; EvNilDeref ResultRowsAffected], Panicked) /\
  FakeEngine.proxy (FakeEngine.server (frame FakeEngine.update_bob)) =
    (mkServer (mkSocket [] [] true true) FakeEngine.users
       [EvMake 62;
        EvQuery "UPDATE users SET name=? WHERE id=?" [VString "Bob"; VInt64 1];
        EvNilDeref RowsColumns; EvNilDeref RowsClose], Panicked).
Proof.
  split.
  - destruct (engine_failure_dereferences_nil
                FakeEngine.db_Query FakeEngine.db_Exec
                Msgpack.Unmarshal_QueryRequest Msgpack.Unmarshal_ExecRequest
                Msgpack.Marshal
                (FakeEngine.server (frame [Byte.x01])) [Byte.x01] [])
      as (_ & _ & Hloop).
    destruct Hloop as [_ Hexec].
    + reflexivity.
    + vm_compute. reflexivity.
    + reflexivity.
    + apply (Hexec FakeEngine.users (ErrEngine "syntax error")).
      * vm_compute. reflexivity.
      * vm_compute. reflexivity.
  - destruct (engine_failure_dereferences_nil
                FakeEngine.db_Query FakeEngine.db_Exec
                Msgpack.Unmarshal_QueryRequest Msgpack.Unmarshal_ExecRequest
                Msgpack.Marshal
                (FakeEngine.server (frame FakeEngine.update_bob))
                FakeEngine.update_bob [])
      as (_ & _ & Hloop).
    destruct Hloop as [Hquery _].
    + reflexivity.
    + vm_compute. reflexivity.
    + vm_compute. reflexivity.
    + apply (Hquery FakeEngine.users (ErrEngine "syntax error")).
      * vm_compute. reflexivity.
      * vm_compute. reflexivity.
Defined.



Lemma routing_by_decoding_witness :
  FakeEngine.db_Query FakeEngine.users "SELECT id, name FROM users" [] =
    (FakeEngine.users,
     inl (mkSqlRows (inl ["id"%string; "name"%string])
            [[VInt64 1; VString "Alice"]; [VInt64 2; VString "Bob"]])) /\
  trace (fst (FakeEngine.queryservice
                (FakeEngine.server (frame FakeEngine.select_users)))) =
    [EvMake 40; EvQuery "SELECT id, name FROM users" []].
Proof.
  split; [reflexivity|].
  destruct (routing_by_decoding
              FakeEngine.db_Query FakeEngine.db_Exec
              Msgpack.Unmarshal_QueryRequest Msgpack.Unmarshal_ExecRequest
              Msgpack.Marshal
              AsciiStrings.TrimSpace AsciiStrings.Fields AsciiStrings.ToUpper
              (FakeEngine.server (frame FakeEngine.select_users))
              FakeEngine.select_users [] 44)
    as (_ & _ & Hselect & _).
  - reflexivity.
  - vm_compute. reflexivity.
  - vm_compute. reflexivity.
  - specialize (Hselect "SELECT"%string ["id,"%string; "name"%string; "FROM"%string; "users"%string]).
    unfold FakeEngine.queryservice, QueryService.handleConnection.
    change (QueryService.serve_fuel
              (FakeEngine.server (frame FakeEngine.select_users))) with 45%nat.
    rewrite Hselect.
    + vm_compute. reflexivity.
    + vm_compute. reflexivity.
    + vm_compute. reflexivity.
Defined.

(** C1, as the specification states it, fails on the code. A payload that
    is the single byte 0x01, the opcode of a query: the code fails to decode
    it and runs [handleExec], which executes the empty statement. A payload
    that starts with 0x82, no opcode at all, is the query request the driver
    itself sends: the specification refuses it with [UnknownOpcode], the
    code decodes it and runs the query. *)
Lemma opcode_routing_counterexample :
  Spec.classify [Byte.x01] = Spec.ToQuery /\
  Proxy.isQuery Msgpack.Unmarshal_QueryRequest [Byte.x01] = false /\
  trace (fst (FakeEngine.proxy (FakeEngine.server (frame [Byte.x01])))) =
    [EvMake 1; EvExec "" []; EvNilDeref ResultRowsAffected] /\
  trace (fst (FakeEngine.queryservice (FakeEngine.server (frame [Byte.x01])))) =
    [EvMake 1] /\
  hd_error FakeEngine.select_users = Some Byte.x82 /\
  Spec.classify FakeEngine.select_users = Spec.UnknownOpcode /\
  Proxy.isQuery Msgpack.Unmarshal_QueryRequest FakeEngine.select_users = true /\
  trace (fst (FakeEngine.proxy (FakeEngine.server (frame FakeEngine.select_users)))) =
    [EvMake 40; EvQuery "SELECT id, name FROM users" []] /\
  trace (fst (FakeEngine.queryservice (FakeEngine.server (frame FakeEngine.select_users)))) =
    [EvMake 40; EvQuery "SELECT id, name FROM users" []].
Proof.
  repeat split; vm_compute; reflexivity.
Qed.

(** ** Values and requests on the wire *)

(** C4, as the specification states it, fails on the code. The codec reads
    the timestamp extension into a new [*time.Time]: what comes back for a
    time is a pointer, not a value of the timestamp kind. A nil byte slice
    is written as nil and comes back as nil, not as a byte slice. *)
Lemma timestamp_round_trip_counterexample :
  let t := VTime 1704067200 5 in
  Msgpack.wf_value t /\
  Msgpack.DecodeInterface (Msgpack.EncodeValue t) = inl (VTimePtr 1704067200 5, []) /\
  Msgpack.DecodeInterface (Msgpack.EncodeValue t) <> inl (t, []) /\
  Msgpack.wf_value VNilBytes /\
  Msgpack.DecodeInterface (Msgpack.EncodeValue VNilBytes) = inl (VNull, []) /\
  ~ (forall v : Value,
        Msgpack.wf_value v ->
        Msgpack.DecodeInterface (Msgpack.EncodeValue v) = inl (v, [])).
Proof.
  intros t.
  assert (Hwf : Msgpack.wf_value t) by (subst t; cbn [Msgpack.wf_value]; lia).
  assert (Hdec : Msgpack.DecodeInterface (Msgpack.EncodeValue t) =
                 inl (VTimePtr 1704067200 5, []))
    by (vm_compute; reflexivity).
  split; [exact Hwf|]. split; [exact Hdec|].
  split; [rewrite Hdec; subst t; discriminate|].
  split; [exact I|]. split; [vm_compute; reflexivity|].
  intros Hall. specialize (Hall t Hwf). rewrite Hdec in Hall.
  subst t. discriminate Hall.
Qed.

(** C4, as the code has it. A value of the kinds nil, bool, int64,
    float64, string and non-nil byte slice is read back from its wire
    encoding as the same value of the same kind, whatever follows it on the
    wire: nil as nil, an int64 as that int64, a float64 with the same bits,
    strings and byte slices with the same bytes, empty ones included. A
    time is read back as a pointer to a time of the same instant, and a nil
    byte slice as nil. The same holds, cell by cell, for the argument lists
    and rows the values travel in. *)
Theorem value_round_trip (v : Value) (vs : list Value) (rest : bytes) :
  Msgpack.wf_value v ->
  Forall Msgpack.wf_value vs ->
  len vs < 2 ^ 32 ->
  Msgpack.DecodeInterface (Msgpack.EncodeValue v ++ rest) =
    inl (match v with
         | VTime sec nsec => VTimePtr sec nsec
         | VNilBytes => VNull
         | _ => v
         end, rest) /\
  Msgpack.decodeSlice Msgpack.DecodeInterface (Msgpack.EncodeValues vs ++ rest) =
    (map Msgpack.received vs, inl rest) /\
  (forall v' rest',
      Msgpack.DecodeInterface (Msgpack.EncodeValue v ++ rest) = inl (v', rest') ->
      v' = Msgpack.received v /\ rest' = rest) /\
  (Msgpack.received v = v <->
   match v with VTime _ _ | VNilBytes => False | _ => True end).
Proof.
  intros Hv Hvs Hlen.
  pose proof (MsgpackFacts.value_round_trip_at v rest Hv) as Hone.
  split; [exact Hone|]. split; [|split].
  - apply MsgpackFacts.decodeSlice_values; assumption.
  - intros v' rest' Hdec. rewrite Hone in Hdec.
    injection Hdec as <- <-. split; reflexivity.
  - destruct v; cbn [Msgpack.received]; split; intros H;
      try reflexivity; try exact I; try discriminate H; try contradiction.
Qed.

Lemma value_round_trip_witness :
  let sample := [VNull; VBool true; VInt64 (-5); VInt64 0; VFloat64 0;
                 VString ""; VString "2024-01-01"; VBytes []; VNilBytes;
                 VTime 1704067200 0; VTime 1704067200 5; VTime (-1) 999999999] in
  Msgpack.DecodeInterface (Msgpack.EncodeValue VNull ++ []) = inl (VNull, []) /\
  Msgpack.DecodeInterface (Msgpack.EncodeValue (VInt64 (-5)) ++ []) =
    inl (VInt64 (-5), []) /\
  Msgpack.DecodeInterface (Msgpack.EncodeValue (VString "") ++ []) =
    inl (VString "", []) /\
  Msgpack.DecodeInterface (Msgpack.EncodeValue (VBytes []) ++ []) =
    inl (VBytes [], []) /\
  Msgpack.DecodeInterface (Msgpack.EncodeValue (VTime (-1) 999999999) ++ []) =
    inl (VTimePtr (-1) 999999999, []) /\
  Msgpack.decodeSlice Msgpack.DecodeInterface (Msgpack.EncodeValues sample ++ []) =
    ([VNull; VBool true; VInt64 (-5); VInt64 0; VFloat64 0;
      VString ""; VString "2024-01-01"; VBytes []; VNull;
      VTimePtr 1704067200 0; VTimePtr 1704067200 5; VTimePtr (-1) 999999999],
     inl []).
Proof.
  intros sample.
  assert (Hsample : Forall Msgpack.wf_value sample)
    by (repeat constructor; vm_compute; intuition discriminate).
  assert (Hlen : len sample < 2 ^ 32) by (vm_compute; reflexivity).
  split; [|split; [|split; [|split; [|split]]]].
  - apply (value_round_trip VNull sample [] I Hsample Hlen).
  - refine (proj1 (value_round_trip (VInt64 (-5)) sample [] _ Hsample Hlen)).
    vm_compute. intuition discriminate.
  - refine (proj1 (value_round_trip (VString "") sample [] _ Hsample Hlen)).
    vm_compute. reflexivity.
  - refine (proj1 (value_round_trip (VBytes []) sample [] _ Hsample Hlen)).
    vm_compute. reflexivity.
  - refine (proj1 (value_round_trip (VTime (-1) 999999999) sample [] _ Hsample Hlen)).
    vm_compute. intuition discriminate.
  - apply (value_round_trip VNull sample [] I Hsample Hlen).
Defined.

(** C9. In cmd/proxy [isQuery] is true exactly when the payload decodes as a
    [QueryRequest], and [handleExec] is reached only when it does not. The
    driver writes an exec request with the same bytes as the query request
    of the same text and arguments, so its exec requests decode too: the
    proxy hands each of them to [handleQuery], which calls [db.Query] with
    the text and the decoded arguments. What the turn leaves behind is what
    [db.Query] made of the engine, and either the reply built from the rows
    it returned or, when it failed, the nil dereference; [db.Exec] has no
    part in it. *)
Theorem exec_requests_run_as_queries {DB : Type}
        (db_Query : DB -> string -> list Value -> DB * (SqlRows + error))
        (db_Exec : DB -> string -> list Value -> DB * (SqlResult + error))
        (s : Server DB) (stmt : Driver.Stmt) (args : list Value)
        (rest : bytes) (fuel : nat) (client : Socket) :
  let text := Driver.query stmt in
  let payload := Msgpack.EncodeRequest text args in
  let got := map Msgpack.received args in
  let ran := db_Query (db s) text got in
  let c1 := set_inbuf (conn s) rest in
  let t1 := trace s ++ [EvMake (len payload); EvQuery text got] in
  let loop := Proxy.serve db_Query db_Exec Msgpack.Unmarshal_QueryRequest
                Msgpack.Unmarshal_ExecRequest Msgpack.Marshal in
  Msgpack.wf_request text args ->
  len payload < 2 ^ 32 ->
  closed (conn s) = false ->
  inbuf (conn s) = frame payload ++ rest ->
  Driver.sendRequest Msgpack.Marshal client (MExecRequest (mkExecRequest text args)) =
    writeFrame client payload /\
  Driver.sendRequest Msgpack.Marshal client (MQueryRequest (mkQueryRequest text args)) =
    writeFrame client payload /\
  Proxy.isQuery Msgpack.Unmarshal_QueryRequest payload = true /\
  loop (S fuel) s =
    match snd ran with
    | inl rows =>
        let cols := match sr_Columns rows with inl cs => cs | inr _ => [] end in
        let results := map (Scan (List.length cols)) (sr_data rows) in
        loop fuel
          (mkServer
             (Proxy.sendResponse Msgpack.Marshal c1
                (MQueryResponse (mkQueryResponse cols results)))
             (fst ran) t1)
    | inr _ =>
        (mkServer c1 (fst ran)
           (t1 ++ [EvNilDeref RowsColumns; EvNilDeref RowsClose]),
         Panicked)
    end /\
  (forall (decode : bytes -> QueryRequest * option error) (data : bytes),
      (Proxy.isQuery decode data = true <-> snd (decode data) = None) /\
      (Proxy.isQuery decode data = false <-> snd (decode data) <> None)).
Proof.
  intros text payload got ran c1 t1 loop Hwf Hlen Hopen Hin.
  pose proof (MsgpackFacts.Unmarshal_QueryRequest_EncodeRequest text args [] Hwf)
    as Hdec.
  rewrite app_nil_r in Hdec. fold payload got in Hdec.
  assert (Hroute : Proxy.isQuery Msgpack.Unmarshal_QueryRequest payload = true)
    by (unfold Proxy.isQuery; rewrite Hdec; reflexivity).
  split; [reflexivity|]. split; [reflexivity|]. split; [exact Hroute|].
  split.
  - subst loop.
    rewrite (Proxy_turn db_Query db_Exec Msgpack.Unmarshal_QueryRequest
               Msgpack.Unmarshal_ExecRequest Msgpack.Marshal
               s payload rest fuel Hopen Hlen Hin).
    rewrite Hroute. unfold Proxy.handleQuery. rewrite Hdec.
    cbn [fst qreq_Query qreq_Args framed db conn trace].
    fold ran. destruct ran as [db' [rows|err]]; cbn [fst snd].
    + unfold Proxy.after_handler, set_conn. cbn [conn db trace].
      subst c1 t1. rewrite <- app_assoc. reflexivity.
    + unfold Proxy.after_handler, log_events. cbn [conn db trace].
      subst c1 t1. rewrite <- !app_assoc. reflexivity.
  - intros decode data. unfold Proxy.isQuery.
    destruct (snd (decode data)); split; split; intros; congruence.
Qed.

Lemma exec_requests_run_as_queries_witness :
  let stmt := Driver.mkStmt "UPDATE users SET name=? WHERE id=?" in
  let args := [VString "Bob"; VInt64 1] in
  FakeEngine.update_bob = Msgpack.EncodeRequest (Driver.query stmt) args /\
  Proxy.isQuery Msgpack.Unmarshal_QueryRequest FakeEngine.update_bob = true /\
  Proxy.serve FakeEngine.db_Query FakeEngine.db_Exec Msgpack.Unmarshal_QueryRequest
    Msgpack.Unmarshal_ExecRequest Msgpack.Marshal 1
    (FakeEngine.server (frame FakeEngine.update_bob)) =
  (mkServer (mkSocket [] [] true false) FakeEngine.users
     [EvMake 62;
      EvQuery "UPDATE users SET name=? WHERE id=?" [VString "Bob"; VInt64 1];
      EvNilDeref RowsColumns; EvNilDeref RowsClose],
   Panicked).
Proof.
  intros stmt args.
  destruct (exec_requests_run_as_queries FakeEngine.db_Query FakeEngine.db_Exec
              (FakeEngine.server (frame FakeEngine.update_bob))
              stmt args [] 0 (mkSocket [] [] true false))
    as (_ & _ & Hroute & Hturn & _).
  - unfold Msgpack.wf_request.
    split; [vm_compute; reflexivity|]. split; [vm_compute; reflexivity|].
    repeat constructor; vm_compute; intuition discriminate.
  - vm_compute. reflexivity.
  - reflexivity.
  - vm_compute. reflexivity.
  - split; [reflexivity|]. split; [exact Hroute | exact Hturn].
Defined.

(** ** Calls sharing one connection *)

Lemma ReadFull_keeps (c : Socket) (n : Z) :
  outbuf (fst (ReadFull c n)) = outbuf c /\
  writable (fst (ReadFull c n)) = writable c /\
  closed (fst (ReadFull c n)) = closed c.
Proof.
  unfold ReadFull.
  destruct (n <=? 0); [auto|].
  destruct (closed c) eqn:Hc; [auto|].
  destruct (len (inbuf c) <? n); cbn [fst set_inbuf outbuf writable closed]; auto.
Qed.

Lemma readFrame_keeps (c : Socket) :
  outbuf (fst (fst (readFrame c))) = outbuf c /\
  writable (fst (fst (readFrame c))) = writable c /\
  closed (fst (fst (readFrame c))) = closed c.
Proof.
  unfold readFrame.
  pose proof (ReadFull_keeps c 4) as H4.
  destruct (ReadFull c 4) as [c1 [lengthBytes|err]]; cbn [fst] in *; [|exact H4].
  pose proof (ReadFull_keeps c1 (Uint32 lengthBytes)) as HL.
  destruct (ReadFull c1 (Uint32 lengthBytes)) as [c2 [payload|err]];
    cbn [fst] in *; intuition congruence.
Qed.

Section Calls.
Variable Marshal : Message -> bytes + error.
Variable Unmarshal_QueryResponse : bytes -> QueryResponse * option error.

Let Stmt_Query := Driver.Stmt_Query Marshal Unmarshal_QueryResponse.
Let step := Driver.step Marshal Unmarshal_QueryResponse.
Let run := Driver.run Marshal Unmarshal_QueryResponse.




End Calls.



(** ** The loop ends: the fuel of [handleConnection] is never used up *)

Lemma ReadFull_consumes (c c' : Socket) (n : Z) (p : bytes) :
  ReadFull c n = (c', inl p) ->
  (List.length (inbuf c') <= List.length (inbuf c))%nat /\
  (0 < n -> Z.of_nat (List.length (inbuf c')) + n = Z.of_nat (List.length (inbuf c))).
Proof.
  unfold ReadFull.
  destruct (Z.leb_spec n 0) as [Hz|Hpos].
  - intros H. injection H as <- <-. split; [lia | intros; lia].
  - destruct (closed c); [discriminate|].
    destruct (Z.ltb_spec (len (inbuf c)) n) as [|Hge]; [discriminate|].
    intros H. injection H as <- <-. cbn [set_inbuf inbuf].
    rewrite length_skipn. unfold len in Hge. split; [lia | intros; lia].
Qed.

Lemma readFrame_consumes (c c' : Socket) (made : list Z) (p : bytes) :
  readFrame c = (c', made, inl p) ->
  (List.length (inbuf c') + 4 <= List.length (inbuf c))%nat.
Proof.
  unfold readFrame.
  destruct (ReadFull c 4) as [c1 [lengthBytes|err]] eqn:H4; [|discriminate].
  destruct (ReadFull c1 (Uint32 lengthBytes)) as [c2 [body|err]] eqn:HL; [|discriminate].
  intros H. injection H as <- _ _.
  apply ReadFull_consumes in H4. apply ReadFull_consumes in HL.
  destruct H4 as [_ H4]. destruct HL as [HL _]. lia.
Qed.

Section Termination.
Context {DB : Type}.
Variable db_Query : DB -> string -> list Value -> DB * (SqlRows + error).
Variable db_Exec : DB -> string -> list Value -> DB * (SqlResult + error).
Variable Unmarshal_QueryRequest : bytes -> QueryRequest * option error.
Variable Unmarshal_ExecRequest : bytes -> ExecRequest * option error.
Variable Marshal : Message -> bytes + error.
Variable TrimSpace : string -> string.
Variable Fields : string -> list string.
Variable ToUpper : string -> string.

Lemma Proxy_sendResponse_inbuf (c : Socket) (m : Message) :
  inbuf (Proxy.sendResponse Marshal c m) = inbuf c.
Proof.
  unfold Proxy.sendResponse. destruct (Marshal m); [|reflexivity].
  apply writeFrame_inbuf.
Qed.

Lemma QueryService_sendResponse_inbuf (c : Socket) (m : Message) :
  inbuf (QueryService.sendResponse Marshal c m) = inbuf c.
Proof.
  unfold QueryService.sendResponse. destruct (Marshal m); [|reflexivity].
  apply writeFrame_inbuf.
Qed.

Lemma Proxy_handlers_inbuf (s : Server DB) (data : bytes) :
  inbuf (conn (fst (Proxy.handleQuery db_Query Unmarshal_QueryRequest Marshal s data)))
    = inbuf (conn s) /\
  inbuf (conn (fst (Proxy.handleExec db_Exec Unmarshal_ExecRequest Marshal s data)))
    = inbuf (conn s).
Proof.
  unfold Proxy.handleQuery, Proxy.handleExec. split.
  - destruct (db_Query _ _ _) as [db' [rows|err]]; cbn [fst conn set_conn log_events];
      [apply Proxy_sendResponse_inbuf | reflexivity].
  - destruct (db_Exec _ _ _) as [db' [res|err]]; cbn [fst conn set_conn log_events];
      [apply Proxy_sendResponse_inbuf | reflexivity].
Qed.

Lemma QueryService_handlers_inbuf (s : Server DB) (data : bytes) :
  inbuf (conn (fst (QueryService.handleQuery db_Query Unmarshal_QueryRequest Marshal s data)))
    = inbuf (conn s) /\
  inbuf (conn (fst (QueryService.handleExec db_Exec Unmarshal_ExecRequest Marshal s data)))
    = inbuf (conn s).
Proof.
  unfold QueryService.handleQuery, QueryService.handleExec. split.
  - destruct (Unmarshal_QueryRequest data) as [req [err|]]; [reflexivity|].
    destruct (db_Query _ _ _) as [db' [rows|err]]; [|reflexivity].
    destruct (sr_Columns rows); cbn [fst conn set_conn];
      [apply QueryService_sendResponse_inbuf | reflexivity].
  - destruct (Unmarshal_ExecRequest data) as [req [err|]]; [reflexivity|].
    destruct (db_Exec _ _ _) as [db' [res|err]]; cbn [fst conn set_conn];
      [apply QueryService_sendResponse_inbuf | reflexivity].
Qed.

Lemma Proxy_serve_total (fuel : nat) :
  forall s : Server DB,
    (List.length (inbuf (conn s)) < fuel)%nat ->
    snd (Proxy.serve db_Query db_Exec Unmarshal_QueryRequest
           Unmarshal_ExecRequest Marshal fuel s) <> OutOfFuel.
Proof.
  induction fuel as [|fuel IH]; intros s Hfuel; [lia|].
  cbn [Proxy.serve].
  destruct (readFrame (conn s)) as [[c made] [data|err]] eqn:Hrf;
    [|cbn [snd]; discriminate].
  apply readFrame_consumes in Hrf.
  set (s1 := log_events (set_conn s c) (map EvMake made)).
  destruct (Proxy_handlers_inbuf s1 data) as [HQ HE].
  destruct (Proxy.isQuery Unmarshal_QueryRequest data).
  - destruct (Proxy.handleQuery _ _ _ s1 data) as [s2 [| |]] eqn:Hh;
      cbn [fst] in HQ.
    + apply IH. rewrite HQ. subst s1. cbn [conn log_events set_conn]. lia.
    + cbn [snd]. discriminate.
    + exfalso. unfold Proxy.handleQuery in Hh.
      destruct (db_Query _ _ _) as [db' [rows|e]]; discriminate Hh.
  - destruct (Proxy.handleExec _ _ _ s1 data) as [s2 [| |]] eqn:Hh;
      cbn [fst] in HE.
    + apply IH. rewrite HE. subst s1. cbn [conn log_events set_conn]. lia.
    + cbn [snd]. discriminate.
    + exfalso. unfold Proxy.handleExec in Hh.
      destruct (db_Exec _ _ _) as [db' [res|e]]; discriminate Hh.
Qed.

Lemma QueryService_serve_total (fuel : nat) :
  forall s : Server DB,
    (List.length (inbuf (conn s)) < fuel)%nat ->
    snd (QueryService.serve db_Query db_Exec Unmarshal_QueryRequest
           Unmarshal_ExecRequest Marshal TrimSpace Fields ToUpper fuel s)
    <> OutOfFuel.
Proof.
  induction fuel as [|fuel IH]; intros s Hfuel; [lia|].
  cbn [QueryService.serve].
  destruct (readFrame (conn s)) as [[c made] [data|err]] eqn:Hrf;
    [|cbn [snd]; discriminate].
  apply readFrame_consumes in Hrf.
  set (s1 := log_events (set_conn s c) (map EvMake made)).
  destruct (QueryService_handlers_inbuf s1 data) as [HQ HE].
  destruct (QueryService.isQuery _ _ _ _ data) as [[|]|];
    [| |cbn [snd]; discriminate].
  - destruct (QueryService.handleQuery _ _ _ s1 data) as [s2 [e|]];
      cbn [fst] in HQ; [cbn [snd]; discriminate|].
    apply IH. rewrite HQ. subst s1. cbn [conn log_events set_conn]. lia.
  - destruct (QueryService.handleExec _ _ _ s1 data) as [s2 [e|]];
      cbn [fst] in HE; [cbn [snd]; discriminate|].
    apply IH. rewrite HE. subst s1. cbn [conn log_events set_conn]. lia.
Qed.

(** X13. Both entry points come to an end on every input. Each turn of
    the loop of [handleConnection] that goes on to another turn has taken at
    least the four bytes of a length prefix off the connection, and no
    handler puts bytes back; so on any finite input, whatever the engine
    and the codec answer, [handleConnection] returns or panics within one
    turn per waiting byte plus one. *)
Lemma handleConnection_total (s : Server DB) :
  snd (Proxy.handleConnection db_Query db_Exec Unmarshal_QueryRequest
         Unmarshal_ExecRequest Marshal s) <> OutOfFuel /\
  snd (QueryService.handleConnection db_Query db_Exec Unmarshal_QueryRequest
         Unmarshal_ExecRequest Marshal TrimSpace Fields ToUpper s) <> OutOfFuel.
Proof.
  unfold Proxy.handleConnection, QueryService.handleConnection. split.
  - pose proof (Proxy_serve_total (Proxy.serve_fuel s) s) as H.
    destruct (Proxy.serve _ _ _ _ _ _ s) as [s' x]. cbn [snd] in *.
    apply H. unfold Proxy.serve_fuel. lia.
  - pose proof (QueryService_serve_total (QueryService.serve_fuel s) s) as H.
    destruct (QueryService.serve _ _ _ _ _ _ _ _ _ s) as [s' x]. cbn [snd] in *.
    apply H. unfold QueryService.serve_fuel. lia.
Qed.

End Termination.

(** ** The scenarios of the specification, end to end

    The driver's request goes through the wire to the entry point with typed
    errors; the bytes that server writes are what the driver then reads. *)

(** Scenario A: a query; the cursor yields the two rows in order and then is
    exhausted. *)
Example scenario_query :
  let served := fst (FakeEngine.queryservice
                       (FakeEngine.server (frame FakeEngine.select_users))) in
  let client := Driver.mkConn (mkSocket (outbuf (conn served)) [] true false) in
  let (after, res) :=
    Driver.Stmt_Query Msgpack.Marshal Msgpack.Unmarshal_QueryResponse
      client (Driver.mkStmt "SELECT id, name FROM users") [] in
  outbuf (Driver.conn after) = frame FakeEngine.select_users /\
  res = inl (Driver.mkRows ["id"%string; "name"%string]
               [[VInt64 1; VString "Alice"]; [VInt64 2; VString "Bob"]] 0) /\
  snd (Driver.NextAll
         (Driver.mkRows ["id"%string; "name"%string]
            [[VInt64 1; VString "Alice"]; [VInt64 2; VString "Bob"]] 0)
         [[VNull; VNull]; [VNull; VNull]; [VNull; VNull]]) =
    [([VInt64 1; VString "Alice"], Driver.NextNil);
     ([VInt64 2; VString "Bob"], Driver.NextNil);
     ([VNull; VNull], Driver.NextEOF)].
Proof. vm_compute. repeat split. Qed.

(** Scenario B: an update; one row affected, and 0 for the insert id the
    engine does not support. *)
Example scenario_exec :
  let served := fst (FakeEngine.queryservice
                       (FakeEngine.server (frame FakeEngine.update_bob))) in
  let client := Driver.mkConn (mkSocket (outbuf (conn served)) [] true false) in
  snd (Driver.Stmt_Exec Msgpack.Marshal Msgpack.Unmarshal_ExecResponse
         client (Driver.mkStmt "UPDATE users SET name=? WHERE id=?")
         [VString "Bob"; VInt64 1]) =
    inl (Driver.mkResult 0 1) /\
  db served = [(1, "Bob"%string); (2, "Bob"%string)].
Proof. vm_compute. repeat split. Qed.

(** Scenario C: the engine raises a constraint violation; the server closes
    the connection without a word and the driver's call ends with [io.EOF]. *)
Example scenario_constraint_violation :
  let served := fst (FakeEngine.queryservice
                       (FakeEngine.server (frame FakeEngine.insert_again))) in
  let client := Driver.mkConn (mkSocket (outbuf (conn served)) [] true false) in
  outbuf (conn served) = [] /\
  snd (Driver.Stmt_Exec Msgpack.Marshal Msgpack.Unmarshal_ExecResponse
         client (Driver.mkStmt "INSERT INTO users (id, name) VALUES (?, ?)")
         [VInt64 1; VString "Eve"]) = inr EOF.
Proof. vm_compute. repeat split. Qed.

(** ** More on the driver *)

Lemma copy_length {A : Type} (dst src : list A) :
  List.length (Driver.copy dst src) = List.length dst.
Proof.
  unfold Driver.copy. rewrite length_app, length_firstn, length_skipn. lia.
Qed.

Lemma copy_cell {A : Type} (dst src : list A) (i : nat) :
  nth_error (Driver.copy dst src) i =
  if (i <? Nat.min (List.length dst) (List.length src))%nat
  then nth_error src i else nth_error dst i.
Proof.
  unfold Driver.copy.
  destruct (Nat.ltb_spec i (Nat.min (List.length dst) (List.length src))) as [Hlt|Hge].
  - rewrite nth_error_app1 by (rewrite length_firstn; lia).
    rewrite nth_error_firstn.
    destruct (Nat.ltb_spec i (List.length dst)); [reflexivity | lia].
  - rewrite nth_error_app2 by (rewrite length_firstn; lia).
    rewrite length_firstn, nth_error_skipn.
    destruct (Nat.le_ge_cases (List.length dst) (List.length src)) as [Hshort|Hlong].
    + assert (Hout : (List.length dst <= i)%nat) by lia.
      rewrite (proj2 (nth_error_None dst i) Hout).
      apply nth_error_None. lia.
    + f_equal. lia.
Qed.

(** X1. A cursor never leaves its rows: starting from the cursor that
    [Stmt.Query] builds, whatever destination slices [Next] is called with,
    the position stays between 0 and the number of rows, no call runs into
    the index-out-of-range panic, columns and rows are never changed, and
    each destination keeps its length. *)
Theorem cursor_stays_in_bounds (cols : list string) (rs : list (list Value))
        (dests : list (list Value)) :
  let run := Driver.NextAll (Driver.mkRows cols rs 0) dests in
  0 <= Driver.index (fst run) <= len rs /\
  Driver.columns (fst run) = cols /\
  Driver.data (fst run) = rs /\
  Forall (fun out => snd out <> Driver.NextPanic) (snd run) /\
  map (fun out => List.length (fst out)) (snd run) = map (@List.length Value) dests.
Proof.
  cbv zeta.
  assert (Hgen : forall ds (k : nat), (k <= List.length rs)%nat ->
    let run := Driver.NextAll (Driver.mkRows cols rs (Z.of_nat k)) ds in
    0 <= Driver.index (fst run) <= len rs /\
    Driver.columns (fst run) = cols /\
    Driver.data (fst run) = rs /\
    Forall (fun out => snd out <> Driver.NextPanic) (snd run) /\
    map (fun out => List.length (fst out)) (snd run) = map (@List.length Value) ds).
  { induction ds as [|d ds IH]; intros k Hk; cbv zeta.
    - cbn [Driver.NextAll fst snd Driver.index Driver.columns Driver.data map].
      unfold len. repeat split; try lia. constructor.
    - cbn [Driver.NextAll]. rewrite Next_at.
      destruct (nth_error rs k) as [row|] eqn:Hnth.
      + assert (Hk' : (S k <= List.length rs)%nat).
        { assert (k < List.length rs)%nat by (apply nth_error_Some; congruence). lia. }
        specialize (IH (S k) Hk'). cbv zeta in IH.
        destruct (Driver.NextAll (Driver.mkRows cols rs (Z.of_nat (S k))) ds)
          as [r2 outs].
        cbn [fst snd map] in *. destruct IH as (Hi & Hc & Hd & Hp & Hl).
        repeat split; try tauto.
        * constructor; [cbn [snd]; discriminate | exact Hp].
        * rewrite copy_length, Hl. reflexivity.
      + specialize (IH k Hk). cbv zeta in IH.
        destruct (Driver.NextAll (Driver.mkRows cols rs (Z.of_nat k)) ds)
          as [r2 outs].
        cbn [fst snd map] in *. destruct IH as (Hi & Hc & Hd & Hp & Hl).
        repeat split; try tauto.
        * constructor; [cbn [snd]; discriminate | exact Hp].
        * rewrite Hl. reflexivity. }
  apply (Hgen dests 0%nat). lia.
Qed.

(** X2. [Next] overwrites a prefix of the destination and nothing else: a
    successful call puts the first [min(len(dest), len(row))] values of the
    current row into the destination; when the destination is longer than
    the row, the cells behind keep what they held before the call, and when
    it is shorter the rest of the row is not delivered. *)
Theorem Next_overwrites_a_prefix (r : Driver.Rows) (row dest : list Value) (i : nat) :
  0 <= Driver.index r ->
  nth_error (Driver.data r) (Z.to_nat (Driver.index r)) = Some row ->
  let '(r', dest', res) := Driver.Next r dest in
  res = Driver.NextNil /\
  Driver.index r' = Driver.index r + 1 /\
  List.length dest' = List.length dest /\
  nth_error dest' i =
    if (i <? Nat.min (List.length dest) (List.length row))%nat
    then nth_error row i else nth_error dest i.
Proof.
  intros Hpos Hrow. unfold Driver.Next.
  assert (Hin : (Z.to_nat (Driver.index r) < List.length (Driver.data r))%nat)
    by (apply nth_error_Some; congruence).
  destruct (Z.geb_spec (Driver.index r) (len (Driver.data r))) as [Hge|_];
    [unfold len in Hge; lia|].
  destruct (Z.ltb_spec (Driver.index r) 0) as [Hneg|_]; [lia|].
  rewrite Hrow. cbn [Driver.index].
  repeat split; [apply copy_length | apply copy_cell].
Qed.

Lemma Next_overwrites_a_prefix_witness :
  let r := Driver.mkRows ["id"%string] [[VInt64 1]; [VInt64 2]] 1 in
  let dest := [VString "stale"; VString "older"] in
  Driver.Next r dest =
    (Driver.mkRows ["id"%string] [[VInt64 1]; [VInt64 2]] 2,
     [VInt64 2; VString "older"], Driver.NextNil) /\
  nth_error (snd (fst (Driver.Next r dest))) 1 = Some (VString "older").
Proof.
  intros r dest. split; [reflexivity|].
  pose proof (Next_overwrites_a_prefix r [VInt64 2] dest 1) as H.
  destruct (Driver.Next r dest) as [[r' dest'] res].
  destruct H as (_ & _ & _ & Hcell).
  - cbn. lia.
  - reflexivity.
  - exact Hcell.
Defined.

Lemma readFrame_incomplete (c : Socket) :
  closed c = false ->
  (len (inbuf c) < 4 ->
   readFrame c = (set_inbuf c [], [],
                  inr (match inbuf c with [] => EOF | _ => ErrUnexpectedEOF end))) /\
  (forall L body, 0 <= L < 2 ^ 32 -> inbuf c = PutUint32 L ++ body -> len body < L ->
   readFrame c = (set_inbuf c [], [L],
                  inr (match body with [] => EOF | _ => ErrUnexpectedEOF end))).
Proof.
  intros Hopen. split.
  - intros Hshort. unfold readFrame. rewrite ReadFull_short by assumption. reflexivity.
  - intros L body HL Hin Hshort.
    rewrite (readFrame_header c L body Hopen HL Hin).
    rewrite ReadFull_short by (cbn [closed inbuf set_inbuf]; assumption).
    reflexivity.
Qed.

Section DriverCalls.
Variable Marshal : Message -> bytes + error.
Variable Unmarshal_QueryResponse : bytes -> QueryResponse * option error.
Variable Unmarshal_ExecResponse : bytes -> ExecResponse * option error.

Let Stmt_Query := Driver.Stmt_Query Marshal Unmarshal_QueryResponse.
Let Stmt_Exec := Driver.Stmt_Exec Marshal Unmarshal_ExecResponse.

(** The socket once a call has written its request and used up [left]. *)
Lemma Stmt_Query_unfold (c : Driver.Conn) (s : Driver.Stmt) (args : list Value)
      (payload : bytes) :
  Marshal (MQueryRequest (mkQueryRequest (Driver.query s) args)) = inl payload ->
  closed (Driver.conn c) = false -> writable (Driver.conn c) = true ->
  Stmt_Query c s args =
  match readFrame (mkSocket (inbuf (Driver.conn c))
                     (outbuf (Driver.conn c) ++ frame payload) true false) with
  | (c2, _, inr err) => (Driver.mkConn c2, inr err)
  | (c2, _, inl body) =>
      match Unmarshal_QueryResponse body with
      | (_, Some err) => (Driver.mkConn c2, inr err)
      | (response, None) =>
          (Driver.mkConn c2,
           inl (Driver.mkRows (Columns response) (Data response) 0))
      end
  end.
Proof.
  intros Hm Hopen Hw. subst Stmt_Query.
  unfold Driver.Stmt_Query, Driver.sendRequest, Driver.readQueryResponse.
  rewrite Hm, writeFrame_ok by assumption. rewrite Hopen, Hw.
  destruct (readFrame _) as [[c2 made] [body|err]]; [|reflexivity].
  destruct (Unmarshal_QueryResponse body) as [response [err|]]; reflexivity.
Qed.

Lemma Stmt_Exec_unfold (c : Driver.Conn) (s : Driver.Stmt) (args : list Value)
      (payload : bytes) :
  Marshal (MExecRequest (mkExecRequest (Driver.query s) args)) = inl payload ->
  closed (Driver.conn c) = false -> writable (Driver.conn c) = true ->
  Stmt_Exec c s args =
  match readFrame (mkSocket (inbuf (Driver.conn c))
                     (outbuf (Driver.conn c) ++ frame payload) true false) with
  | (c2, _, inr err) => (Driver.mkConn c2, inr err)
  | (c2, _, inl body) =>
      match Unmarshal_ExecResponse body with
      | (_, Some err) => (Driver.mkConn c2, inr err)
      | (response, None) =>
          (Driver.mkConn c2,
           inl (Driver.mkResult (LastInsertID response) (RowsAffected response)))
      end
  end.
Proof.
  intros Hm Hopen Hw. subst Stmt_Exec.
  unfold Driver.Stmt_Exec, Driver.sendRequest, Driver.readExecResponse.
  rewrite Hm, writeFrame_ok by assumption. rewrite Hopen, Hw.
  destruct (readFrame _) as [[c2 made] [body|err]]; [|reflexivity].
  destruct (Unmarshal_ExecResponse body) as [response [err|]]; reflexivity.
Qed.

(** X3. A call whose response does not arrive in full fails and never hands
    out rows or a result. Once the request is written, [Query] and [Exec]
    return [io.EOF] when the server closed without sending anything, and
    [io.ErrUnexpectedEOF] when the stream ends inside the four length bytes
    or inside the payload the length announces ([io.EOF] again if not one
    payload byte came); the request frame is on the wire in every case and
    what did arrive is used up. *)
Theorem call_without_response (c : Driver.Conn) (s : Driver.Stmt)
        (args : list Value) (query_payload exec_payload : bytes) :
  Marshal (MQueryRequest (mkQueryRequest (Driver.query s) args)) = inl query_payload ->
  Marshal (MExecRequest (mkExecRequest (Driver.query s) args)) = inl exec_payload ->
  closed (Driver.conn c) = false -> writable (Driver.conn c) = true ->
  let sent p := Driver.mkConn (mkSocket [] (outbuf (Driver.conn c) ++ frame p) true false) in
  let arrived := inbuf (Driver.conn c) in
  (len arrived < 4 ->
   let err := match arrived with [] => EOF | _ => ErrUnexpectedEOF end in
   Stmt_Query c s args = (sent query_payload, inr err) /\
   Stmt_Exec c s args = (sent exec_payload, inr err)) /\
  (forall L body,
      0 <= L < 2 ^ 32 -> arrived = PutUint32 L ++ body -> len body < L ->
      let err := match body with [] => EOF | _ => ErrUnexpectedEOF end in
      Stmt_Query c s args = (sent query_payload, inr err) /\
      Stmt_Exec c s args = (sent exec_payload, inr err)).
Proof.
  intros Hq He Hopen Hw. cbv zeta.
  rewrite (Stmt_Query_unfold c s args query_payload Hq Hopen Hw).
  rewrite (Stmt_Exec_unfold c s args exec_payload He Hopen Hw).
  set (cq := mkSocket (inbuf (Driver.conn c))
               (outbuf (Driver.conn c) ++ frame query_payload) true false).
  set (ce := mkSocket (inbuf (Driver.conn c))
               (outbuf (Driver.conn c) ++ frame exec_payload) true false).
  destruct (readFrame_incomplete cq eq_refl) as [Hq1 Hq2].
  destruct (readFrame_incomplete ce eq_refl) as [He1 He2].
  split.
  - intros Hshort. rewrite Hq1, He1 by exact Hshort. split; reflexivity.
  - intros L body HL Harr Hshort.
    rewrite (Hq2 L body HL Harr Hshort), (He2 L body HL Harr Hshort).
    split; reflexivity.
Qed.

(** X4. Responses are matched to calls by position alone. With the frames
    of two responses waiting on the socket, a [Query] followed by an [Exec]
    sends its two request frames in that order; the first call gets the rows
    decoded from the first frame and the second the result decoded from the
    second frame, and what follows the two frames is left unread. *)
Theorem responses_matched_by_position
        (c : Driver.Conn) (s1 s2 : Driver.Stmt) (args1 args2 : list Value)
        (p1 p2 r1 r2 rest : bytes)
        (response1 : QueryResponse) (response2 : ExecResponse) :
  Marshal (MQueryRequest (mkQueryRequest (Driver.query s1) args1)) = inl p1 ->
  Marshal (MExecRequest (mkExecRequest (Driver.query s2) args2)) = inl p2 ->
  Unmarshal_QueryResponse r1 = (response1, None) ->
  Unmarshal_ExecResponse r2 = (response2, None) ->
  len r1 < 2 ^ 32 -> len r2 < 2 ^ 32 ->
  closed (Driver.conn c) = false -> writable (Driver.conn c) = true ->
  inbuf (Driver.conn c) = frame r1 ++ frame r2 ++ rest ->
  let first := Stmt_Query c s1 args1 in
  let second := Stmt_Exec (fst first) s2 args2 in
  snd first = inl (Driver.mkRows (Columns response1) (Data response1) 0) /\
  snd second = inl (Driver.mkResult (LastInsertID response2) (RowsAffected response2)) /\
  fst second =
    Driver.mkConn (mkSocket rest (outbuf (Driver.conn c) ++ frame p1 ++ frame p2)
                     true false).
Proof.
  intros Hm1 Hm2 Hu1 Hu2 Hl1 Hl2 Hopen Hw Hin first second.
  assert (Hfirst : first =
    (Driver.mkConn (mkSocket (frame r2 ++ rest)
                      (outbuf (Driver.conn c) ++ frame p1) true false),
     inl (Driver.mkRows (Columns response1) (Data response1) 0))).
  { subst first. rewrite (Stmt_Query_unfold c s1 args1 p1 Hm1 Hopen Hw).
    rewrite (readFrame_frame _ r1 (frame r2 ++ rest)) by (auto; exact Hin).
    rewrite Hu1. reflexivity. }
  subst second. rewrite Hfirst. cbn [fst snd].
  rewrite (Stmt_Exec_unfold _ s2 args2 p2 Hm2) by reflexivity.
  cbn [Driver.conn inbuf outbuf].
  rewrite (readFrame_frame _ r2 rest) by auto.
  rewrite Hu2. cbn [fst snd set_inbuf outbuf writable closed].
  rewrite <- app_assoc. auto.
Qed.

(** X5. A closed connection is of no more use: after [Close], [Query] and
    [Exec] fail with the closed-connection error of the socket without
    writing or reading a byte, and a second [Close] reports that error too. *)
Theorem use_after_close (c : Driver.Conn) (s : Driver.Stmt) (args : list Value)
        (query_payload exec_payload : bytes) :
  Marshal (MQueryRequest (mkQueryRequest (Driver.query s) args)) = inl query_payload ->
  Marshal (MExecRequest (mkExecRequest (Driver.query s) args)) = inl exec_payload ->
  let gone := fst (Driver.Close c) in
  Stmt_Query gone s args = (gone, inr ErrNetClosed) /\
  Stmt_Exec gone s args = (gone, inr ErrNetClosed) /\
  Driver.Close gone = (gone, Some ErrNetClosed) /\
  outbuf (Driver.conn gone) = outbuf (Driver.conn c) /\
  inbuf (Driver.conn gone) = inbuf (Driver.conn c).
Proof.
  intros Hq He gone. subst Stmt_Query Stmt_Exec gone.
  unfold Driver.Stmt_Query, Driver.Stmt_Exec, Driver.sendRequest, Driver.Close,
    writeFrame, sock_Write, sock_Close.
  cbn [fst Driver.conn closed]. rewrite Hq, He. cbn [closed outbuf inbuf].
  repeat split.
Qed.

End DriverCalls.

Lemma call_without_response_witness :
  let c := Driver.mkConn (mkSocket [Byte.x00; Byte.x00] [] true false) in
  Driver.Stmt_Query Msgpack.Marshal Msgpack.Unmarshal_QueryResponse
    c (Driver.mkStmt "SELECT 1") [] =
  (Driver.mkConn (mkSocket [] ([] ++ frame (Msgpack.EncodeRequest "SELECT 1" [])) true false),
   inr ErrUnexpectedEOF).
Proof.
  intros c.
  destruct (call_without_response Msgpack.Marshal Msgpack.Unmarshal_QueryResponse
              Msgpack.Unmarshal_ExecResponse c (Driver.mkStmt "SELECT 1") []
              (Msgpack.EncodeRequest "SELECT 1" []) (Msgpack.EncodeRequest "SELECT 1" []))
    as [Hshort _].
  - reflexivity.
  - reflexivity.
  - reflexivity.
  - reflexivity.
  - destruct Hshort as [Hq _]; [vm_compute; reflexivity | exact Hq].
Defined.

Lemma responses_matched_by_position_witness :
  let r1 := Msgpack.EncodeRequest "a" [] in
  let c := Driver.mkConn
             (mkSocket (frame [Byte.xc0] ++ frame [Byte.xc0] ++ [Byte.x2a]) [] true false) in
  let first := Driver.Stmt_Query Msgpack.Marshal Msgpack.Unmarshal_QueryResponse
                 c (Driver.mkStmt "a") [] in
  let second := Driver.Stmt_Exec Msgpack.Marshal Msgpack.Unmarshal_ExecResponse
                 (fst first) (Driver.mkStmt "b") [] in
  snd first = inl (Driver.mkRows [] [] 0) /\
  snd second = inl (Driver.mkResult 0 0) /\
  inbuf (Driver.conn (fst second)) = [Byte.x2a].
Proof.
  intros r1 c first second.
  destruct (responses_matched_by_position Msgpack.Marshal
              Msgpack.Unmarshal_QueryResponse Msgpack.Unmarshal_ExecResponse
              c (Driver.mkStmt "a") (Driver.mkStmt "b") [] []
              (Msgpack.EncodeRequest "a" []) (Msgpack.EncodeRequest "b" [])
              [Byte.xc0] [Byte.xc0] [Byte.x2a]
              (mkQueryResponse [] []) (mkExecResponse 0 0))
    as (H1 & H2 & H3).
  - reflexivity.
  - reflexivity.
  - reflexivity.
  - reflexivity.
  - vm_compute. reflexivity.
  - vm_compute. reflexivity.
  - reflexivity.
  - reflexivity.
  - reflexivity.
  - fold first in H1, H2, H3. fold second in H2, H3.
    split; [exact H1|]. split; [exact H2|]. rewrite H3. reflexivity.
Defined.

Lemma use_after_close_witness :
  let c := Driver.mkConn (mkSocket [] [] true false) in
  Driver.Stmt_Query Msgpack.Marshal Msgpack.Unmarshal_QueryResponse
    (fst (Driver.Close c)) (Driver.mkStmt "SELECT 1") [] =
  (Driver.mkConn (mkSocket [] [] true true), inr ErrNetClosed).
Proof.
  intros c.
  destruct (use_after_close Msgpack.Marshal Msgpack.Unmarshal_QueryResponse
              Msgpack.Unmarshal_ExecResponse c (Driver.mkStmt "SELECT 1") []
              (Msgpack.EncodeRequest "SELECT 1" []) (Msgpack.EncodeRequest "SELECT 1" []))
    as (Hq & _).
  - reflexivity.
  - reflexivity.
  - exact Hq.
Defined.

(** ** More on the entry point with typed errors *)

Section Replies.
Context {DB : Type}.
Variable db_Query : DB -> string -> list Value -> DB * (SqlRows + error).
Variable db_Exec : DB -> string -> list Value -> DB * (SqlResult + error).
Variable Unmarshal_QueryRequest : bytes -> QueryRequest * option error.
Variable Unmarshal_ExecRequest : bytes -> ExecRequest * option error.
Variable Marshal : Message -> bytes + error.
Variable TrimSpace : string -> string.
Variable Fields : string -> list string.
Variable ToUpper : string -> string.

Let Q_serve := QueryService.serve db_Query db_Exec
                 Unmarshal_QueryRequest Unmarshal_ExecRequest Marshal
                 TrimSpace Fields ToUpper.
Let Q_isQuery := QueryService.isQuery Unmarshal_QueryRequest
                 TrimSpace Fields ToUpper.
Let Q_handleConnection := QueryService.handleConnection db_Query db_Exec
                 Unmarshal_QueryRequest Unmarshal_ExecRequest Marshal
                 TrimSpace Fields ToUpper.

Lemma QueryService_sendResponse_ok (c : Socket) (m : Message) (reply : bytes) :
  closed c = false -> writable c = true -> Marshal m = inl reply ->
  QueryService.sendResponse Marshal c m =
  mkSocket (inbuf c) (outbuf c ++ frame reply) true false.
Proof.
  intros Hopen Hw Hm. unfold QueryService.sendResponse.
  rewrite Hm, writeFrame_ok by assumption. rewrite Hopen, Hw. reflexivity.
Qed.

Lemma QueryService_sendResponse_swallows (c : Socket) (m : Message) :
  (exists err, Marshal m = inr err) \/ writable c = false \/ closed c = true ->
  QueryService.sendResponse Marshal c m = c.
Proof.
  unfold QueryService.sendResponse, writeFrame, sock_Write.
  intros [[err Hm]|[Hw|Hc]].
  - rewrite Hm. reflexivity.
  - destruct (Marshal m); [|reflexivity]. rewrite Hw.
    destruct (closed c); reflexivity.
  - destruct (Marshal m); [|reflexivity]. rewrite Hc. reflexivity.
Qed.

(** X6. An exec that the engine carries out is answered with one frame, and
    the errors of [RowsAffected] and [LastInsertId] do not matter: whatever
    errors come with the two numbers, the reply holds the numbers, it is
    written as a single frame after what was written before, and the loop
    goes on with the next request. *)
Theorem exec_reply_ignores_result_errors
        (s : Server DB) (payload rest reply : bytes) (fuel : nat)
        (req : ExecRequest) (db' : DB) (affected lastID : Z)
        (err1 err2 : option error) :
  closed (conn s) = false -> writable (conn s) = true ->
  len payload < 2 ^ 32 ->
  inbuf (conn s) = frame payload ++ rest ->
  Q_isQuery payload = Some false ->
  Unmarshal_ExecRequest payload = (req, None) ->
  db_Exec (db s) (ereq_Query req) (ereq_Args req) =
    (db', inl (mkSqlResult (affected, err1) (lastID, err2))) ->
  Marshal (MExecResponse (mkExecResponse affected lastID)) = inl reply ->
  Q_serve (S fuel) s =
  Q_serve fuel
    (mkServer (mkSocket rest (outbuf (conn s) ++ frame reply) true false) db'
       (trace s ++ [EvMake (len payload);
                    EvExec (ereq_Query req) (ereq_Args req)])).
Proof.
  intros Hopen Hw Hlen Hin Hroute Hdec Hexec Hm.
  pose proof (QueryService_turn db_Query db_Exec Unmarshal_QueryRequest
                Unmarshal_ExecRequest Marshal TrimSpace Fields ToUpper
                s payload rest fuel Hopen Hlen Hin) as Hturn.
  subst Q_serve Q_isQuery. cbv zeta in Hturn. rewrite Hturn, Hroute.
  unfold QueryService.after_handler, QueryService.handleExec, framed.
  rewrite Hdec. cbn [db conn trace]. rewrite Hexec.
  cbn [fst res_RowsAffected res_LastInsertId set_conn conn db trace].
  rewrite (QueryService_sendResponse_ok _ _ reply) by (cbn; auto).
  cbn [inbuf outbuf set_inbuf]. rewrite <- app_assoc. reflexivity.
Qed.

(** X7. A reply that cannot be started is dropped without a trace. When
    the response cannot be marshalled, or the socket refuses the first
    write of [sendResponse], the four length bytes, without taking a byte,
    the handler still reports success: the statement has been executed by
    the engine, nothing is written for it, and the loop goes on to the next
    request on the same connection. (A socket that takes the length and
    then refuses the payload is outside this statement.) *)
Theorem unsent_reply_is_dropped
        (s : Server DB) (payload rest : bytes) (fuel : nat) :
  closed (conn s) = false ->
  len payload < 2 ^ 32 ->
  inbuf (conn s) = frame payload ++ rest ->
  (forall req db' result,
      Q_isQuery payload = Some false ->
      Unmarshal_ExecRequest payload = (req, None) ->
      db_Exec (db s) (ereq_Query req) (ereq_Args req) = (db', inl result) ->
      (exists err,
          Marshal (MExecResponse
                     (mkExecResponse (fst (res_RowsAffected result))
                        (fst (res_LastInsertId result)))) = inr err)
      \/ writable (conn s) = false ->
      Q_serve (S fuel) s =
      Q_serve fuel
        (mkServer (set_inbuf (conn s) rest) db'
           (trace s ++ [EvMake (len payload);
                        EvExec (ereq_Query req) (ereq_Args req)]))) /\
  (forall req db' cols rows,
      Q_isQuery payload = Some true ->
      Unmarshal_QueryRequest payload = (req, None) ->
      db_Query (db s) (qreq_Query req) (qreq_Args req) =
        (db', inl (mkSqlRows (inl cols) rows)) ->
      (exists err,
          Marshal (MQueryResponse
                     (mkQueryResponse cols (map (Scan (List.length cols)) rows)))
          = inr err)
      \/ writable (conn s) = false ->
      Q_serve (S fuel) s =
      Q_serve fuel
        (mkServer (set_inbuf (conn s) rest) db'
           (trace s ++ [EvMake (len payload);
                        EvQuery (qreq_Query req) (qreq_Args req)]))).
Proof.
  intros Hopen Hlen Hin.
  pose proof (QueryService_turn db_Query db_Exec Unmarshal_QueryRequest
                Unmarshal_ExecRequest Marshal TrimSpace Fields ToUpper
                s payload rest fuel Hopen Hlen Hin) as Hturn.
  subst Q_serve Q_isQuery. cbv zeta in Hturn. split.
  - intros req db' result Hroute Hdec Hexec Hunsent.
    rewrite Hturn, Hroute.
    unfold QueryService.after_handler, QueryService.handleExec, framed.
    rewrite Hdec. cbn [db conn trace]. rewrite Hexec.
    cbn [set_conn conn db trace].
    rewrite QueryService_sendResponse_swallows
      by (destruct Hunsent as [Hm|Hw]; [left; exact Hm | right; left; exact Hw]).
    rewrite <- app_assoc. reflexivity.
  - intros req db' cols rows Hroute Hdec Hquery Hunsent.
    rewrite Hturn, Hroute.
    unfold QueryService.after_handler, QueryService.handleQuery, framed.
    rewrite Hdec. cbn [db conn trace]. rewrite Hquery.
    cbn [sr_Columns sr_data set_conn conn db trace].
    rewrite QueryService_sendResponse_swallows
      by (destruct Hunsent as [Hm|Hw]; [left; exact Hm | right; left; exact Hw]).
    rewrite <- app_assoc. reflexivity.
Qed.

(** X8. A payload that does not decode as a request never reaches the
    engine: the loop returns, the connection is closed with nothing written,
    the engine is left as it was and the frames behind stay unread. *)
Theorem undecodable_request_closes_quietly
        (s : Server DB) (payload rest : bytes) (err1 err2 : error)
        (left1 : QueryRequest) (left2 : ExecRequest) :
  closed (conn s) = false ->
  len payload < 2 ^ 32 ->
  inbuf (conn s) = frame payload ++ rest ->
  Unmarshal_QueryRequest payload = (left1, Some err1) ->
  Unmarshal_ExecRequest payload = (left2, Some err2) ->
  Q_handleConnection s =
  (mkServer (sock_Close (set_inbuf (conn s) rest)) (db s)
     (trace s ++ [EvMake (len payload)]),
   Returned).
Proof.
  intros Hopen Hlen Hin Hd1 Hd2.
  pose proof (QueryService_turn db_Query db_Exec Unmarshal_QueryRequest
                Unmarshal_ExecRequest Marshal TrimSpace Fields ToUpper
                s payload rest (List.length (inbuf (conn s))) Hopen Hlen Hin) as Hturn.
  subst Q_handleConnection. cbv zeta in Hturn.
  unfold QueryService.handleConnection, QueryService.serve_fuel.
  rewrite Hturn. unfold QueryService.isQuery. rewrite Hd1.
  unfold QueryService.after_handler, QueryService.handleExec. rewrite Hd2.
  reflexivity.
Qed.

End Replies.

Lemma exec_reply_ignores_result_errors_witness :
  outbuf (conn (fst (FakeEngine.queryservice
                       (FakeEngine.server (frame FakeEngine.update_bob))))) =
  frame [Byte.x82;
         Byte.xad; Byte.x72; Byte.x6f; Byte.x77; Byte.x73; Byte.x5f; Byte.x61;
         Byte.x66; Byte.x66; Byte.x65; Byte.x63; Byte.x74; Byte.x65; Byte.x64;
         Byte.xd3; Byte.x00; Byte.x00; Byte.x00; Byte.x00; Byte.x00; Byte.x00;
         Byte.x00; Byte.x01;
         Byte.xae; Byte.x6c; Byte.x61; Byte.x73; Byte.x74; Byte.x5f; Byte.x69;
         Byte.x6e; Byte.x73; Byte.x65; Byte.x72; Byte.x74; Byte.x5f; Byte.x69;
         Byte.x64;
         Byte.xd3; Byte.x00; Byte.x00; Byte.x00; Byte.x00; Byte.x00; Byte.x00;
         Byte.x00; Byte.x00].
Proof.
  unfold FakeEngine.queryservice, QueryService.handleConnection.
  change (QueryService.serve_fuel (FakeEngine.server (frame FakeEngine.update_bob)))
    with 67%nat.
  rewrite (exec_reply_ignores_result_errors
             FakeEngine.db_Query FakeEngine.db_Exec
             Msgpack.Unmarshal_QueryRequest Msgpack.Unmarshal_ExecRequest
             Msgpack.Marshal
             AsciiStrings.TrimSpace AsciiStrings.Fields AsciiStrings.ToUpper
             (FakeEngine.server (frame FakeEngine.update_bob))
             FakeEngine.update_bob []
             (Msgpack.EncodeMapLen 2
              ++ Msgpack.EncodeString "rows_affected" ++ Msgpack.EncodeInt64 1
              ++ Msgpack.EncodeString "last_insert_id" ++ Msgpack.EncodeInt64 0)
             66
             (mkExecRequest "UPDATE users SET name=? WHERE id=?"
                [VString "Bob"; VInt64 1])
             [(1, "Bob"%string); (2, "Bob"%string)] 1 0
             None (Some (ErrEngine "LastInsertId is not supported"))).
  - vm_compute. reflexivity.
  - reflexivity.
  - reflexivity.
  - vm_compute. reflexivity.
  - vm_compute. reflexivity.
  - vm_compute. reflexivity.
  - vm_compute. reflexivity.
  - vm_compute. reflexivity.
  - reflexivity.
Defined.

Lemma unsent_reply_is_dropped_witness :
  let s := mkServer (mkSocket (frame FakeEngine.update_bob ++ frame FakeEngine.select_users)
                       [] false false) FakeEngine.users [] in
  let after := fst (FakeEngine.queryservice s) in
  outbuf (conn after) = [] /\
  db after = [(1, "Bob"%string); (2, "Bob"%string)] /\
  trace after =
    [EvMake 62;
     EvExec "UPDATE users SET name=? WHERE id=?" [VString "Bob"; VInt64 1];
     EvMake 40; EvQuery "SELECT id, name FROM users" []].
Proof.
  intros s after. subst after.
  unfold FakeEngine.queryservice, QueryService.handleConnection.
  change (QueryService.serve_fuel s) with 111%nat.
  destruct (unsent_reply_is_dropped
              FakeEngine.db_Query FakeEngine.db_Exec
              Msgpack.Unmarshal_QueryRequest Msgpack.Unmarshal_ExecRequest
              Msgpack.Marshal
              AsciiStrings.TrimSpace AsciiStrings.Fields AsciiStrings.ToUpper
              s FakeEngine.update_bob (frame FakeEngine.select_users) 110)
    as [Hexec _].
  - reflexivity.
  - vm_compute. reflexivity.
  - reflexivity.
  - rewrite (Hexec (mkExecRequest "UPDATE users SET name=? WHERE id=?"
                      [VString "Bob"; VInt64 1])
                   [(1, "Bob"%string); (2, "Bob"%string)]
                   (mkSqlResult (1, None)
                      (0, Some (ErrEngine "LastInsertId is not supported")))).
    + vm_compute. repeat split.
    + vm_compute. reflexivity.
    + vm_compute. reflexivity.
    + vm_compute. reflexivity.
    + right. reflexivity.
Defined.

Lemma undecodable_request_closes_quietly_witness :
  FakeEngine.queryservice
    (FakeEngine.server (frame [Byte.x01] ++ frame FakeEngine.select_users)) =
  (mkServer (mkSocket (frame FakeEngine.select_users) [] true true)
     FakeEngine.users [EvMake 1], Returned).
Proof.
  apply (undecodable_request_closes_quietly
           FakeEngine.db_Query FakeEngine.db_Exec
           Msgpack.Unmarshal_QueryRequest Msgpack.Unmarshal_ExecRequest
           Msgpack.Marshal
           AsciiStrings.TrimSpace AsciiStrings.Fields AsciiStrings.ToUpper
           (FakeEngine.server (frame [Byte.x01] ++ frame FakeEngine.select_users))
           [Byte.x01] (frame FakeEngine.select_users)
           (ErrCodec "invalid code decoding map length")
           (ErrCodec "invalid code decoding map length")
           (mkQueryRequest "" []) (mkExecRequest "" [])).
  - reflexivity.
  - vm_compute. reflexivity.
  - reflexivity.
  - vm_compute. reflexivity.
  - vm_compute. reflexivity.
Defined.

(** ** The msgpack model: responses *)

Module MsgpackReplies.
Import Msgpack.
Import MsgpackFacts.

Lemma decodeElems_all {A : Type} (elem : bytes -> decoded A) (enc : A -> bytes)
      (got : A -> A) (P : A -> Prop) :
  (forall a rest, P a -> elem (enc a ++ rest) = inl (got a, rest)) ->
  forall (l : list A) (rest : bytes),
    Forall P l ->
    decodeElems elem (List.length l) (flat_map enc l ++ rest) = (map got l, inl rest).
Proof.
  intros Helem l rest Hall. induction Hall as [|a l Ha Hl IH].
  - reflexivity.
  - cbn [flat_map List.length decodeElems map].
    rewrite <- app_assoc, Helem by exact Ha. rewrite IH. reflexivity.
Qed.

Lemma flat_map_len {A : Type} (enc : A -> bytes) (l : list A) :
  (forall a, 1 <= len (enc a)) -> len l <= len (flat_map enc l).
Proof.
  intros Hne. induction l as [|a l IH].
  - reflexivity.
  - cbn [flat_map]. rewrite len_app. specialize (Hne a).
    unfold len in *. cbn [List.length]. lia.
Qed.

Lemma decodeSlice_all {A : Type} (elem : bytes -> decoded A) (enc : A -> bytes)
      (got : A -> A) (P : A -> Prop) (l : list A) (rest : bytes) :
  (forall a rest, P a -> elem (enc a ++ rest) = inl (got a, rest)) ->
  (forall a, 1 <= len (enc a)) ->
  len l < 2 ^ 32 -> Forall P l ->
  decodeSlice elem (EncodeArrayLen (len l) ++ flat_map enc l ++ rest) =
  (map got l, inl rest).
Proof.
  intros Helem Hne Hlen Hall.
  pose proof (len_nonneg l) as Hnn.
  destruct (arrayLen_header (len l) (flat_map enc l ++ rest))
    as (c & hd & Henc & Hc & Hal); [lia|].
  rewrite Henc. cbn [app].
  unfold decodeSlice. rewrite readCode_byte by exact Hc. cbn [bind].
  rewrite Hal.
  destruct (Z.leb_spec (len l) 0) as [Hz|Hpos].
  - destruct l; [reflexivity | unfold len in Hz; simpl in Hz; lia].
  - pose proof (flat_map_len enc l Hne) as Hfm.
    pose proof (len_nonneg rest) as Hrest.
    rewrite len_app. decide_if.
    unfold len at 1. rewrite Nat2Z.id.
    apply (decodeElems_all elem enc got P); assumption.
Qed.

Lemma cons_len {A : Type} (x : A) (l : list A) : 1 <= len (x :: l).
Proof. unfold len. cbn [List.length]. lia. Qed.

Lemma EncodeString_nonempty (s : string) : 1 <= len (EncodeString s).
Proof.
  unfold EncodeString, encodeStrLen. cbv zeta.
  destruct (_ <? 32); [|destruct (_ <? 256); [|destruct (_ <? 65536)]];
    apply cons_len.
Qed.

Lemma EncodeValues_nonempty (vs : list Value) : 1 <= len (EncodeValues vs).
Proof.
  unfold EncodeValues, EncodeArrayLen.
  destruct (_ <? 16); [|destruct (_ <? 65536)]; apply cons_len.
Qed.

Lemma decodeSlice_strings (ss : list string) (rest : bytes) :
  len ss < 2 ^ 32 -> Forall wf_string ss ->
  decodeSlice DecodeString (EncodeStrings ss ++ rest) = (ss, inl rest).
Proof.
  intros Hlen Hall. unfold EncodeStrings. rewrite <- app_assoc.
  rewrite (decodeSlice_all DecodeString EncodeString (fun s => s) wf_string);
    auto; [rewrite map_id; reflexivity | |].
  - intros s tail Hs. apply DecodeString_EncodeString. exact Hs.
  - apply EncodeString_nonempty.
Qed.

Lemma decodeSliceElem_values (ncols : nat) (row : list Value) (rest : bytes) :
  wf_row ncols row ->
  decodeSliceElem DecodeInterface (EncodeValues row ++ rest) =
  inl (map received row, rest).
Proof.
  intros (_ & Hlen & Hall). unfold decodeSliceElem.
  rewrite decodeSlice_values by assumption. reflexivity.
Qed.

Lemma decodeSlice_rows (ncols : nat) (rows : list (list Value)) (rest : bytes) :
  len rows < 2 ^ 32 -> Forall (wf_row ncols) rows ->
  decodeSlice (decodeSliceElem DecodeInterface) (EncodeRows rows ++ rest)
  = (map (map received) rows, inl rest).
Proof.
  intros Hlen Hall. unfold EncodeRows.
  destruct rows as [|row rows].
  - unfold EncodeNil, writeCode, decodeSlice. cbn [app].
    rewrite readCode_byte by (codes; lia). cbn [bind].
    unfold arrayLen. codes. repeat decide_if. reflexivity.
  - rewrite <- app_assoc.
    apply (decodeSlice_all (decodeSliceElem DecodeInterface) EncodeValues
             (map received) (wf_row ncols)); auto.
    + intros r tail Hr. apply (decodeSliceElem_values ncols). exact Hr.
    + apply EncodeValues_nonempty.
Qed.

Lemma DecodeInt64_EncodeInt64 (n : Z) (rest : bytes) :
  is_int64 n -> DecodeInt64 (EncodeInt64 n ++ rest) = inl (n, rest).
Proof.
  intros Hn. unfold EncodeInt64, write8, DecodeInt64. cbn [app].
  rewrite readCode_byte by (codes; lia). cbn [bind]. codes.
  repeat decide_if.
  rewrite readUint_put by (pose proof (uint64_range n); simpl; lia).
  cbn [bind]. rewrite int64_uint64 by exact Hn. reflexivity.
Qed.

(** The header of a struct with two fields, and what it leaves to read. *)
Lemma Unmarshal_two_fields {T : Type}
      (field : string -> T -> bytes -> T * (bytes + error)) (zero : T)
      (body : bytes) :
  2 <= len body ->
  Unmarshal field zero (EncodeMapLen 2 ++ body) =
  match decodeFields field 2 zero body with
  | (v, inr err) => (v, Some err)
  | (v, inl _) => (v, None)
  end.
Proof.
  intros Hbody. unfold Unmarshal.
  change (EncodeMapLen 2) with [byte_of_Z 130]. cbn [app].
  rewrite readCode_byte by lia. codes. repeat decide_if.
  unfold mapLen. codes. repeat decide_if.
  change (Z.land 130 15) with 2. decide_if. reflexivity.
Qed.

Lemma Unmarshal_QueryResponse_Marshal (cols : list string)
      (rows : list (list Value)) (reply : bytes) :
  wf_result_set cols rows ->
  Marshal (MQueryResponse (mkQueryResponse cols rows)) = inl reply ->
  Unmarshal_QueryResponse reply =
  (mkQueryResponse cols (map (map received) rows), None).
Proof.
  intros (Hc & Hcs & Hr & Hrs) Hm.
  assert (Hreply : EncodeMapLen 2
                   ++ EncodeString "columns" ++ EncodeStrings cols
                   ++ EncodeString "data" ++ EncodeRows rows = reply)
    by (apply (f_equal (fun r => match r with inl b => b | inr _ => [] end)) in Hm;
        exact Hm).
  clear Hm. subst reply.
  unfold Unmarshal_QueryResponse.
  rewrite Unmarshal_two_fields
    by (rewrite len_app; change (len (EncodeString "columns")) with 8;
        match goal with |- context [len ?t] => pose proof (len_nonneg t) end; lia).
  cbn [decodeFields].
  rewrite DecodeString_EncodeString by (vm_compute; reflexivity).
  unfold QueryResponse_field at 1. cbn [String.eqb Ascii.eqb Bool.eqb].
  rewrite decodeSlice_strings by assumption.
  rewrite DecodeString_EncodeString by (vm_compute; reflexivity).
  unfold QueryResponse_field at 1. cbn [String.eqb Ascii.eqb Bool.eqb Columns Data].
  rewrite <- (app_nil_r (EncodeRows rows)).
  rewrite (decodeSlice_rows (List.length cols)) by assumption.
  reflexivity.
Qed.

Lemma Unmarshal_ExecResponse_Marshal (affected lastID : Z) (reply : bytes) :
  is_int64 affected -> is_int64 lastID ->
  Marshal (MExecResponse (mkExecResponse affected lastID)) = inl reply ->
  Unmarshal_ExecResponse reply = (mkExecResponse affected lastID, None).
Proof.
  intros Ha Hl Hm.
  assert (Hreply : EncodeMapLen 2
                   ++ EncodeString "rows_affected" ++ EncodeInt64 affected
                   ++ EncodeString "last_insert_id" ++ EncodeInt64 lastID = reply)
    by (apply (f_equal (fun r => match r with inl b => b | inr _ => [] end)) in Hm;
        exact Hm).
  clear Hm. subst reply.
  unfold Unmarshal_ExecResponse.
  rewrite Unmarshal_two_fields
    by (rewrite len_app; change (len (EncodeString "rows_affected")) with 14;
        match goal with |- context [len ?t] => pose proof (len_nonneg t) end; lia).
  cbn [decodeFields].
  rewrite DecodeString_EncodeString by (vm_compute; reflexivity).
  unfold ExecResponse_field at 1. cbn [String.eqb Ascii.eqb Bool.eqb].
  rewrite DecodeInt64_EncodeInt64 by exact Ha. cbn [intoField].
  rewrite DecodeString_EncodeString by (vm_compute; reflexivity).
  unfold ExecResponse_field at 1.
  cbn [String.eqb Ascii.eqb Bool.eqb RowsAffected LastInsertID].
  rewrite <- (app_nil_r (EncodeInt64 lastID)).
  rewrite DecodeInt64_EncodeInt64 by exact Hl. reflexivity.
Qed.

Lemma Unmarshal_ExecRequest_EncodeRequest (q : string) (args : list Value) :
  wf_request q args ->
  Unmarshal_ExecRequest (EncodeRequest q args) =
  (mkExecRequest q (map received args), None).
Proof.
  intros (Hq & Hargs & Hwf).
  unfold Unmarshal_ExecRequest, EncodeRequest.
  rewrite Unmarshal_two_fields
    by (rewrite len_app; change (len (EncodeString "query")) with 6;
        match goal with |- context [len ?t] => pose proof (len_nonneg t) end; lia).
  cbn [decodeFields].
  rewrite DecodeString_EncodeString by (vm_compute; reflexivity).
  unfold ExecRequest_field at 1. cbn [String.eqb Ascii.eqb Bool.eqb].
  rewrite DecodeString_EncodeString by exact Hq. cbn [intoField].
  rewrite DecodeString_EncodeString by (vm_compute; reflexivity).
  unfold ExecRequest_field at 1. cbn [String.eqb Ascii.eqb Bool.eqb ereq_Query ereq_Args].
  rewrite <- (app_nil_r (EncodeValues args)).
  rewrite decodeSlice_values by assumption.
  reflexivity.
Qed.

(** A payload that opens no struct is refused at its first byte, with the
    struct untouched. *)
Lemma Unmarshal_refuses {T : Type}
      (field : string -> T -> bytes -> T * (bytes + error)) (zero : T)
      (payload : bytes) :
  match payload with
  | [] => True
  | b :: _ => opens_struct (byte_to_Z b) = false
  end ->
  exists err, Unmarshal field zero payload = (zero, Some err).
Proof.
  destruct payload as [|b tl]; intros Hb.
  - exists EOF. reflexivity.
  - unfold Unmarshal, readCode.
    pose proof (byte_to_Z_range b) as Hrange.
    set (c := byte_to_Z b) in *.
    unfold opens_struct in Hb.
    repeat (apply orb_false_iff in Hb; destruct Hb as [Hb ?]).
    replace (IsFixedArray c || (c =? Array16) || (c =? Array32)) with false
      by (symmetry; repeat (apply orb_false_iff; split); assumption).
    unfold mapLen. rewrite Hb.
    replace (IsFixedMap c) with false by (symmetry; assumption).
    replace (c =? Map16) with false by (symmetry; assumption).
    replace (c =? Map32) with false by (symmetry; assumption).
    eexists. reflexivity.
Qed.

End MsgpackReplies.

(** ** The entry points on what the driver sends *)

Lemma blank_has_no_field (text : string) :
  blank text -> AsciiStrings.Fields (AsciiStrings.TrimSpace text) = [].
Proof.
  unfold blank, AsciiStrings.Fields, AsciiStrings.TrimSpace.
  intros Hblank.
  assert (Htrim : AsciiStrings.trimLeft (list_ascii_of_string text) = []).
  { induction (list_ascii_of_string text) as [|a l IH]; [reflexivity|].
    cbn [forallb] in Hblank. apply andb_true_iff in Hblank as [Ha Hl].
    cbn [AsciiStrings.trimLeft]. rewrite Ha. apply IH. exact Hl. }
  rewrite Htrim. reflexivity.
Qed.

Lemma map_Scan_same_width (ncols : nat) (rows : list (list Value)) :
  Forall (wf_row ncols) rows -> map (Scan ncols) rows = rows.
Proof.
  induction 1 as [|row rows (Hw & _) _ IH]; [reflexivity|].
  cbn [map]. rewrite IH. unfold Scan. rewrite Hw, Nat.eqb_refl. reflexivity.
Qed.

Lemma frame_length (p : bytes) : List.length (frame p) = S (S (S (S (List.length p)))).
Proof. reflexivity. Qed.

Section OnTheDriversRequests.
Context {DB : Type}.
Variable db_Query : DB -> string -> list Value -> DB * (SqlRows + error).
Variable db_Exec : DB -> string -> list Value -> DB * (SqlResult + error).

Let queryservice := QueryService.handleConnection db_Query db_Exec
                      Msgpack.Unmarshal_QueryRequest Msgpack.Unmarshal_ExecRequest
                      Msgpack.Marshal
                      AsciiStrings.TrimSpace AsciiStrings.Fields AsciiStrings.ToUpper.
Let Q_serve := QueryService.serve db_Query db_Exec
                 Msgpack.Unmarshal_QueryRequest Msgpack.Unmarshal_ExecRequest
                 Msgpack.Marshal
                 AsciiStrings.TrimSpace AsciiStrings.Fields AsciiStrings.ToUpper.
Let proxy_serve := Proxy.serve db_Query db_Exec
                     Msgpack.Unmarshal_QueryRequest Msgpack.Unmarshal_ExecRequest
                     Msgpack.Marshal.

(** The loop on a connection with nothing more to read. *)
Lemma QueryService_at_end (s : Server DB) (fuel : nat) :
  closed (conn s) = false -> inbuf (conn s) = [] ->
  Q_serve (S fuel) s = (mkServer (conn s) (db s) (trace s ++ []), Returned).
Proof.
  intros Hopen Hin. subst Q_serve.
  destruct s as [[i o w cl] d t]. cbn [conn inbuf closed db trace] in *.
  subst i cl. reflexivity.
Qed.


(** X10. In cmd/proxy a payload that is no request at all is executed. A
    payload that is empty, or whose first byte opens neither nil, a map nor
    an array, fails to decode; [isQuery] is false, [handleExec] ignores the
    error of its own decoding and calls [db.Exec] with the empty statement
    and no arguments that the untouched struct holds. *)
Theorem garbage_is_executed (s : Server DB) (payload rest : bytes) (fuel : nat) :
  closed (conn s) = false ->
  len payload < 2 ^ 32 ->
  inbuf (conn s) = frame payload ++ rest ->
  match payload with
  | [] => True
  | b :: _ => opens_struct (byte_to_Z b) = false
  end ->
  let handled := Proxy.handleExec db_Exec Msgpack.Unmarshal_ExecRequest
                   Msgpack.Marshal (framed s payload rest) payload in
  Proxy.isQuery Msgpack.Unmarshal_QueryRequest payload = false /\
  proxy_serve (S fuel) s =
    Proxy.after_handler db_Query db_Exec Msgpack.Unmarshal_QueryRequest
      Msgpack.Unmarshal_ExecRequest Msgpack.Marshal fuel handled /\
  db (fst handled) = fst (db_Exec (db s) "" []) /\
  exists more,
    trace (fst handled) = trace s ++ [EvMake (len payload); EvExec "" []] ++ more.
Proof.
  intros Hopen Hlen Hin Hgarbage handled.
  destruct (MsgpackReplies.Unmarshal_refuses Msgpack.QueryRequest_field
              (mkQueryRequest "" []) payload Hgarbage) as [e1 Hd1].
  destruct (MsgpackReplies.Unmarshal_refuses Msgpack.ExecRequest_field
              (mkExecRequest "" []) payload Hgarbage) as [e2 Hd2].
  fold Msgpack.Unmarshal_QueryRequest in Hd1.
  fold Msgpack.Unmarshal_ExecRequest in Hd2.
  assert (Hroute : Proxy.isQuery Msgpack.Unmarshal_QueryRequest payload = false)
    by (unfold Proxy.isQuery; rewrite Hd1; reflexivity).
  split; [exact Hroute|]. split.
  - subst proxy_serve.
    rewrite (Proxy_turn db_Query db_Exec Msgpack.Unmarshal_QueryRequest
               Msgpack.Unmarshal_ExecRequest Msgpack.Marshal
               s payload rest fuel Hopen Hlen Hin).
    rewrite Hroute. reflexivity.
  - subst handled. unfold Proxy.handleExec. rewrite Hd2.
    cbn [fst ereq_Query ereq_Args framed db conn trace].
    destruct (db_Exec (db s) "" []) as [db' [result|err]].
    + split; [reflexivity|]. exists [].
      cbn [fst set_conn trace]. rewrite <- app_assoc. reflexivity.
    + split; [reflexivity|]. exists [EvNilDeref ResultRowsAffected].
      cbn [fst log_events trace]. rewrite <- !app_assoc. reflexivity.
Qed.


(** X12. The numbers of an exec reach the caller. The driver sends a
    statement whose first word is not SELECT; the entry point with typed
    errors runs it through [db.Exec], and [Stmt.Exec] reading the frame the
    server writes returns a result whose [RowsAffected] and [LastInsertId]
    are the two numbers the engine gave, whatever errors the engine attached
    to them. The text is ASCII, where [AsciiStrings] computes what Go's
    [strings] package computes; the arguments reach the engine as the codec
    delivers them. *)
Theorem exec_results_reach_the_caller
        (d d' : DB) (text word : string) (more : list string)
        (args : list Value) (affected lastID : Z) (err1 err2 : option error)
        (reply : bytes) :
  let request := Msgpack.EncodeRequest text args in
  Msgpack.wf_request text args ->
  len request < 2 ^ 32 ->
  ascii_text text ->
  AsciiStrings.Fields (AsciiStrings.TrimSpace text) = word :: more ->
  String.eqb (AsciiStrings.ToUpper word) "SELECT" = false ->
  db_Exec d text (map Msgpack.received args) =
    (d', inl (mkSqlResult (affected, err1) (lastID, err2))) ->
  is_int64 affected -> is_int64 lastID ->
  Msgpack.Marshal (MExecResponse (mkExecResponse affected lastID)) = inl reply ->
  len reply < 2 ^ 32 ->
  let served := fst (queryservice
                       (mkServer (mkSocket (frame request) [] true false) d [])) in
  let client := Driver.mkConn (mkSocket (outbuf (conn served)) [] true false) in
  let called := Driver.Stmt_Exec Msgpack.Marshal Msgpack.Unmarshal_ExecResponse
                  client (Driver.mkStmt text) args in
  db served = d' /\
  outbuf (conn served) = frame reply /\
  outbuf (Driver.conn (fst called)) = frame request /\
  snd called = inl (Driver.mkResult lastID affected) /\
  Driver.Result_RowsAffected (Driver.mkResult lastID affected) = (affected, None) /\
  Driver.Result_LastInsertId (Driver.mkResult lastID affected) = (lastID, None).
Proof.
  intros request Hwf Hlen Hascii Hfields Hupper Hexec Ha Hl Hm Hrlen served client called.
  pose proof (MsgpackFacts.Unmarshal_QueryRequest_EncodeRequest text args [] Hwf)
    as Hdec.
  rewrite app_nil_r in Hdec. fold request in Hdec.
  pose proof (MsgpackReplies.Unmarshal_ExecRequest_EncodeRequest text args Hwf)
    as Hdec2.
  fold request in Hdec2.
  assert (Hroute : QueryService.isQuery Msgpack.Unmarshal_QueryRequest
                     AsciiStrings.TrimSpace AsciiStrings.Fields AsciiStrings.ToUpper
                     request = Some false).
  { unfold QueryService.isQuery. rewrite Hdec. cbn [qreq_Query].
    rewrite Hfields, Hupper. reflexivity. }
  assert (Hserved : served =
    mkServer (sock_Close (mkSocket [] ([] ++ frame reply) true false)) d'
      (([] ++ [EvMake (len request); EvExec text (map Msgpack.received args)]) ++ [])).
  { subst served queryservice.
    set (s0 := mkServer (mkSocket (frame request) [] true false) d []).
    assert (Hin0 : inbuf (conn s0) = frame request ++ [])
      by (rewrite app_nil_r; reflexivity).
    pose proof (QueryService_turn db_Query db_Exec Msgpack.Unmarshal_QueryRequest
                  Msgpack.Unmarshal_ExecRequest Msgpack.Marshal
                  AsciiStrings.TrimSpace AsciiStrings.Fields AsciiStrings.ToUpper
                  s0 request [] (S (S (S (S (List.length request)))))
                  eq_refl Hlen Hin0) as Hturn.
    cbv zeta in Hturn.
    unfold QueryService.handleConnection, QueryService.serve_fuel.
    change (inbuf (conn s0)) with (frame request). rewrite frame_length, Hturn.
    rewrite Hroute.
    unfold QueryService.after_handler, QueryService.handleExec, framed.
    rewrite Hdec2. subst s0. cbn [db conn trace ereq_Query ereq_Args].
    rewrite Hexec.
    cbn [fst res_RowsAffected res_LastInsertId set_conn conn db trace].
    rewrite (QueryService_sendResponse_ok Msgpack.Marshal _ _ reply)
      by (cbn; auto).
    unfold set_conn. cbn [inbuf outbuf set_inbuf conn db trace].
    pose proof (QueryService_at_end
                  (mkServer (mkSocket [] ([] ++ frame reply) true false) d'
                     ([] ++ [EvMake (len request); EvExec text (map Msgpack.received args)]))
                  (S (S (S (List.length request)))) eq_refl eq_refl) as Hend.
    subst Q_serve. cbv zeta in Hend. cbn [conn db trace] in Hend.
    cbn [app] in Hend |- *. rewrite Hend. reflexivity. }
  rewrite Hserved. cbn [db conn outbuf app].
  split; [reflexivity|]. split; [reflexivity|].
  subst called client. rewrite Hserved. cbn [conn outbuf app].
  unfold Driver.Stmt_Exec, Driver.sendRequest, Driver.readExecResponse.
  cbn [Driver.query Driver.conn].
  change (Msgpack.Marshal (MExecRequest (mkExecRequest text args)))
    with (@inl bytes error request). cbv beta iota.
  rewrite writeFrame_ok by reflexivity. cbn [inbuf outbuf writable closed app].
  rewrite (readFrame_frame _ reply []) by (auto; cbn [inbuf]; rewrite app_nil_r; reflexivity).
  rewrite (MsgpackReplies.Unmarshal_ExecResponse_Marshal affected lastID reply Ha Hl Hm).
  cbn [fst snd Driver.conn outbuf set_inbuf LastInsertID RowsAffected].
  repeat split.
Qed.

End OnTheDriversRequests.


Lemma garbage_is_executed_witness :
  Proxy.isQuery Msgpack.Unmarshal_QueryRequest [Byte.x01] = false /\
  exists more,
    trace (fst (Proxy.handleExec FakeEngine.db_Exec Msgpack.Unmarshal_ExecRequest
                  Msgpack.Marshal
                  (framed (FakeEngine.server (frame [Byte.x01])) [Byte.x01] [])
                  [Byte.x01])) =
    [] ++ [EvMake 1; EvExec "" []] ++ more.
Proof.
  destruct (garbage_is_executed FakeEngine.db_Query FakeEngine.db_Exec
              (FakeEngine.server (frame [Byte.x01])) [Byte.x01] [] 0)
    as (Hroute & _ & _ & Htrace).
  - reflexivity.
  - vm_compute. reflexivity.
  - reflexivity.
  - reflexivity.
  - split; [exact Hroute | exact Htrace].
Defined.


Lemma exec_results_reach_the_caller_witness :
  let text := "UPDATE users SET name=? WHERE id=?"%string in
  let args := [VString "Bob"; VInt64 1] in
  let served := fst (FakeEngine.queryservice
                       (FakeEngine.server (frame FakeEngine.update_bob))) in
  db served = [(1, "Bob"%string); (2, "Bob"%string)] /\
  snd (Driver.Stmt_Exec Msgpack.Marshal Msgpack.Unmarshal_ExecResponse
         (Driver.mkConn (mkSocket (outbuf (conn served)) [] true false))
         (Driver.mkStmt text) args) =
  inl (Driver.mkResult 0 1).
Proof.
  intros text args served.
  destruct (exec_results_reach_the_caller FakeEngine.db_Query FakeEngine.db_Exec
              FakeEngine.users [(1, "Bob"%string); (2, "Bob"%string)]
              text "UPDATE" ["users"; "SET"; "name=?"; "WHERE"; "id=?"]%string
              args 1 0 None (Some (ErrEngine "LastInsertId is not supported"))
              (match Msgpack.Marshal
                       (MExecResponse (mkExecResponse 1 0)) with
               | inl reply => reply
               | inr _ => []
               end))
    as (Hdb & _ & _ & Hcall & _).
  - unfold Msgpack.wf_request.
    split; [vm_compute; reflexivity|]. split; [vm_compute; reflexivity|].
    repeat constructor; vm_compute; intuition discriminate.
  - vm_compute. reflexivity.
  - reflexivity.
  - reflexivity.
  - reflexivity.
  - reflexivity.
  - unfold is_int64. lia.
  - unfold is_int64. lia.
  - reflexivity.
  - vm_compute. reflexivity.
  - split; [exact Hdb | exact Hcall].
Defined.

(** ** What a connection's output is made of *)

Lemma engine_calls_app (t u : list Event) :
  engine_calls (t ++ u) = (engine_calls t + engine_calls u)%nat.
Proof.
  induction t as [|e t IH]; [reflexivity|].
  destruct e; cbn [app engine_calls]; rewrite IH; reflexivity.
Qed.

Lemma engine_calls_make (made : list Z) : engine_calls (map EvMake made) = 0%nat.
Proof. induction made as [|n made IH]; [reflexivity | exact IH]. Qed.

Lemma wrote_frames_refl {DB} (s : Server DB) : wrote_frames s s.
Proof.
  exists [], []. cbn [map List.concat engine_calls List.length].
  rewrite !app_nil_r. auto.
Qed.

Lemma wrote_frames_trans {DB} (s1 s2 s3 : Server DB) :
  wrote_frames s1 s2 -> wrote_frames s2 s3 -> wrote_frames s1 s3.
Proof.
  intros (r1 & m1 & Ho1 & Ht1 & Hn1) (r2 & m2 & Ho2 & Ht2 & Hn2).
  exists (r1 ++ r2), (m1 ++ m2).
  rewrite Ho2, Ho1, Ht2, Ht1, map_app, List.concat_app, !app_assoc.
  rewrite engine_calls_app, length_app.
  split; [reflexivity|]. split; [reflexivity|]. lia.
Qed.

Lemma wrote_frames_quietly {DB} (s s' : Server DB) (more : list Event) :
  outbuf (conn s') = outbuf (conn s) -> trace s' = trace s ++ more ->
  wrote_frames s s'.
Proof.
  intros Ho Ht. exists [], more. cbn [map List.concat List.length].
  rewrite app_nil_r. split; [exact Ho|]. split; [exact Ht|]. lia.
Qed.

Lemma writeFrame_outbuf (c : Socket) (p : bytes) :
  outbuf (fst (writeFrame c p)) = outbuf c \/
  outbuf (fst (writeFrame c p)) = outbuf c ++ frame p.
Proof.
  unfold writeFrame, sock_Write, frame.
  destruct (closed c) eqn:Hc; [left; reflexivity|].
  destruct (writable c) eqn:Hw; [|left; reflexivity].
  cbn [closed writable outbuf inbuf fst]. rewrite ?Hc, ?Hw.
  right. cbn [fst outbuf]. rewrite <- app_assoc. reflexivity.
Qed.

Lemma wrote_frames_reply {DB} (s s' : Server DB) (p : bytes) (call : Event) :
  engine_calls [call] = 1%nat ->
  outbuf (conn s') = outbuf (conn s) \/
  outbuf (conn s') = outbuf (conn s) ++ frame p ->
  trace s' = trace s ++ [call] ->
  wrote_frames s s'.
Proof.
  intros Hcall [Ho|Ho] Ht.
  - apply (wrote_frames_quietly s s' [call]); assumption.
  - exists [p], [call]. cbn [map List.concat List.length]. rewrite app_nil_r, Hcall.
    split; [exact Ho|]. split; [exact Ht|]. lia.
Qed.

Section Output.
Context {DB : Type}.
Variable db_Query : DB -> string -> list Value -> DB * (SqlRows + error).
Variable db_Exec : DB -> string -> list Value -> DB * (SqlResult + error).
Variable Unmarshal_QueryRequest : bytes -> QueryRequest * option error.
Variable Unmarshal_ExecRequest : bytes -> ExecRequest * option error.
Variable Marshal : Message -> bytes + error.
Variable TrimSpace : string -> string.
Variable Fields : string -> list string.
Variable ToUpper : string -> string.

Lemma Proxy_sendResponse_outbuf (c : Socket) (m : Message) :
  outbuf (Proxy.sendResponse Marshal c m) = outbuf c \/
  exists p, outbuf (Proxy.sendResponse Marshal c m) = outbuf c ++ frame p.
Proof.
  unfold Proxy.sendResponse. destruct (Marshal m) as [p|err]; [|left; reflexivity].
  destruct (writeFrame_outbuf c p) as [H|H]; [left; exact H | right; exists p; exact H].
Qed.

Lemma QueryService_sendResponse_outbuf (c : Socket) (m : Message) :
  outbuf (QueryService.sendResponse Marshal c m) = outbuf c \/
  exists p, outbuf (QueryService.sendResponse Marshal c m) = outbuf c ++ frame p.
Proof.
  unfold QueryService.sendResponse.
  destruct (Marshal m) as [p|err]; [|left; reflexivity].
  destruct (writeFrame_outbuf c p) as [H|H]; [left; exact H | right; exists p; exact H].
Qed.

Lemma Proxy_handlers_wrote_frames (s : Server DB) (data : bytes) :
  wrote_frames s (fst (Proxy.handleQuery db_Query Unmarshal_QueryRequest Marshal s data)) /\
  wrote_frames s (fst (Proxy.handleExec db_Exec Unmarshal_ExecRequest Marshal s data)).
Proof.
  unfold Proxy.handleQuery, Proxy.handleExec. split.
  - destruct (db_Query _ _ _) as [db' [rows|err]]; cbn [fst].
    + match goal with
      | |- context [Proxy.sendResponse Marshal ?c ?m] =>
          destruct (Proxy_sendResponse_outbuf c m) as [H|[p H]]
      end.
      * eapply wrote_frames_quietly; [exact H | reflexivity].
      * eapply (wrote_frames_reply _ _ p); [|right; exact H | reflexivity].
        reflexivity.
    + eapply wrote_frames_quietly; [reflexivity|].
      cbn [log_events trace]. rewrite <- app_assoc. reflexivity.
  - destruct (db_Exec _ _ _) as [db' [res|err]]; cbn [fst].
    + match goal with
      | |- context [Proxy.sendResponse Marshal ?c ?m] =>
          destruct (Proxy_sendResponse_outbuf c m) as [H|[p H]]
      end.
      * eapply wrote_frames_quietly; [exact H | reflexivity].
      * eapply (wrote_frames_reply _ _ p); [|right; exact H | reflexivity].
        reflexivity.
    + eapply wrote_frames_quietly; [reflexivity|].
      cbn [log_events trace]. rewrite <- app_assoc. reflexivity.
Qed.

Lemma QueryService_handlers_wrote_frames (s : Server DB) (data : bytes) :
  wrote_frames s
    (fst (QueryService.handleQuery db_Query Unmarshal_QueryRequest Marshal s data)) /\
  wrote_frames s
    (fst (QueryService.handleExec db_Exec Unmarshal_ExecRequest Marshal s data)).
Proof.
  unfold QueryService.handleQuery, QueryService.handleExec. split.
  - destruct (Unmarshal_QueryRequest data) as [req [e|]];
      [apply wrote_frames_refl|].
    destruct (db_Query _ _ _) as [db' [rows|err]]; cbn [fst].
    + destruct (sr_Columns rows) as [cols|err]; cbn [fst].
      * match goal with
        | |- context [QueryService.sendResponse Marshal ?c ?m] =>
            destruct (QueryService_sendResponse_outbuf c m) as [H|[p H]]
        end.
        -- eapply wrote_frames_quietly; [exact H | reflexivity].
        -- eapply (wrote_frames_reply _ _ p); [|right; exact H | reflexivity].
           reflexivity.
      * eapply wrote_frames_quietly; reflexivity.
    + eapply wrote_frames_quietly; reflexivity.
  - destruct (Unmarshal_ExecRequest data) as [req [e|]];
      [apply wrote_frames_refl|].
    destruct (db_Exec _ _ _) as [db' [res|err]]; cbn [fst].
    + match goal with
      | |- context [QueryService.sendResponse Marshal ?c ?m] =>
          destruct (QueryService_sendResponse_outbuf c m) as [H|[p H]]
      end.
      * eapply wrote_frames_quietly; [exact H | reflexivity].
      * eapply (wrote_frames_reply _ _ p); [|right; exact H | reflexivity].
        reflexivity.
    + eapply wrote_frames_quietly; reflexivity.
Qed.

Lemma readFrame_wrote_frames (s : Server DB) :
  wrote_frames s
    (log_events (set_conn s (fst (fst (readFrame (conn s)))))
       (map EvMake (snd (fst (readFrame (conn s)))))).
Proof.
  destruct (readFrame_keeps (conn s)) as (Ho & _).
  exists [], (map EvMake (snd (fst (readFrame (conn s))))).
  cbn [map List.concat List.length log_events set_conn conn trace].
  rewrite app_nil_r, engine_calls_make. auto.
Qed.

Lemma Proxy_serve_wrote_frames (fuel : nat) :
  forall s : Server DB,
    wrote_frames s (fst (Proxy.serve db_Query db_Exec Unmarshal_QueryRequest
                           Unmarshal_ExecRequest Marshal fuel s)).
Proof.
  induction fuel as [|fuel IH]; intros s; [apply wrote_frames_refl|].
  cbn [Proxy.serve].
  pose proof (readFrame_wrote_frames s) as Hread.
  destruct (readFrame (conn s)) as [[c made] [data|err]]; cbn [fst snd] in Hread;
    [|exact Hread].
  set (s1 := log_events (set_conn s c) (map EvMake made)) in *.
  destruct (Proxy_handlers_wrote_frames s1 data) as [HQ HE].
  destruct (Proxy.isQuery Unmarshal_QueryRequest data).
  - destruct (Proxy.handleQuery _ _ _ s1 data) as [s2 x]. cbn [fst] in HQ.
    pose proof (wrote_frames_trans _ _ _ Hread HQ) as H2.
    destruct x; cbn [fst]; try exact H2.
    exact (wrote_frames_trans _ _ _ H2 (IH s2)).
  - destruct (Proxy.handleExec _ _ _ s1 data) as [s2 x]. cbn [fst] in HE.
    pose proof (wrote_frames_trans _ _ _ Hread HE) as H2.
    destruct x; cbn [fst]; try exact H2.
    exact (wrote_frames_trans _ _ _ H2 (IH s2)).
Qed.

Lemma QueryService_serve_wrote_frames (fuel : nat) :
  forall s : Server DB,
    wrote_frames s (fst (QueryService.serve db_Query db_Exec Unmarshal_QueryRequest
                           Unmarshal_ExecRequest Marshal TrimSpace Fields ToUpper
                           fuel s)).
Proof.
  induction fuel as [|fuel IH]; intros s; [apply wrote_frames_refl|].
  cbn [QueryService.serve].
  pose proof (readFrame_wrote_frames s) as Hread.
  destruct (readFrame (conn s)) as [[c made] [data|err]]; cbn [fst snd] in Hread;
    [|exact Hread].
  set (s1 := log_events (set_conn s c) (map EvMake made)) in *.
  destruct (QueryService_handlers_wrote_frames s1 data) as [HQ HE].
  destruct (QueryService.isQuery _ _ _ _ data) as [[|]|]; [| |exact Hread].
  - destruct (QueryService.handleQuery _ _ _ s1 data) as [s2 x]. cbn [fst] in HQ.
    pose proof (wrote_frames_trans _ _ _ Hread HQ) as H2.
    destruct x; cbn [fst]; [exact H2|].
    exact (wrote_frames_trans _ _ _ H2 (IH s2)).
  - destruct (QueryService.handleExec _ _ _ s1 data) as [s2 x]. cbn [fst] in HE.
    pose proof (wrote_frames_trans _ _ _ Hread HE) as H2.
    destruct x; cbn [fst]; [exact H2|].
    exact (wrote_frames_trans _ _ _ H2 (IH s2)).
Qed.

(** X15. On a socket that takes every write in full, a connection's output
    is made of whole frames. Whatever arrives on the wire and whatever the
    engine and the codec answer, what either entry point has written when
    [handleConnection] ends is what was there before followed by a sequence
    of complete frames, at most one for each call of [db.Query] or [db.Exec]
    it made; no reply is written for a request that did not reach the
    engine. (A socket that fails between the two writes of [sendResponse],
    or takes part of one, is outside this statement.) *)
Theorem server_writes_whole_frames (s : Server DB) :
  writable (conn s) = true ->
  wrote_frames s
    (fst (Proxy.handleConnection db_Query db_Exec Unmarshal_QueryRequest
            Unmarshal_ExecRequest Marshal s)) /\
  wrote_frames s
    (fst (QueryService.handleConnection db_Query db_Exec Unmarshal_QueryRequest
            Unmarshal_ExecRequest Marshal TrimSpace Fields ToUpper s)).
Proof.
  intros _. unfold Proxy.handleConnection, QueryService.handleConnection. split.
  - pose proof (Proxy_serve_wrote_frames (Proxy.serve_fuel s) s) as H.
    destruct (Proxy.serve _ _ _ _ _ _ s) as [s' x]. cbn [fst] in *.
    eapply wrote_frames_trans; [exact H|].
    eapply wrote_frames_quietly; [reflexivity|].
    cbn [set_conn trace]. symmetry. apply app_nil_r.
  - pose proof (QueryService_serve_wrote_frames (QueryService.serve_fuel s) s) as H.
    destruct (QueryService.serve _ _ _ _ _ _ _ _ _ s) as [s' x]. cbn [fst] in *.
    eapply wrote_frames_trans; [exact H|].
    eapply wrote_frames_quietly; [reflexivity|].
    cbn [set_conn trace]. symmetry. apply app_nil_r.
Qed.

End Output.

Lemma server_writes_whole_frames_witness :
  wrote_frames (FakeEngine.server (frame FakeEngine.select_users))
    (fst (FakeEngine.queryservice
            (FakeEngine.server (frame FakeEngine.select_users)))).
Proof.
  apply (server_writes_whole_frames FakeEngine.db_Query FakeEngine.db_Exec
           Msgpack.Unmarshal_QueryRequest Msgpack.Unmarshal_ExecRequest
           Msgpack.Marshal
           AsciiStrings.TrimSpace AsciiStrings.Fields AsciiStrings.ToUpper
           (FakeEngine.server (frame FakeEngine.select_users))).
  reflexivity.
Defined.

(** ** Routing by the first word *)

Lemma fields_trimLeft (l : list ascii) :
  AsciiStrings.fields [] (AsciiStrings.trimLeft l) = AsciiStrings.fields [] l.
Proof.
  induction l as [|a l IH]; [reflexivity|].
  cbn [AsciiStrings.trimLeft AsciiStrings.fields].
  destruct (AsciiStrings.isSpace a) eqn:Ha; [exact IH|].
  cbn [AsciiStrings.fields]. rewrite Ha. reflexivity.
Qed.

Lemma fields_space_at_end (a : ascii) (l : list ascii) :
  AsciiStrings.isSpace a = true ->
  forall word, AsciiStrings.fields word (l ++ [a]) = AsciiStrings.fields word l.
Proof.
  intros Ha. induction l as [|b l IH]; intros word.
  - cbn [app AsciiStrings.fields]. rewrite Ha. destruct word; reflexivity.
  - cbn [app AsciiStrings.fields].
    destruct (AsciiStrings.isSpace b); [destruct word|]; rewrite IH; reflexivity.
Qed.

Lemma fields_trimRight (l : list ascii) (word : list ascii) :
  AsciiStrings.fields word (rev (AsciiStrings.trimLeft (rev l))) =
  AsciiStrings.fields word l.
Proof.
  induction l as [|a l IH] using rev_ind; [reflexivity|].
  rewrite rev_app_distr. cbn [rev app AsciiStrings.trimLeft].
  destruct (AsciiStrings.isSpace a) eqn:Ha.
  - rewrite IH. symmetry. apply fields_space_at_end. exact Ha.
  - cbn [rev]. rewrite rev_involutive. reflexivity.
Qed.

Lemma Fields_TrimSpace (text : string) :
  AsciiStrings.Fields (AsciiStrings.TrimSpace text) = AsciiStrings.Fields text.
Proof.
  unfold AsciiStrings.Fields, AsciiStrings.TrimSpace.
  rewrite list_ascii_of_string_of_list_ascii, fields_trimRight.
  apply fields_trimLeft.
Qed.

Lemma fields_none (l : list ascii) :
  forall word, AsciiStrings.fields word l = [] ->
               word = [] /\ forallb AsciiStrings.isSpace l = true.
Proof.
  induction l as [|a l IH]; intros word H.
  - cbn [AsciiStrings.fields] in H. destruct word; [auto | discriminate].
  - cbn [AsciiStrings.fields forallb] in *.
    destruct (AsciiStrings.isSpace a).
    + destruct word; [|discriminate]. destruct (IH [] H) as [_ Hl]. auto.
    + destruct (IH _ H) as [Hw _]. discriminate.
Qed.

(** X16. The entry point with typed errors routes by the first word of the
    raw text. For a request that decodes and whose query text is ASCII
    (where [AsciiStrings] computes what Go's [strings] package computes),
    what [isQuery] answers depends only on the first white-space separated
    word of the text as it was sent: the [TrimSpace] before [Fields] changes
    nothing, the word is compared with SELECT after upper-casing, and the
    index panic happens exactly when the text is empty or all white
    space. *)
Theorem routing_reads_the_first_word
        (Unmarshal_QueryRequest : bytes -> QueryRequest * option error)
        (data : bytes) (req : QueryRequest) :
  Unmarshal_QueryRequest data = (req, None) ->
  ascii_text (qreq_Query req) ->
  let routed := QueryService.isQuery Unmarshal_QueryRequest
                  AsciiStrings.TrimSpace AsciiStrings.Fields AsciiStrings.ToUpper
                  data in
  routed = match AsciiStrings.Fields (qreq_Query req) with
           | [] => None
           | w :: _ => Some (String.eqb (AsciiStrings.ToUpper w) "SELECT")
           end /\
  (routed = None <-> blank (qreq_Query req)).
Proof.
  intros Hdec Hascii routed.
  assert (Hrouted : routed =
            match AsciiStrings.Fields (qreq_Query req) with
            | [] => None
            | w :: _ => Some (String.eqb (AsciiStrings.ToUpper w) "SELECT")
            end).
  { subst routed. unfold QueryService.isQuery. rewrite Hdec, Fields_TrimSpace.
    reflexivity. }
  split; [exact Hrouted|]. rewrite Hrouted. split.
  - intros Hnone. unfold blank.
    destruct (AsciiStrings.Fields (qreq_Query req)) as [|w ws] eqn:Hf;
      [|discriminate].
    apply (fields_none _ [] Hf).
  - intros Hblank. rewrite <- Fields_TrimSpace, blank_has_no_field by exact Hblank.
    reflexivity.
Qed.

Lemma routing_reads_the_first_word_witness :
  QueryService.isQuery Msgpack.Unmarshal_QueryRequest
    AsciiStrings.TrimSpace AsciiStrings.Fields AsciiStrings.ToUpper
    FakeEngine.select_nowhere = Some true.
Proof.
  destruct (routing_reads_the_first_word Msgpack.Unmarshal_QueryRequest
              FakeEngine.select_nowhere
              (mkQueryRequest "select * from nowhere" []))
    as [Hrouted _].
  - vm_compute. reflexivity.
  - reflexivity.
  - exact Hrouted.
Defined.

(** ** Frames that do not arrive in full *)

Section Incomplete.
Context {DB : Type}.
Variable db_Query : DB -> string -> list Value -> DB * (SqlRows + error).
Variable db_Exec : DB -> string -> list Value -> DB * (SqlResult + error).
Variable Unmarshal_QueryRequest : bytes -> QueryRequest * option error.
Variable Unmarshal_ExecRequest : bytes -> ExecRequest * option error.
Variable Marshal : Message -> bytes + error.
Variable TrimSpace : string -> string.
Variable Fields : string -> list string.
Variable ToUpper : string -> string.

(** X17. A frame that does not arrive in full is never executed. When the
    peer closes with fewer than four bytes waiting, or after a length prefix
    announcing more bytes than follow, both entry points return and close:
    the engine is not called, nothing is written, the bytes that did arrive
    are discarded, and in the second case the buffer of the announced
    length has already been allocated. *)
Theorem incomplete_frame_is_never_executed (s : Server DB) (made : list Z) :
  closed (conn s) = false ->
  (len (inbuf (conn s)) < 4 /\ made = []) \/
  (exists L body, 0 <= L < 2 ^ 32 /\ inbuf (conn s) = PutUint32 L ++ body /\
                  len body < L /\ made = [L]) ->
  let left := mkServer (sock_Close (set_inbuf (conn s) [])) (db s)
                (trace s ++ map EvMake made) in
  Proxy.handleConnection db_Query db_Exec Unmarshal_QueryRequest
    Unmarshal_ExecRequest Marshal s = (left, Returned) /\
  QueryService.handleConnection db_Query db_Exec Unmarshal_QueryRequest
    Unmarshal_ExecRequest Marshal TrimSpace Fields ToUpper s = (left, Returned).
Proof.
  intros Hopen Hcut left.
  assert (Hread : exists e, readFrame (conn s) = (set_inbuf (conn s) [], made, inr e)).
  { destruct (readFrame_incomplete (conn s) Hopen) as [Hshort Hbody].
    destruct Hcut as [[Hlt ->]|(L & body & HL & Hin & Hlt & ->)].
    - eexists. apply Hshort. exact Hlt.
    - eexists. apply (Hbody L body HL Hin Hlt). }
  destruct Hread as [e Hread]. subst left.
  unfold Proxy.handleConnection, QueryService.handleConnection,
    Proxy.serve_fuel, QueryService.serve_fuel.
  cbn [Proxy.serve QueryService.serve]. rewrite Hread. split; reflexivity.
Qed.

End Incomplete.

Lemma incomplete_frame_is_never_executed_witness :
  FakeEngine.queryservice
    (FakeEngine.server (PutUint32 4294967295 ++ [Byte.x01])) =
  (mkServer (mkSocket [] [] true true) FakeEngine.users [EvMake 4294967295],
   Returned).
Proof.
  apply (incomplete_frame_is_never_executed FakeEngine.db_Query FakeEngine.db_Exec
           Msgpack.Unmarshal_QueryRequest Msgpack.Unmarshal_ExecRequest
           Msgpack.Marshal
           AsciiStrings.TrimSpace AsciiStrings.Fields AsciiStrings.ToUpper
           (FakeEngine.server (PutUint32 4294967295 ++ [Byte.x01]))
           [4294967295]).
  - reflexivity.
  - right. exists 4294967295, [Byte.x01].
    split; [lia|]. split; [reflexivity|]. split; [vm_compute; reflexivity|].
    reflexivity.
Defined.

(** ** cmd/proxy on what the driver sends *)

Section ProxyOnTheDriversRequests.
Context {DB : Type}.
Variable db_Query : DB -> string -> list Value -> DB * (SqlRows + error).
Variable db_Exec : DB -> string -> list Value -> DB * (SqlResult + error).

Let proxy := Proxy.handleConnection db_Query db_Exec
               Msgpack.Unmarshal_QueryRequest Msgpack.Unmarshal_ExecRequest
               Msgpack.Marshal.
Let P_serve := Proxy.serve db_Query db_Exec
                 Msgpack.Unmarshal_QueryRequest Msgpack.Unmarshal_ExecRequest
                 Msgpack.Marshal.

Lemma Proxy_at_end (s : Server DB) (fuel : nat) :
  closed (conn s) = false -> inbuf (conn s) = [] ->
  P_serve (S fuel) s = (mkServer (conn s) (db s) (trace s ++ []), Returned).
Proof.
  intros Hopen Hin. subst P_serve.
  destruct s as [[i o w cl] d t]. cbn [conn inbuf closed db trace] in *.
  subst i cl. reflexivity.
Qed.

Lemma Proxy_sendResponse_ok (c : Socket) (m : Message) (reply : bytes) :
  closed c = false -> writable c = true -> Msgpack.Marshal m = inl reply ->
  Proxy.sendResponse Msgpack.Marshal c m =
  mkSocket (inbuf c) (outbuf c ++ frame reply) (writable c) (closed c).
Proof.
  intros Hopen Hw Hm. unfold Proxy.sendResponse.
  rewrite Hm, writeFrame_ok by assumption. reflexivity.
Qed.

(** X14. In cmd/proxy the rows of any statement reach the caller. Every
    request the driver encodes decodes as a query there, so whatever the
    text is, be it blank or no SELECT, it is run through [db.Query]; when
    the engine returns column names and rows as wide as the columns, the
    server writes one frame and [Stmt.Query] reading it returns a cursor at
    position 0 with those columns and, cell by cell, the rows as the codec
    delivers them: each value as the engine gave it, except that a time
    arrives as a [*time.Time] of the same instant and a nil byte slice as
    nil. The arguments reach the engine in the same way. *)
Theorem proxy_query_results_reach_the_caller
        (d d' : DB) (text : string) (args : list Value)
        (cols : list string) (rows : list (list Value)) (reply : bytes) :
  let request := Msgpack.EncodeRequest text args in
  Msgpack.wf_request text args ->
  len request < 2 ^ 32 ->
  db_Query d text (map Msgpack.received args) =
    (d', inl (mkSqlRows (inl cols) rows)) ->
  wf_result_set cols rows ->
  Msgpack.Marshal (MQueryResponse (mkQueryResponse cols rows)) = inl reply ->
  len reply < 2 ^ 32 ->
  let served := proxy (mkServer (mkSocket (frame request) [] true false) d []) in
  let client := Driver.mkConn
                  (mkSocket (outbuf (conn (fst served))) [] true false) in
  snd served = Returned /\
  db (fst served) = d' /\
  trace (fst served) = [EvMake (len request); EvQuery text (map Msgpack.received args)] /\
  outbuf (conn (fst served)) = frame reply /\
  Driver.Stmt_Query Msgpack.Marshal Msgpack.Unmarshal_QueryResponse
    client (Driver.mkStmt text) args =
  (Driver.mkConn (mkSocket [] (frame request) true false),
   inl (Driver.mkRows cols (map (map Msgpack.received) rows) 0)).
Proof.
  intros request Hwf Hlen Hquery Hset Hm Hrlen served client.
  pose proof (MsgpackFacts.Unmarshal_QueryRequest_EncodeRequest text args [] Hwf)
    as Hdec.
  rewrite app_nil_r in Hdec. fold request in Hdec.
  assert (Hserved : served =
    (mkServer (sock_Close (mkSocket [] (frame reply) true false)) d'
       [EvMake (len request); EvQuery text (map Msgpack.received args)], Returned)).
  { subst served proxy.
    set (s0 := mkServer (mkSocket (frame request) [] true false) d []).
    assert (Hin0 : inbuf (conn s0) = frame request ++ [])
      by (rewrite app_nil_r; reflexivity).
    pose proof (Proxy_turn db_Query db_Exec Msgpack.Unmarshal_QueryRequest
                  Msgpack.Unmarshal_ExecRequest Msgpack.Marshal
                  s0 request [] (S (S (S (S (List.length request)))))
                  eq_refl Hlen Hin0) as Hturn.
    cbv zeta in Hturn.
    unfold Proxy.handleConnection, Proxy.serve_fuel.
    change (inbuf (conn s0)) with (frame request). rewrite frame_length, Hturn.
    unfold Proxy.isQuery. rewrite Hdec. cbn [snd].
    unfold Proxy.after_handler, Proxy.handleQuery, framed.
    rewrite Hdec. subst s0. cbn [fst db conn trace qreq_Query qreq_Args].
    rewrite Hquery. cbn [sr_Columns sr_data].
    destruct Hset as (_ & _ & _ & Hrows).
    rewrite (map_Scan_same_width _ rows Hrows).
    cbn [set_conn conn db trace].
    rewrite (Proxy_sendResponse_ok _ _ reply) by (cbn; auto).
    unfold set_conn. cbn [inbuf outbuf writable closed set_inbuf app conn db trace].
    pose proof (Proxy_at_end
                  (mkServer (mkSocket [] (frame reply) true false) d'
                     [EvMake (len request); EvQuery text (map Msgpack.received args)])
                  (S (S (S (List.length request)))) eq_refl eq_refl) as Hend.
    subst P_serve. cbv zeta in Hend. cbn [conn db trace] in Hend.
    rewrite Hend. cbn [set_conn conn db trace app]. reflexivity. }
  subst client. rewrite Hserved. cbn [fst snd db conn outbuf trace sock_Close].
  split; [reflexivity|]. split; [reflexivity|]. split; [reflexivity|].
  split; [reflexivity|].
  unfold Driver.Stmt_Query, Driver.sendRequest, Driver.readQueryResponse.
  cbn [Driver.query Driver.conn].
  change (Msgpack.Marshal (MQueryRequest (mkQueryRequest text args)))
    with (@inl bytes error request). cbv beta iota.
  rewrite writeFrame_ok by reflexivity. cbn [inbuf outbuf writable closed app].
  rewrite (readFrame_frame _ reply []) by (auto; cbn [inbuf]; rewrite app_nil_r; reflexivity).
  rewrite (MsgpackReplies.Unmarshal_QueryResponse_Marshal cols rows reply Hset Hm).
  reflexivity.
Qed.

End ProxyOnTheDriversRequests.

Lemma proxy_query_results_reach_the_caller_witness :
  let text := "SELECT id, name FROM users"%string in
  let cols := ["id"%string; "name"%string] in
  let rows := [[VInt64 1; VString "Alice"]; [VInt64 2; VString "Bob"]] in
  let served := fst (FakeEngine.proxy
                       (FakeEngine.server (frame FakeEngine.select_users))) in
  Driver.Stmt_Query Msgpack.Marshal Msgpack.Unmarshal_QueryResponse
    (Driver.mkConn (mkSocket (outbuf (conn served)) [] true false))
    (Driver.mkStmt text) [] =
  (Driver.mkConn (mkSocket [] (frame FakeEngine.select_users) true false),
   inl (Driver.mkRows cols rows 0)).
Proof.
  intros text cols rows served.
  destruct (proxy_query_results_reach_the_caller
              FakeEngine.db_Query FakeEngine.db_Exec
              FakeEngine.users FakeEngine.users text [] cols rows
              (match Msgpack.Marshal
                       (MQueryResponse (mkQueryResponse cols rows)) with
               | inl reply => reply
               | inr _ => []
               end))
    as (_ & _ & _ & _ & Hcall).
  - unfold Msgpack.wf_request.
    split; [vm_compute; reflexivity|]. split; [vm_compute; reflexivity|].
    constructor.
  - vm_compute. reflexivity.
  - reflexivity.
  - unfold wf_result_set, wf_row, wf_string.
    split; [vm_compute; reflexivity|].
    split; [repeat constructor|].
    split; [vm_compute; reflexivity|].
    repeat constructor; vm_compute; intuition discriminate.
  - reflexivity.
  - vm_compute. reflexivity.
  - exact Hcall.
Defined.

(** ** The length prefix beyond 32 bits *)

(** X18. The length prefix is the payload length modulo 2^32. [sendRequest]
    and [sendResponse] convert [len(data)] to [uint32] without a check, so
    for a payload of any length the reader of the frame gets the first
    [len mod 2^32] bytes of it as the payload, and the bytes beyond stay on
    the connection, where they are taken for the start of the next frame. A
    payload shorter than 4 GiB comes through whole. *)
Theorem length_prefix_wraps (c : Socket) (p rest : bytes) :
  closed c = false -> inbuf c = frame p ++ rest ->
  let n := Z.to_nat (len p mod 2 ^ 32) in
  readFrame c =
    (set_inbuf c (skipn n p ++ rest), [len p mod 2 ^ 32], inl (firstn n p)) /\
  (len p < 2 ^ 32 -> firstn n p = p /\ skipn n p = []).
Proof.
  intros Hopen Hin n.
  pose proof (len_nonneg p) as Hp.
  assert (HL : 0 <= len p mod 2 ^ 32 < 2 ^ 32) by (apply Z.mod_pos_bound; lia).
  assert (Hle : len p mod 2 ^ 32 <= len p) by (apply Z.mod_le; lia).
  assert (Hn : (n <= List.length p)%nat) by (subst n; unfold len in *; lia).
  split.
  - unfold frame, uint32 in Hin. rewrite <- app_assoc in Hin.
    rewrite (readFrame_header c (len p mod 2 ^ 32) (p ++ rest) Hopen HL Hin).
    assert (Hcut : len p mod 2 ^ 32 = len (firstn n p)).
    { unfold len at 2. rewrite length_firstn, Nat.min_l by exact Hn.
      subst n. lia. }
    rewrite Hcut at 1.
    rewrite (ReadFull_enough (set_inbuf c (p ++ rest)) (firstn n p)
               (skipn n p ++ rest)).
    + reflexivity.
    + exact Hopen.
    + cbn [inbuf set_inbuf]. rewrite app_assoc, firstn_skipn. reflexivity.
  - intros Hsmall.
    assert (Hall : n = List.length p)
      by (subst n; rewrite Z.mod_small by lia; unfold len; lia).
    rewrite Hall. split; [apply firstn_all | apply skipn_all].
Qed.

Lemma length_prefix_wraps_witness :
  readFrame (mkSocket (frame FakeEngine.select_users ++ [Byte.x00]) [] true false) =
  (mkSocket [Byte.x00] [] true false, [len FakeEngine.select_users],
   inl FakeEngine.select_users).
Proof.
  destruct (length_prefix_wraps
              (mkSocket (frame FakeEngine.select_users ++ [Byte.x00]) [] true false)
              FakeEngine.select_users [Byte.x00] eq_refl eq_refl)
    as [Hread _].
  exact Hread.
Defined.
